(** * nebula-importer: the configuration package [pkg/config/config.go]

    A shallow embedding of the schema resolver ([validateAndReset] and
    friends) and of the record compiler ([FormatValue], [FormatValues]) of
    [pkg/config], followed by the properties the specification states about
    them.

    Conventions of the embedding.
    - A Go pointer field [*T] is an [option T]; [nil] is [None].  Reading
      through a nil pointer is the outcome [Panic NilDereference].
    - Go [int] is [Z].  The only arithmetic of the package is [i + start] and
      [j + len(props)] over slice positions, which stays far below 2^63, so
      no wrap-around is written out.
    - A Go [string] is a Rocq [string] (a sequence of bytes).
    - A method with a pointer receiver that mutates it in place takes the
      receiver and returns the mutated receiver.
    - The logger is explicit state: every function runs in the monad [M],
      from the log before the call to an outcome and the log after it.
    - A method that returns a non-nil error has the outcome [Err]; the
      receiver it was mutating is dropped with it, as [Parse] drops the
      configuration when validation fails.
    - What the package imports and the sources do not hold (Unicode-aware
      functions of the Go library, the file system, the YAML decoder and
      the helpers of [pkg/base]) is the class [Runtime]; every property is
      proved for every runtime, under the hypotheses on it that its
      statement names. *)

From Stdlib Require Import ZArith List String Ascii Bool Lia DecimalString.
From Stdlib Require DecimalFacts DecimalPos DecimalZ.
Import ListNotations.
Open Scope string_scope.
Open Scope Z_scope.

(** ** Data model (the struct declarations of config.go) *)

(** [type Prop struct]; the name [Prop] is reserved in Rocq. *)
Record PropT := mkProp {
  Prop_Name : option string;
  Prop_Type : option string;
  Prop_Index : option Z
}.

Record VID := mkVID {
  VID_Index : option Z;
  VID_Function : option string
}.

Record Rank := mkRank {
  Rank_Index : option Z
}.

Record Edge := mkEdge {
  Edge_Name : option string;
  Edge_WithRanking : option bool;
  Edge_Props : list (option PropT);
  Edge_SrcVID : option VID;
  Edge_DstVID : option VID;
  Edge_Rank : option Rank
}.

Record Tag := mkTag {
  Tag_Name : option string;
  Tag_Props : list (option PropT)
}.

Record Vertex := mkVertex {
  Vertex_VID : option VID;
  Vertex_Tags : list (option Tag)
}.

Record Schema := mkSchema {
  Schema_Type : option string;
  Schema_Edge : option Edge;
  Schema_Vertex : option Vertex
}.

Record CSVConfig := mkCSVConfig {
  CSV_WithHeader : option bool;
  CSV_WithLabel : option bool;
  CSV_Delimiter : option string
}.

Record File := mkFile {
  File_Paths : list string;
  File_Path : option string;
  File_FailDataPath : option string;
  File_BatchSize : option Z;
  File_Limit : option Z;
  File_InOrder : option bool;
  File_Type : option string;
  File_CSV : option CSVConfig;
  File_Schema : option Schema
}.

Record NebulaClientConnection := mkConnection {
  Conn_User : option string;
  Conn_Password : option string;
  Conn_Address : option string
}.

Record NebulaClientSettings := mkSettings {
  NCS_Retry : option Z;
  NCS_Concurrency : option Z;
  NCS_ChannelBufferSize : option Z;
  NCS_Space : option string;
  NCS_Connection : option NebulaClientConnection
}.

Record YAMLConfig := mkYAMLConfig {
  Cfg_Version : option string;
  Cfg_Description : option string;
  Cfg_NebulaClientSettings : option NebulaClientSettings;
  Cfg_LogPath : option string;
  Cfg_Files : list (option File)
}.

(** [base.Record]: one row of input, a slice of raw cells. *)
Definition base_Record := list string.

(** [var version string] *)
Definition version : string := "v1rc2".

(** ** Outcomes, the log and the monad *)

Inductive panic :=
| NilDereference
| IndexOutOfRange (i : Z) (len : Z).

(** How a call ends: it returns a value, returns a non-nil [error] (the
    text of the error), terminates the process ([logger.Fatalf]), or
    panics. *)
Inductive outcome (A : Type) :=
| Val (a : A)
| Err (e : string)
| Exit
| Panic (p : panic).
Arguments Val {A} a.
Arguments Err {A} e.
Arguments Exit {A}.
Arguments Panic {A} p.

(** Arguments of the formatting verbs the package uses. *)
Inductive fmt_arg :=
| AStr (s : string)
| AInt (z : Z)
| ABool (b : bool)
| ARecord (r : base_Record).

(** Arguments of a log call: a printable argument, or a [Tag] struct (the
    [%v] of a struct of pointers prints addresses; it is kept as a value). *)
Inductive log_arg :=
| Shown (a : fmt_arg)
| TagValue (t : Tag).

Inductive level := INFO | WARN | ERROR | FATAL.

Record entry := mkEntry {
  entry_level : level;
  entry_format : string;
  entry_args : list log_arg
}.

Definition Log := list entry.

Definition M (A : Type) : Type := Log -> outcome A * Log.

Definition ret {A} (a : A) : M A := fun l => (Val a, l).

Definition bind {A B} (c : M A) (k : A -> M B) : M B :=
  fun l =>
    match c l with
    | (Val a, l') => k a l'
    | (Err e, l') => (Err e, l')
    | (Exit, l') => (Exit, l')
    | (Panic p, l') => (Panic p, l')
    end.

Notation "x <- c ;; k" := (bind c (fun x => k))
  (at level 61, c at next level, right associativity).
Notation "c ;;; k" := (bind c (fun _ => k))
  (at level 61, right associativity).

(** [return err] with a non-nil error. *)
Definition fail {A} (e : string) : M A := fun l => (Err e, l).

Definition throw {A} (p : panic) : M A := fun l => (Panic p, l).

(** [if v, err := c; err != nil { h err } else { ... v ... }]: the caller
    inspects the returned error instead of passing it on. *)
Definition on_error {A} (c : M A) (h : string -> M A) : M A :=
  fun l =>
    match c l with
    | (Err e, l') => h e l'
    | r => r
    end.

(** [*p] *)
Definition deref {A} (p : option A) : M A :=
  match p with
  | Some a => ret a
  | None => throw NilDereference
  end.

Definition len {A} (s : list A) : Z := Z.of_nat (List.length s).

(** [s[i]] on a slice: a run-time panic outside [0 <= i < len(s)]. *)
Definition at_index {A} (s : list A) (i : Z) : M A :=
  if (i <? 0) || (len s <=? i) then throw (IndexOutOfRange i (len s))
  else match nth_error s (Z.to_nat i) with
       | Some a => ret a
       | None => throw (IndexOutOfRange i (len s))
       end.

(** [s[i] = v] on a slice whose position [i] exists. *)
Fixpoint set_index {A} (s : list A) (i : nat) (v : A) : list A :=
  match s, i with
  | [], _ => []
  | _ :: s', O => v :: s'
  | a :: s', S i' => a :: set_index s' i' v
  end.

(** Modelled from the spec: [pkg/logger] is not under [src/].  The spec
    has the non-fatal calls merely log and go on, and the fatal log abort:
    [Infof], [Warnf] and [Errorf] append an entry, and [Fatalf], as Go's
    [log.Fatalf], appends an entry and exits the process.  An entry keeps
    the format and the arguments of the call. *)
Definition log_at (lv : level) (format : string) (args : list log_arg) : M unit :=
  fun l => (Val tt, (l ++ [mkEntry lv format args])%list).

Definition logger_Infof := log_at INFO.
Definition logger_Warnf := log_at WARN.
Definition logger_Errorf := log_at ERROR.

(** Modelled from the spec: [logger.Fatalf] of [pkg/logger], see [log_at]:
    the entry is written and the process exits. *)
Definition logger_Fatalf {A} (format : string) (args : list log_arg) : M A :=
  fun l => (Exit, (l ++ [mkEntry FATAL format args])%list).

(** ** Go library functions the package calls *)

Definition dquote : ascii := "034"%char.

(** [strconv.Itoa], the [%d] verb. *)
Definition itoa (z : Z) : string := NilZero.string_of_int (Z.to_int z).

(** [strings.HasPrefix] *)
Definition HasPrefix (s pre : string) : bool := String.prefix pre s.

(** [strings.Join] *)
Definition Join (elems : list string) (sep : string) : string :=
  String.concat sep elems.

(** [strings.Split s sep] for a non-empty [sep] (the package passes the
    one-byte separators of its cell formats): the pieces of [s] between
    the occurrences of [sep], scanning left to right.  [skip] counts the
    bytes of a separator still to pass over, [cur] is the piece being
    read. *)
Fixpoint Split_from (sep s : string) (skip : nat) (cur : string) : list string :=
  match s with
  | EmptyString => [cur]
  | String c s' =>
      match skip with
      | S k => Split_from sep s' k cur
      | O => if String.prefix sep s
             then cur :: Split_from sep s' (String.length sep - 1)%nat EmptyString
             else Split_from sep s' O (cur ++ String c EmptyString)
      end
  end.

Definition Split (s sep : string) : list string :=
  Split_from sep s O EmptyString.

(** A call into the environment that returns [(value, error)]. *)
Inductive result (A : Type) :=
| Success (a : A)
| Failure (e : string).
Arguments Success {A} a.
Arguments Failure {A} e.

Definition lift {A} (r : result A) : M A :=
  match r with
  | Success a => ret a
  | Failure e => fail e
  end.

(** What the package imports and [src/] does not hold: the Go standard
    library functions whose result depends on Unicode tables or on the file
    system, the YAML decoder, and the helpers of [pkg/base].  The
    development is parametric in them; [reference_runtime] below is one
    instance, used to evaluate the code on concrete inputs. *)
Class Runtime := {
  (** [strings.ToLower] *)
  ToLower : string -> string;
  (** [strconv.Quote], the [%q] verb *)
  Quote : string -> string;
  (** [base.TryConvInt64] *)
  TryConvInt64 : string -> string;
  (** [base.TryConvDateTimestamp cell format] *)
  TryConvDateTimestamp : string -> string -> string;
  (** [base.IsValidType] *)
  IsValidType : string -> bool;
  (** [base.PathExists] *)
  PathExists : string -> bool;
  (** [base.PathFileList]; the caller drops its error *)
  PathFileList : string -> list string;
  (** [filepath.Abs], [filepath.Dir], [filepath.Base], [filepath.Join] *)
  filepath_Abs : string -> result string;
  filepath_Dir : string -> string;
  filepath_Base : string -> string;
  filepath_Join : list string -> string;
  (** [ioutil.ReadFile] and [yaml.Unmarshal] into a fresh [YAMLConfig] *)
  ioutil_ReadFile : string -> result string;
  yaml_Unmarshal : string -> result YAMLConfig
}.

Section Config.
Context {rt : Runtime}.

(** ** [fmt.Sprintf], for the verbs and argument types the package uses *)

Definition type_name (x : fmt_arg) : string :=
  match x with
  | AStr _ => "string"
  | AInt _ => "int"
  | ABool _ => "bool"
  | ARecord _ => "base.Record"
  end.

Definition fmt_v (x : fmt_arg) : string :=
  match x with
  | AStr s => s
  | AInt z => itoa z
  | ABool b => if b then "true" else "false"
  | ARecord r => "[" ++ Join r " " ++ "]"
  end.

Definition fmt_verb (c : ascii) (x : fmt_arg) : string :=
  let bad := "%!" ++ String c ("(" ++ type_name x ++ "=" ++ fmt_v x ++ ")") in
  if Ascii.eqb c "v" then fmt_v x
  else match x with
       | AStr s => if Ascii.eqb c "s" then s
                   else if Ascii.eqb c "q" then Quote s else bad
       | AInt z => if Ascii.eqb c "d" then itoa z else bad
       | ABool b => if Ascii.eqb c "t" then fmt_v x else bad
       | ARecord r => if Ascii.eqb c "s" then fmt_v x else bad
       end.

Fixpoint Sprintf (format : string) (args : list fmt_arg) : string :=
  match format with
  | EmptyString => EmptyString
  | String a rest =>
      if Ascii.eqb a "%" then
        match rest with
        | String c rest' =>
            match args with
            | x :: args' => fmt_verb c x ++ Sprintf rest' args'
            | [] => "%!" ++ String c ("(MISSING)" ++ Sprintf rest' [])
            end
        | EmptyString => "%!(NOVERB)"
        end
      else String a (Sprintf rest args)
  end.

(** [fmt.Errorf] *)
Definition fmt_Errorf (format : string) (args : list fmt_arg) : string :=
  Sprintf format args.

(** ** Prop *)

Definition Prop_IsStringType (p : PropT) : M bool :=
  t <- deref (Prop_Type p) ;;
  ret (String.eqb (ToLower t) "string").

Definition Prop_IsIntType (p : PropT) : M bool :=
  t <- deref (Prop_Type p) ;;
  ret (String.eqb (ToLower t) "int").

Definition Prop_IsDateTimestampType (p : PropT) : M bool :=
  t <- deref (Prop_Type p) ;;
  ret (HasPrefix (ToLower t) "date-timestamp").

Definition Prop_FormatValue (p : PropT) (record : base_Record) : M string :=
  if match Prop_Index p with
     | Some i => len record <=? i
     | None => false
     end
  then
    i <- deref (Prop_Index p) ;;
    fail (fmt_Errorf "Prop index %d out range %d of record(%v)"
            [AInt i; AInt (len record); ARecord record])
  else
    i <- deref (Prop_Index p) ;;
    r <- at_index record i ;;
    isString <- Prop_IsStringType p ;;
    if isString then ret (Sprintf "%q" [AStr r])
    else
      isInt <- Prop_IsIntType p ;;
      if isInt then ret (TryConvInt64 r)
      else
        isDate <- Prop_IsDateTimestampType p ;;
        if isDate then
          t <- deref (Prop_Type p) ;;
          format <- at_index (Split t ":") 1 ;;
          ret (TryConvDateTimestamp r format)
        else ret r.

Definition Prop_validateAndReset (prefix : string) (val : Z) (p : PropT) : M PropT :=
  t <- deref (Prop_Type p) ;;
  let p := mkProp (Prop_Name p) (Some (ToLower t)) (Prop_Index p) in
  if negb (IsValidType (ToLower t)) then
    fail (fmt_Errorf "Error property type of %s.type: %s"
            [AStr prefix; AStr (ToLower t)])
  else
    match Prop_Index p with
    | None => ret (mkProp (Prop_Name p) (Prop_Type p) (Some val))
    | Some i =>
        if i <? 0 then
          name <- deref (Prop_Name p) ;;
          ty <- deref (Prop_Type p) ;;
          logger_Fatalf "Invalid prop index: %d, name: %s, type: %s"
            [Shown (AInt i); Shown (AStr name); Shown (AStr ty)]
        else ret p
    end.

(** ** VID and Rank *)

Definition VID_checkFunction (prefix : string) (v : VID) : M unit :=
  match VID_Function v with
  | Some f =>
      let lf := ToLower f in
      if String.eqb lf EmptyString || String.eqb lf "hash" || String.eqb lf "uuid"
      then ret tt
      else fail (fmt_Errorf
                   ("Invalid %s.function: %s, only following values are supported: "
                    ++ String dquote (String dquote ", hash, uuid"))
                   [AStr prefix; AStr f])
  | None => ret tt
  end.

Definition VID_validateAndReset (prefix : string) (defaultVal : Z) (v : VID) : M VID :=
  let v := match VID_Index v with
           | None => mkVID (Some defaultVal) (VID_Function v)
           | Some _ => v
           end in
  i <- deref (VID_Index v) ;;
  if i <? 0 then fail (fmt_Errorf "Invalid %s.index: %d" [AStr prefix; AInt i])
  else
    VID_checkFunction prefix v ;;;
    ret v.

Definition Rank_validateAndReset (prefix : string) (defaultVal : Z) (r : Rank) : M Rank :=
  let r := match Rank_Index r with
           | None => mkRank (Some defaultVal)
           | Some _ => r
           end in
  i <- deref (Rank_Index r) ;;
  if i <? 0 then fail (fmt_Errorf "Invalid %s.index: %d" [AStr prefix; AInt i])
  else ret r.

(** ** Tag *)

(** The loop of [Tag.FormatValues]; [t] is the tag, for the fatal entry. *)
Fixpoint Tag_FormatValues_range (t : Tag) (props : list (option PropT))
    (record : base_Record) : M (list string) :=
  match props with
  | [] => ret []
  | p :: rest =>
      c <- on_error (p <- deref p ;; Prop_FormatValue p record)
             (fun err => logger_Fatalf "tag: %v, error: %v"
                           [TagValue t; Shown (AStr err)]) ;;
      cells <- Tag_FormatValues_range t rest record ;;
      ret (c :: cells)
  end.

Definition Tag_FormatValues (t : Tag) (record : base_Record) : M string :=
  cells <- Tag_FormatValues_range t (Tag_Props t) record ;;
  ret (Join cells ",").

(** The loop of [Tag.validateAndReset], from position [i] on. *)
Fixpoint Tag_validateAndReset_range (prefix name : string) (start i : Z)
    (props : list (option PropT)) : M (list (option PropT)) :=
  match props with
  | [] => ret []
  | Some p :: rest =>
      p' <- Prop_validateAndReset
              (Sprintf "%s.props[%d]" [AStr prefix; AInt i]) (i + start) p ;;
      rest' <- Tag_validateAndReset_range prefix name start (i + 1) rest ;;
      ret (Some p' :: rest')
  | None :: rest =>
      logger_Errorf "prop %d of tag %s is nil" [Shown (AInt i); Shown (AStr name)] ;;;
      rest' <- Tag_validateAndReset_range prefix name start (i + 1) rest ;;
      ret (None :: rest')
  end.

Definition Tag_validateAndReset (prefix : string) (start : Z) (t : Tag) : M Tag :=
  match Tag_Name t with
  | None => fail (fmt_Errorf "Please configure the vertex tag name in: %s.name"
                    [AStr prefix])
  | Some name =>
      props <- Tag_validateAndReset_range prefix name start 0 (Tag_Props t) ;;
      ret (mkTag (Tag_Name t) props)
  end.

(** ** Edge *)

(** The loop of [Edge.FormatValues] over the rows of the first prop cell. *)
Fixpoint Edge_FormatValues_range (srcVID rank : string) (rows : list string)
    : M (list string) :=
  match rows with
  | [] => ret []
  | row :: rest =>
      let cells := Split row "#" in
      c0 <- at_index cells 0 ;;
      let cells := set_index cells 0 (TryConvInt64 c0) in
      c0 <- at_index cells 0 ;;
      c1 <- at_index cells 1 ;;
      let stmt := Sprintf " %s->%s%s:(%s) " [AStr srcVID; AStr c0; AStr rank; AStr c1] in
      resultVec <- Edge_FormatValues_range srcVID rank rest ;;
      ret (stmt :: resultVec)
  end.

Definition Edge_FormatValues (e : Edge) (record : base_Record) : M string :=
  rank <- match Edge_Rank e with
          | Some r =>
              match Rank_Index r with
              | Some i => c <- at_index record i ;; ret (Sprintf "@%s" [AStr c])
              | None => ret EmptyString
              end
          | None => ret EmptyString
          end ;;
  src <- deref (Edge_SrcVID e) ;;
  srcVID <- match VID_Function src with
            | Some f =>
                i <- deref (VID_Index src) ;;
                c <- at_index record i ;;
                ret (Sprintf "%s(%q)" [AStr f; AStr c])
            | None =>
                i <- deref (VID_Index src) ;;
                c <- at_index record i ;;
                ret (TryConvInt64 c)
            end ;;
  p0 <- at_index (Edge_Props e) 0 ;;
  p0 <- deref p0 ;;
  i <- deref (Prop_Index p0) ;;
  cell <- at_index record i ;;
  let rows := Split cell "&" in
  resultVec <- Edge_FormatValues_range srcVID rank rows ;;
  ret (Join resultVec ",").

(** The loop of [Edge.validateAndReset] over the props, from position [i]. *)
Fixpoint Edge_validateAndReset_range (prefix name : string) (start i : Z)
    (props : list (option PropT)) : M (list (option PropT)) :=
  match props with
  | [] => ret []
  | Some p :: rest =>
      p' <- Prop_validateAndReset
              (Sprintf "%s.prop[%d]" [AStr prefix; AInt i]) (i + start) p ;;
      rest' <- Edge_validateAndReset_range prefix name start (i + 1) rest ;;
      ret (Some p' :: rest')
  | None :: rest =>
      logger_Errorf "prop %d of edge %s is nil" [Shown (AInt i); Shown (AStr name)] ;;;
      rest' <- Edge_validateAndReset_range prefix name start (i + 1) rest ;;
      ret (None :: rest')
  end.

Definition Edge_validateAndReset (prefix : string) (e : Edge) : M Edge :=
  match Edge_Name e with
  | None => fail (fmt_Errorf "Please configure edge name in: %s.name" [AStr prefix])
  | Some name =>
      srcVID <- match Edge_SrcVID e with
                | Some v => VID_validateAndReset (Sprintf "%s.srcVID" [AStr prefix]) 0 v
                | None => ret (mkVID (Some 0) None)
                end ;;
      dstVID <- match Edge_DstVID e with
                | Some v => VID_validateAndReset (Sprintf "%s.dstVID" [AStr prefix]) 1 v
                | None => ret (mkVID (Some 1) None)
                end ;;
      rs <- match Edge_Rank e with
            | Some r =>
                r' <- Rank_validateAndReset (Sprintf "%s.rank" [AStr prefix]) 2 r ;;
                ret (Some r', 2 + 1)
            | None =>
                match Edge_WithRanking e with
                | Some true => ret (Some (mkRank (Some 2)), 2 + 1)
                | _ => ret (None, 2)
                end
            end ;;
      let '(rank, start) := rs in
      props <- Edge_validateAndReset_range prefix name start 0 (Edge_Props e) ;;
      ret (mkEdge (Edge_Name e) (Edge_WithRanking e) props
             (Some srcVID) (Some dstVID) rank)
  end.

(** ** Vertex *)

(** The first loop of [Vertex.FormatValues]. *)
Fixpoint Vertex_FormatValues_range (tags : list (option Tag))
    (record : base_Record) : M (list string) :=
  match tags with
  | [] => ret []
  | tag :: rest =>
      t <- deref tag ;;
      c <- Tag_FormatValues t record ;;
      cells <- Vertex_FormatValues_range rest record ;;
      ret (c :: cells)
  end.

Definition Vertex_FormatValues (v : Vertex) (record : base_Record) : M string :=
  cells <- Vertex_FormatValues_range (Vertex_Tags v) record ;;
  vid <- deref (Vertex_VID v) ;;
  vid <- match VID_Function vid with
         | Some f =>
             i <- deref (VID_Index vid) ;;
             c <- at_index record i ;;
             ret (Sprintf "%s(%q)" [AStr f; AStr c])
         | None =>
             i <- deref (VID_Index vid) ;;
             c <- at_index record i ;;
             ret (TryConvInt64 c)
         end ;;
  ret (Sprintf " %s: (%s)" [AStr vid; AStr (Join cells ",")]).

(** The loop of [Vertex.validateAndReset] over the tags, from position [i]
    with the running column [j]. *)
Fixpoint Vertex_validateAndReset_range (prefix : string) (i j : Z)
    (tags : list (option Tag)) : M (list (option Tag)) :=
  match tags with
  | [] => ret []
  | Some t :: rest =>
      t' <- Tag_validateAndReset
              (Sprintf "%s.tags[%d]" [AStr prefix; AInt i]) j t ;;
      rest' <- Vertex_validateAndReset_range prefix (i + 1)
                 (j + len (Tag_Props t')) rest ;;
      ret (Some t' :: rest')
  | None :: rest =>
      logger_Errorf "tag %d is nil" [Shown (AInt i)] ;;;
      rest' <- Vertex_validateAndReset_range prefix (i + 1) j rest ;;
      ret (None :: rest')
  end.

Definition Vertex_validateAndReset (prefix : string) (v : Vertex) : M Vertex :=
  vid <- match Vertex_VID v with
         | Some vid => VID_validateAndReset (Sprintf "%s.vid" [AStr prefix]) 0 vid
         | None => ret (mkVID (Some 0) None)
         end ;;
  tags <- Vertex_validateAndReset_range prefix 0 1 (Vertex_Tags v) ;;
  ret (mkVertex (Some vid) tags).

(** ** Schema *)

Definition Schema_validateAndReset (prefix : string) (s : Schema) : M Schema :=
  t <- deref (Schema_Type s) ;;
  if String.eqb (ToLower t) "edge" then
    match Schema_Edge s with
    | Some e =>
        e' <- Edge_validateAndReset (Sprintf "%s.edge" [AStr prefix]) e ;;
        ret (mkSchema (Schema_Type s) (Some e') (Schema_Vertex s))
    | None =>
        logger_Infof "%s.edge is nil" [Shown (AStr prefix)] ;;;
        ret s
    end
  else if String.eqb (ToLower t) "vertex" then
    match Schema_Vertex s with
    | Some v =>
        v' <- Vertex_validateAndReset (Sprintf "%s.vertex" [AStr prefix]) v ;;
        ret (mkSchema (Schema_Type s) (Schema_Edge s) (Some v'))
    | None =>
        logger_Infof "%s.vertex is nil" [Shown (AStr prefix)] ;;;
        ret s
    end
  else
    fail (fmt_Errorf "Error schema type(%s) in %s.type only edge and vertex are supported"
            [AStr t; AStr prefix]).

(** ** CSVConfig, File *)

Definition CSVConfig_validateAndReset (prefix : string) (c : CSVConfig) : M CSVConfig :=
  withHeader <- match CSV_WithHeader c with
                | None =>
                    logger_Infof "%s.withHeader: %v"
                      [Shown (AStr prefix); Shown (ABool false)] ;;;
                    ret false
                | Some h => ret h
                end ;;
  withLabel <- match CSV_WithLabel c with
               | None =>
                   logger_Infof "%s.withLabel: %v"
                     [Shown (AStr prefix); Shown (ABool false)] ;;;
                   ret false
               | Some l => ret l
               end ;;
  match CSV_Delimiter c with
  | Some d =>
      if (String.length d =? 0)%nat
      then fail (fmt_Errorf "%s.delimiter is empty string" [AStr prefix])
      else ret (mkCSVConfig (Some withHeader) (Some withLabel) (CSV_Delimiter c))
  | None => ret (mkCSVConfig (Some withHeader) (Some withLabel) (CSV_Delimiter c))
  end.

Definition File_validateAndReset (dir prefix : string) (f : File) : M File :=
  match File_Path f with
  | None => fail (fmt_Errorf "Please configure file path in: %s.path" [AStr prefix])
  | Some given =>
      path <- (if negb (PathExists given) then
                 let path := filepath_Join [dir; given] in
                 if negb (PathExists path)
                 then fail (fmt_Errorf "File(%s) doesn't exist" [AStr given])
                 else ret path
               else ret given) ;;
      let paths := PathFileList path in
      failDataPath <- match File_FailDataPath f with
                      | None =>
                          d <- lift (filepath_Abs (filepath_Dir path)) ;;
                          let p := filepath_Join [d; "err"; filepath_Base path] in
                          logger_Warnf "You have not configured the failed data output file path in: %s.failDataPath, reset to default path: %s"
                            [Shown (AStr prefix); Shown (AStr p)] ;;;
                          ret p
                      | Some p => ret p
                      end ;;
      batchSize <- match File_BatchSize f with
                   | None =>
                       logger_Infof "Invalid batch size in path(%s), reset to %d"
                         [Shown (AStr path); Shown (AInt 128)] ;;;
                       ret 128
                   | Some b => ret b
                   end ;;
      let inOrder := match File_InOrder f with
                     | None => false
                     | Some b => b
                     end in
      ty <- deref (File_Type f) ;;
      if negb (String.eqb (ToLower ty) "csv") then
        fail (fmt_Errorf "Invalid file data type: %s, reset to csv" [AStr ty])
      else
        csv <- match File_CSV f with
               | Some c =>
                   c' <- CSVConfig_validateAndReset (Sprintf "%s.csv" [AStr prefix]) c ;;
                   ret (Some c')
               | None => ret None
               end ;;
        match File_Schema f with
        | None => fail (fmt_Errorf "Please configure file schema: %s.schema"
                          [AStr prefix])
        | Some s =>
            s' <- Schema_validateAndReset (Sprintf "%s.schema" [AStr prefix]) s ;;
            ret (mkFile paths (Some path) (Some failDataPath) (Some batchSize)
                   (File_Limit f) (Some inOrder) (File_Type f) csv (Some s'))
        end
  end.

(** ** Client settings *)

Definition NebulaClientConnection_validateAndReset (prefix : string)
    (c : NebulaClientConnection) : M NebulaClientConnection :=
  address <- match Conn_Address c with
             | None =>
                 logger_Warnf "%s.address: %s"
                   [Shown (AStr prefix); Shown (AStr "127.0.0.1:3699")] ;;;
                 ret "127.0.0.1:3699"
             | Some a => ret a
             end ;;
  user <- match Conn_User c with
          | None =>
              logger_Warnf "%s.user: %s" [Shown (AStr prefix); Shown (AStr "user")] ;;;
              ret "user"
          | Some u => ret u
          end ;;
  password <- match Conn_Password c with
              | None =>
                  logger_Warnf "%s.password: %s"
                    [Shown (AStr prefix); Shown (AStr "password")] ;;;
                  ret "password"
              | Some p => ret p
              end ;;
  ret (mkConnection (Some user) (Some password) (Some address)).

Definition NebulaClientSettings_validateAndReset (prefix : string)
    (n : NebulaClientSettings) : M NebulaClientSettings :=
  match NCS_Space n with
  | None => fail (fmt_Errorf "Please configure the space name in: %s.space"
                    [AStr prefix])
  | Some _ =>
      retry <- match NCS_Retry n with
               | None =>
                   logger_Warnf "Invalid retry option in %s.retry, reset to %d "
                     [Shown (AStr prefix); Shown (AInt 1)] ;;;
                   ret 1
               | Some r => ret r
               end ;;
      concurrency <- match NCS_Concurrency n with
                     | None =>
                         logger_Warnf "Invalid client concurrency in %s.concurrency, reset to %d"
                           [Shown (AStr prefix); Shown (AInt 10)] ;;;
                         ret 10
                     | Some d => ret d
                     end ;;
      bufferSize <- match NCS_ChannelBufferSize n with
                    | None =>
                        logger_Warnf "Invalid client channel buffer size in %s.channelBufferSize, reset to %d"
                          [Shown (AStr prefix); Shown (AInt 128)] ;;;
                        ret 128
                    | Some d => ret d
                    end ;;
      match NCS_Connection n with
      | None => fail (fmt_Errorf "Please configure the connection information in: %s.connection"
                        [AStr prefix])
      | Some c =>
          c' <- NebulaClientConnection_validateAndReset
                  (Sprintf "%s.connection" [AStr prefix]) c ;;
          ret (mkSettings (Some retry) (Some concurrency) (Some bufferSize)
                 (NCS_Space n) (Some c'))
      end
  end.

(** ** YAMLConfig *)

(** [errors.New] *)
Definition errors_New (text : string) : string := text.

(** The loop of [YAMLConfig.ValidateAndReset] over the files. *)
Fixpoint ValidateAndReset_range (dir : string) (i : Z) (files : list (option File))
    : M (list (option File)) :=
  match files with
  | [] => ret []
  | f :: rest =>
      f <- deref f ;;
      f' <- File_validateAndReset dir (Sprintf "files[%d]" [AInt i]) f ;;
      rest' <- ValidateAndReset_range dir (i + 1) rest ;;
      ret (Some f' :: rest')
  end.

Definition YAMLConfig_ValidateAndReset (dir : string) (config : YAMLConfig)
    : M YAMLConfig :=
  match Cfg_NebulaClientSettings config with
  | None => fail (errors_New "please configure clientSettings")
  | Some n =>
      n' <- NebulaClientSettings_validateAndReset "clientSettings" n ;;
      logPath <- match Cfg_LogPath config with
                 | None =>
                     logger_Warnf "You have not configured the log file path in: logPath, reset to default path: %s"
                       [Shown (AStr "/tmp/nebula-importer.log")] ;;;
                     ret "/tmp/nebula-importer.log"
                 | Some p => ret p
                 end ;;
      if len (Cfg_Files config) =? 0 then
        fail (errors_New "There is no files in configuration")
      else
        files <- ValidateAndReset_range dir 0 (Cfg_Files config) ;;
        ret (mkYAMLConfig (Cfg_Version config) (Cfg_Description config)
               (Some n') (Some logPath) files)
  end.

(** The guard [conf.Version == nil && *conf.Version != version] of [Parse]:
    the right operand is evaluated only when the left one is true. *)
Definition Parse_version_guard (conf : YAMLConfig) : M bool :=
  if match Cfg_Version conf with
     | None => true
     | Some _ => false
     end
  then
    v <- deref (Cfg_Version conf) ;;
    ret (negb (String.eqb v version))
  else ret false.

Definition Parse (filename : string) : M YAMLConfig :=
  content <- lift (ioutil_ReadFile filename) ;;
  conf <- lift (yaml_Unmarshal content) ;;
  reject <- Parse_version_guard conf ;;
  if reject then
    fail (fmt_Errorf "The YAML configure version must be %s" [AStr version])
  else
    path <- lift (filepath_Abs (filepath_Dir filename)) ;;
    YAMLConfig_ValidateAndReset path conf.

End Config.

(** ** The header functions: [String], [maxIndex], [ParseFunction] *)

(** What these functions import beyond [Runtime] and the sources do not
    hold: the column labels of [pkg/base], [strings.ToUpper], and the
    longest slice of strings that [make] allocates. *)
Class HeaderRuntime := {
  (** [base.LABEL_VID], [base.LABEL_SRC_VID], [base.LABEL_DST_VID],
      [base.LABEL_RANK], [base.LABEL_IGNORE] *)
  LABEL_VID : string;
  LABEL_SRC_VID : string;
  LABEL_DST_VID : string;
  LABEL_RANK : string;
  LABEL_IGNORE : string;
  (** [strings.ToUpper] *)
  ToUpper : string -> string;
  (** the largest [n] for which [make([]string, n)] returns a slice: Go's
      run time refuses a slice of more than [maxAlloc] bytes (2^48 on
      64-bit Linux, 16 bytes a string, so 2^44 strings), and a machine may
      hold less *)
  make_limit : Z
}.

(** [strings.Index]: the position of the first occurrence of [substr] in
    [s], or -1. *)
Fixpoint Index_from (s substr : string) (pos : Z) : Z :=
  match s with
  | EmptyString => if String.eqb substr EmptyString then pos else -1
  | String _ s' =>
      if String.prefix substr s then pos else Index_from s' substr (pos + 1)
  end.

Definition Index (s substr : string) : Z := Index_from s substr 0.

Definition strlen (s : string) : Z := Z.of_nat (String.length s).

(** The slice expression [s[lo:hi]] on a string: a run-time panic (slice
    bounds out of range) unless [0 <= lo <= hi <= len(s)].  The type
    [panic] has no constructor of its own for it; the panic is written
    with the offending bound and the length. *)
Definition slice_string (s : string) (lo hi : Z) : M string :=
  if (lo <? 0) || (hi <? lo) || (strlen s <? hi)
  then throw (IndexOutOfRange hi (strlen s))
  else ret (substring (Z.to_nat lo) (Z.to_nat (hi - lo)) s).

(** The sum of two [int] as the machine computes it, on 64 bits. *)
Definition int_add (a b : Z) : Z :=
  (a + b + 2 ^ 63) mod 2 ^ 64 - 2 ^ 63.

(** [s[i] = v] on a slice: a run-time panic outside [0 <= i < len(s)]. *)
Definition store_index {A} (s : list A) (i : Z) (v : A) : M (list A) :=
  if (i <? 0) || (len s <=? i) then throw (IndexOutOfRange i (len s))
  else ret (set_index s (Z.to_nat i) v).

Section Headers.
Context {rt : Runtime} {hd : HeaderRuntime}.

(** [make([]string, n)]: [n] empty strings when [0 <= n <= make_limit].
    A negative [n], and an [n] beyond [make_limit], do not return: the
    run time panics (makeslice: len out of range), or beyond what the
    machine holds dies out of memory.  The type [panic] has no
    constructor for either; both are written as the panic of an index
    [n] out of the range [make_limit]. *)
Definition make_strings (n : Z) : M (list string) :=
  if (n <? 0) || (make_limit <? n) then throw (IndexOutOfRange n make_limit)
  else ret (repeat EmptyString (Z.to_nat n)).

Definition Schema_IsVertex (s : Schema) : M bool :=
  t <- deref (Schema_Type s) ;;
  ret (String.eqb (ToUpper t) "VERTEX").

Definition VID_ParseFunction (str : string) (v : VID) : M VID :=
  let i := Index str "(" in
  let j := Index str ")" in
  if (i <? 0) && (j <? 0) then ret (mkVID (VID_Index v) None)
  else if (0 <? i) && (i <? j) then
    sub <- slice_string str (i + 1) j ;;
    ret (mkVID (VID_Index v) (Some (ToLower sub)))
  else
    logger_Fatalf "Invalid function format: %s" [Shown (AStr str)].

Definition VID_String (v : VID) (vid : string) : string :=
  match VID_Function v with
  | None => vid
  | Some f =>
      if String.eqb f EmptyString then vid
      else Sprintf "%s(%s)" [AStr vid; AStr f]
  end.

(** The loop over the props of [Edge.maxIndex], which is also the inner
    loop of [Vertex.maxIndex]. *)
Fixpoint maxIndex_range (maxIdx : Z) (props : list (option PropT)) : Z :=
  match props with
  | [] => maxIdx
  | p :: rest =>
      maxIndex_range
        (match p with
         | Some p =>
             match Prop_Index p with
             | Some i => if maxIdx <? i then i else maxIdx
             | None => maxIdx
             end
         | None => maxIdx
         end) rest
  end.

Definition Edge_maxIndex (e : Edge) : Z :=
  let maxIdx := 0 in
  let maxIdx :=
    match Edge_SrcVID e with
    | Some v =>
        match VID_Index v with
        | Some i => if maxIdx <? i then i else maxIdx
        | None => maxIdx
        end
    | None => maxIdx
    end in
  let maxIdx :=
    match Edge_DstVID e with
    | Some v =>
        match VID_Index v with
        | Some i => if maxIdx <? i then i else maxIdx
        | None => maxIdx
        end
    | None => maxIdx
    end in
  let maxIdx :=
    match Edge_Rank e with
    | Some r =>
        match Rank_Index r with
        | Some i => if maxIdx <? i then i else maxIdx
        | None => maxIdx
        end
    | None => maxIdx
    end in
  maxIndex_range maxIdx (Edge_Props e).

Definition combine (cell val : string) : string :=
  if (0 <? strlen cell) then Sprintf "%s/%s" [AStr cell; AStr val]
  else val.

Definition Prop_String (p : PropT) (prefix : string) : M string :=
  name <- deref (Prop_Name p) ;;
  ty <- deref (Prop_Type p) ;;
  ret (Sprintf "%s.%s:%s" [AStr prefix; AStr name; AStr ty]).

(** The last loop of [Edge.String] and of [Vertex.String]: an empty cell
    becomes the ignore label. *)
Fixpoint String_ignore_range (cells : list string) : list string :=
  match cells with
  | [] => []
  | c :: rest =>
      (if String.eqb c EmptyString then LABEL_IGNORE else c)
      :: String_ignore_range rest
  end.

(** The loop of [Edge.String] over the props. *)
Fixpoint Edge_String_range (e : Edge) (props : list (option PropT))
    (cells : list string) : M (list string) :=
  match props with
  | [] => ret cells
  | prop :: rest =>
      prop <- deref prop ;;
      cells <- match Prop_Index prop with
               | Some i =>
                   c <- at_index cells i ;;
                   name <- deref (Edge_Name e) ;;
                   label <- Prop_String prop name ;;
                   store_index cells i (combine c label)
               | None => ret cells
               end ;;
      Edge_String_range e rest cells
  end.

Definition Edge_String (e : Edge) : M string :=
  cells <- make_strings (int_add (Edge_maxIndex e) 1) ;;
  cells <- match Edge_SrcVID e with
           | Some v =>
               match VID_Index v with
               | Some i =>
                   c <- at_index cells i ;;
                   store_index cells i (combine c (VID_String v LABEL_SRC_VID))
               | None => ret cells
               end
           | None => ret cells
           end ;;
  cells <- match Edge_DstVID e with
           | Some v =>
               match VID_Index v with
               | Some i =>
                   c <- at_index cells i ;;
                   store_index cells i (combine c (VID_String v LABEL_DST_VID))
               | None => ret cells
               end
           | None => ret cells
           end ;;
  cells <- match Edge_Rank e with
           | Some r =>
               match Rank_Index r with
               | Some i =>
                   c <- at_index cells i ;;
                   store_index cells i (combine c LABEL_RANK)
               | None => ret cells
               end
           | None => ret cells
           end ;;
  cells <- Edge_String_range e (Edge_Props e) cells ;;
  ret (Join (String_ignore_range cells) ",").

(** The loop of [Vertex.maxIndex] over the tags. *)
Fixpoint Vertex_maxIndex_range (maxIdx : Z) (tags : list (option Tag)) : Z :=
  match tags with
  | [] => maxIdx
  | tag :: rest =>
      Vertex_maxIndex_range
        (match tag with
         | Some t => maxIndex_range maxIdx (Tag_Props t)
         | None => maxIdx
         end) rest
  end.

Definition Vertex_maxIndex (v : Vertex) : Z :=
  let maxIdx := 0 in
  let maxIdx :=
    match Vertex_VID v with
    | Some vid =>
        match VID_Index vid with
        | Some i => if maxIdx <? i then i else maxIdx
        | None => maxIdx
        end
    | None => maxIdx
    end in
  Vertex_maxIndex_range maxIdx (Vertex_Tags v).

(** The inner loop of [Vertex.String], over the props of the tag [t]. *)
Fixpoint Vertex_String_props (t : Tag) (props : list (option PropT))
    (cells : list string) : M (list string) :=
  match props with
  | [] => ret cells
  | prop :: rest =>
      cells <- match prop with
               | Some p =>
                   match Prop_Index p with
                   | Some i =>
                       c <- at_index cells i ;;
                       name <- deref (Tag_Name t) ;;
                       label <- Prop_String p name ;;
                       store_index cells i (combine c label)
                   | None => ret cells
                   end
               | None => ret cells
               end ;;
      Vertex_String_props t rest cells
  end.

(** The outer loop of [Vertex.String], over the tags. *)
Fixpoint Vertex_String_range (tags : list (option Tag)) (cells : list string)
    : M (list string) :=
  match tags with
  | [] => ret cells
  | tag :: rest =>
      t <- deref tag ;;
      cells <- Vertex_String_props t (Tag_Props t) cells ;;
      Vertex_String_range rest cells
  end.

Definition Vertex_String (v : Vertex) : M string :=
  cells <- make_strings (int_add (Vertex_maxIndex v) 1) ;;
  cells <- match Vertex_VID v with
           | Some vid =>
               match VID_Index vid with
               | Some i => store_index cells i (VID_String vid LABEL_VID)
               | None => ret cells
               end
           | None => ret cells
           end ;;
  cells <- Vertex_String_range (Vertex_Tags v) cells ;;
  ret (Join (String_ignore_range cells) ",").

Definition Schema_String (s : Schema) : M string :=
  isVertex <- Schema_IsVertex s ;;
  if isVertex then
    v <- deref (Schema_Vertex s) ;;
    Vertex_String v
  else
    e <- deref (Schema_Edge s) ;;
    Edge_String e.

End Headers.

(** ** A reference runtime

    One instance of [Runtime], to run the code on concrete inputs.  The
    standard-library functions are given for ASCII text and clean
    slash-separated paths, where they need no Unicode table and no file
    system; the file system is the list [fs] of the paths that exist and the
    YAML decoder returns [decoded]. *)

Definition lower_byte (c : ascii) : ascii :=
  let n := nat_of_ascii c in
  if ((65 <=? n) && (n <=? 90))%nat then ascii_of_nat (n + 32) else c.

Fixpoint ascii_ToLower (s : string) : string :=
  match s with
  | EmptyString => EmptyString
  | String c s' => String (lower_byte c) (ascii_ToLower s')
  end.

Definition hex_digit (n : nat) : ascii :=
  if (n <? 10)%nat then ascii_of_nat (48 + n) else ascii_of_nat (87 + n).

(** The escape [strconv.Quote] writes for one byte of ASCII text; a byte
    from 128 on is written as Go writes a byte that is not part of a valid
    UTF-8 sequence. *)
Definition quote_byte (c : ascii) : string :=
  let n := nat_of_ascii c in
  let bs := String "092"%char EmptyString in
  if (n =? 34)%nat then bs ++ String c EmptyString
  else if (n =? 92)%nat then bs ++ bs
  else if (n =? 7)%nat then bs ++ "a"
  else if (n =? 8)%nat then bs ++ "b"
  else if (n =? 12)%nat then bs ++ "f"
  else if (n =? 10)%nat then bs ++ "n"
  else if (n =? 13)%nat then bs ++ "r"
  else if (n =? 9)%nat then bs ++ "t"
  else if (n =? 11)%nat then bs ++ "v"
  else if ((n <? 32) || (127 <=? n))%nat
       then bs ++ "x" ++ String (hex_digit (n / 16)) (String (hex_digit (n mod 16)) EmptyString)
  else String c EmptyString.

Fixpoint quote_bytes (s : string) : string :=
  match s with
  | EmptyString => EmptyString
  | String c s' => quote_byte c ++ quote_bytes s'
  end.

Definition ascii_Quote (s : string) : string :=
  String dquote (quote_bytes s ++ String dquote EmptyString).

Definition is_digit (c : ascii) : bool :=
  ((48 <=? nat_of_ascii c) && (nat_of_ascii c <=? 57))%nat.

Fixpoint all_digits (s : string) : bool :=
  match s with
  | EmptyString => true
  | String c s' => is_digit c && all_digits s'
  end.

Fixpoint strip_zeros (s : string) : string :=
  match s with
  | String c s' => if Ascii.eqb c "0" then strip_zeros s' else s
  | EmptyString => EmptyString
  end.

(** Modelled from the spec: [base.TryConvInt64] is not under [src/]; the
    spec has it parse the cell as a number and render its integer part,
    truncating any fractional component toward zero, and pass the raw text
    through unchanged if unparsable.  A number is read here as an optional
    sign, decimal digits and an optional fraction. *)
Definition spec_TryConvInt64 (s : string) : string :=
  let '(neg, body) :=
    match s with
    | String c s' =>
        if Ascii.eqb c "-" then (true, s')
        else if Ascii.eqb c "+" then (false, s')
        else (false, s)
    | EmptyString => (false, s)
    end in
  match Split body "." with
  | [whole] =>
      if all_digits whole && negb (String.eqb whole EmptyString) then
        let w := strip_zeros whole in
        if String.eqb w EmptyString then "0"
        else if neg then String "-" w else w
      else s
  | [whole; frac] =>
      if all_digits whole && all_digits frac
         && negb (String.eqb (whole ++ frac) EmptyString) then
        let w := strip_zeros whole in
        if String.eqb w EmptyString then "0"
        else if neg then String "-" w else w
      else s
  | _ => s
  end.

(** Modelled from the spec: [base.IsValidType] is not under [src/]; the
    spec lists the types bool, int, float, double, string, timestamp and
    date-timestamp:FORMAT. *)
Definition spec_IsValidType (t : string) : bool :=
  existsb (String.eqb t) ["bool"; "int"; "float"; "double"; "string"; "timestamp"]
  || HasPrefix t "date-timestamp:".

Fixpoint last_slash (s : string) (pos : nat) (found : option nat) : option nat :=
  match s with
  | EmptyString => found
  | String c s' =>
      last_slash s' (S pos) (if Ascii.eqb c "/" then Some pos else found)
  end.

Definition clean_Dir (p : string) : string :=
  match last_slash p 0 None with
  | None => "."
  | Some O => "/"
  | Some n => substring 0 n p
  end.

Definition clean_Base (p : string) : string :=
  match last_slash p 0 None with
  | None => p
  | Some n => substring (S n) (String.length p - S n) p
  end.

Definition clean_Join (elems : list string) : string :=
  Join (filter (fun e => negb (String.eqb e EmptyString)) elems) "/".

Definition reference_runtime (fs : list string) (decoded : result YAMLConfig)
  : Runtime := {|
  ToLower := ascii_ToLower;
  Quote := ascii_Quote;
  TryConvInt64 := spec_TryConvInt64;
  (* time parsing is not modelled: the conversion is kept as the text
     timestamp(cell,format), which shows the two arguments it is given *)
  TryConvDateTimestamp := fun cell format =>
    "timestamp(" ++ cell ++ "," ++ format ++ ")";
  IsValidType := spec_IsValidType;
  PathExists := fun p => existsb (String.eqb p) fs;
  PathFileList := fun p => [p];
  filepath_Abs := fun p => Success p;
  filepath_Dir := clean_Dir;
  filepath_Base := clean_Base;
  filepath_Join := clean_Join;
  ioutil_ReadFile := fun name =>
    if existsb (String.eqb name) fs then Success name
    else Failure "no such file or directory";
  yaml_Unmarshal := fun _ => decoded
|}.

(** The runtime of the evaluations that touch no file. *)
Definition rt0 : Runtime := reference_runtime [] (Failure "no input").

(** ** Vocabulary of the statements *)

(** [s[i]] when position [i] exists. *)
Definition cell {A} (s : list A) (i : Z) : option A :=
  if i <? 0 then None else nth_error s (Z.to_nat i).

(** The value of an optional setting after resolution: the given one, or
    the default. *)
Definition or_default {A} (given : option A) (d : A) : A :=
  match given with
  | Some a => a
  | None => d
  end.

(** No byte of [s] is [c]. *)
Fixpoint free_of (c : ascii) (s : string) : Prop :=
  match s with
  | EmptyString => True
  | String a s' => a <> c /\ free_of c s'
  end.

(** The run [c] neither reads nor writes the log, and ends in [o]. *)
Definition runs_to {A} (c : M A) (o : outcome A) : Prop :=
  forall l, c l = (o, l).




Section Vocabulary.
Context {rt : Runtime}.

(** The prop entry [op] is present and its value on [record] is [s]. *)
Definition formats_to (record : base_Record) (op : option PropT) (s : string) : Prop :=
  exists p, op = Some p /\ runs_to (Prop_FormatValue p record) (Val s).

(** The tag entry [ot] is present and [cells] are the values of its props
    on [record], in their declared order. *)
Definition tag_cells (record : base_Record) (ot : option Tag) (cells : list string)
    : Prop :=
  exists t, ot = Some t /\ Forall2 (formats_to record) (Tag_Props t) cells.

(** The text of a VID read from the cell [c]: [generator(quoted cell)], or
    the cell through [TryConvInt64]. *)
Definition rendered_vid (v : VID) (c : string) : string :=
  match VID_Function v with
  | Some f => f ++ "(" ++ Quote c ++ ")"
  | None => TryConvInt64 c
  end.

(** The error of [Prop.FormatValue] for the index [i] on [record]. *)
Definition out_of_range_error (i : Z) (record : base_Record) : string :=
  "Prop index " ++ itoa i ++ " out range " ++ itoa (len record)
  ++ " of record([" ++ Join record " " ++ "])".

(** The entry [Tag.FormatValues] logs before the process exits. *)
Definition fatal_entry (t : Tag) (err : string) : entry :=
  mkEntry FATAL "tag: %v, error: %v" [TagValue t; Shown (AStr err)].

(** The rank segment of an edge statement: [@] and the rank cell when the
    edge declares a rank column, nothing otherwise. *)
Definition rank_segment (e : Edge) (record : base_Record) : option string :=
  match Edge_Rank e with
  | Some r =>
      match Rank_Index r with
      | Some i => option_map (fun c => "@" ++ c) (cell record i)
      | None => Some EmptyString
      end
  | None => Some EmptyString
  end.

(** The statement of one row [dst#value...] of the first prop cell. *)
Definition edge_row_statement (srcVID rank row : string) : string :=
  " " ++ srcVID ++ "->" ++ TryConvInt64 (nth 0 (Split row "#") EmptyString)
  ++ rank ++ ":(" ++ nth 1 (Split row "#") EmptyString ++ ") ".

(** The client settings [n'] are [n] with every absent optional setting
    filled with its default and every present one kept. *)
Definition settings_resolved (n n' : NebulaClientSettings) : Prop :=
  NCS_Retry n' = Some (or_default (NCS_Retry n) 1)
  /\ NCS_Concurrency n' = Some (or_default (NCS_Concurrency n) 10)
  /\ NCS_ChannelBufferSize n' = Some (or_default (NCS_ChannelBufferSize n) 128)
  /\ NCS_Space n <> None /\ NCS_Space n' = NCS_Space n
  /\ exists c c',
       NCS_Connection n = Some c /\ NCS_Connection n' = Some c'
       /\ Conn_Address c' = Some (or_default (Conn_Address c) "127.0.0.1:3699")
       /\ Conn_User c' = Some (or_default (Conn_User c) "user")
       /\ Conn_Password c' = Some (or_default (Conn_Password c) "password").

(** The file entry [fe'] is the entry [fe] resolved: both are present, the
    path and the schema were given, and batchSize and inOrder are the
    given ones or their defaults. *)
Definition file_resolved (fe fe' : option File) : Prop :=
  exists f f',
    fe = Some f /\ fe' = Some f'
    /\ File_Path f <> None /\ File_Schema f <> None
    /\ File_BatchSize f' = Some (or_default (File_BatchSize f) 128)
    /\ File_InOrder f' = Some (or_default (File_InOrder f) false).

(** The run of [c] from the log [l] returns a non-nil error. *)
Definition returns_error {A} (c : M A) (l : Log) : Prop :=
  exists e l', c l = (Err e, l').

(** *** Raw schemas that resolution accepts *)

(** A prop entry resolution accepts: its type is given and valid, and its
    index, when given, is not negative. *)
Definition valid_prop (p : PropT) : Prop :=
  (exists t, Prop_Type p = Some t /\ IsValidType (ToLower t) = true)
  /\ (forall i, Prop_Index p = Some i -> 0 <= i).

(** Every entry of the list that is present is accepted; a nil entry is
    allowed. *)
Definition valid_props (ps : list (option PropT)) : Prop :=
  Forall (fun op => forall p, op = Some p -> valid_prop p) ps.

Definition valid_function (f : string) : Prop :=
  ToLower f = EmptyString \/ ToLower f = "hash" \/ ToLower f = "uuid".

Definition valid_VID (v : VID) : Prop :=
  (forall i, VID_Index v = Some i -> 0 <= i)
  /\ (forall f, VID_Function v = Some f -> valid_function f).

(** A VID that resolution rejects: a negative index or an unsupported
    generator. *)
Definition bad_VID (v : VID) : Prop :=
  (exists i, VID_Index v = Some i /\ i < 0)
  \/ (exists f, VID_Function v = Some f /\ ~ valid_function f).

Definition valid_tag (t : Tag) : Prop :=
  Tag_Name t <> None /\ valid_props (Tag_Props t).

Definition valid_vertex (v : Vertex) : Prop :=
  (forall vid, Vertex_VID v = Some vid -> valid_VID vid)
  /\ Forall (fun ot => forall t, ot = Some t -> valid_tag t) (Vertex_Tags v).

Definition valid_edge (e : Edge) : Prop :=
  Edge_Name e <> None
  /\ (forall v, Edge_SrcVID e = Some v -> valid_VID v)
  /\ (forall v, Edge_DstVID e = Some v -> valid_VID v)
  /\ (forall r i, Edge_Rank e = Some r -> Rank_Index r = Some i -> 0 <= i)
  /\ valid_props (Edge_Props e).

(** *** The column assignment in the words of the specification *)

Definition vid_index (v : option VID) : option Z :=
  match v with
  | Some v => VID_Index v
  | None => None
  end.

Definition rank_index (r : option Rank) : option Z :=
  match r with
  | Some r => Rank_Index r
  | None => None
  end.

(** Ranking is requested by a rank entry or by [withRanking: true]. *)
Definition ranking_requested (e : Edge) : bool :=
  match Edge_Rank e, Edge_WithRanking e with
  | Some _, _ => true
  | None, Some true => true
  | None, _ => false
  end.

(** The props of a vertex across its tags, in declaration order. *)
Definition all_props (tags : list (option Tag)) : list (option PropT) :=
  flat_map (fun ot => match ot with
                      | Some t => Tag_Props t
                      | None => []
                      end) tags.

(** A prop after resolution, [d] being the column of its position. *)
Definition resolved_prop (d : Z) (p : PropT) : PropT :=
  mkProp (Prop_Name p) (option_map ToLower (Prop_Type p))
    (Some (or_default (Prop_Index p) d)).

(** A list of props after resolution, the first position being column [d]. *)
Fixpoint resolved_props (d : Z) (ps : list (option PropT)) : list (option PropT) :=
  match ps with
  | [] => []
  | op :: rest => option_map (resolved_prop d) op :: resolved_props (d + 1) rest
  end.

(** The tags of a vertex after resolution, the first free column being [j]. *)
Fixpoint resolved_tags (j : Z) (tags : list (option Tag)) : list (option Tag) :=
  match tags with
  | [] => []
  | Some t :: rest =>
      Some (mkTag (Tag_Name t) (resolved_props j (Tag_Props t)))
      :: resolved_tags (j + len (Tag_Props t)) rest
  | None :: rest => None :: resolved_tags j rest
  end.

(** An edge that resolution rejects before it reaches the props: no name,
    a rejected source or destination VID, or a negative rank index. *)
Definition rejected_edge (e : Edge) : Prop :=
  Edge_Name e = None
  \/ (exists v, Edge_SrcVID e = Some v /\ bad_VID v)
  \/ (exists v, Edge_DstVID e = Some v /\ bad_VID v)
  \/ (exists r i, Edge_Rank e = Some r /\ Rank_Index r = Some i /\ i < 0).

(** The entry [Prop.validateAndReset] logs for a negative index before the
    process exits. *)
Definition negative_index_entry (i : Z) (name ty : string) : entry :=
  mkEntry FATAL "Invalid prop index: %d, name: %s, type: %s"
    [Shown (AInt i); Shown (AStr name); Shown (AStr ty)].

(** A prop whose type is given and not valid. *)
Definition unknown_type (p : PropT) : Prop :=
  exists t, Prop_Type p = Some t /\ IsValidType (ToLower t) = false.

(** A named prop of valid type [ty] whose given index [i] is negative. *)
Definition negative_index (p : PropT) (i : Z) (name ty : string) : Prop :=
  Prop_Type p = Some ty /\ IsValidType (ToLower ty) = true
  /\ Prop_Name p = Some name /\ Prop_Index p = Some i /\ i < 0.

(** [p] is in the list and every entry before it is accepted. *)
Definition first_unaccepted (ps : list (option PropT)) (p : PropT) : Prop :=
  exists before after, ps = (before ++ Some p :: after)%list /\ valid_props before.

(** [t] is in the list, every tag before it is accepted, and [p] is the
    first prop of [t] that is not. *)
Definition first_unaccepted_tag (tags : list (option Tag)) (t : Tag) (p : PropT)
    : Prop :=
  exists tsbefore tsafter,
    tags = (tsbefore ++ Some t :: tsafter)%list
    /\ Forall (fun ot => forall t, ot = Some t -> valid_tag t) tsbefore
    /\ first_unaccepted (Tag_Props t) p.

(** The part of an edge resolved before its props is accepted. *)
Definition valid_edge_head (e : Edge) : Prop :=
  Edge_Name e <> None
  /\ (forall v, Edge_SrcVID e = Some v -> valid_VID v)
  /\ (forall v, Edge_DstVID e = Some v -> valid_VID v)
  /\ (forall r i, Edge_Rank e = Some r -> Rank_Index r = Some i -> 0 <= i).

(** The run of [c] from [l] ends the process, the last log entry being [x]. *)
Definition exits_with {A} (c : M A) (l : Log) (x : entry) : Prop :=
  exists l', c l = (Exit, (l' ++ [x])%list).

End Vocabulary.

(** ** Concrete inputs *)

(** [s] between two double quotes. *)
Definition quoted (s : string) : string :=
  String dquote (s ++ String dquote EmptyString).

(** The vertex of the compile scenario: VID at 0 without generator, one tag
    student with name:string at 1 and age:int at 2. *)
Definition scenario_vertex : Vertex :=
  mkVertex (Some (mkVID (Some 0) None))
    [Some (mkTag (Some "student")
             [Some (mkProp (Some "name") (Some "string") (Some 1));
              Some (mkProp (Some "age") (Some "int") (Some 2))])].

(** The edge of the compile scenario: SrcVID at 0 with hash, DstVID at 1,
    Rank at 2, likeness:double at 3. *)
Definition scenario_edge : Edge :=
  mkEdge (Some "follow") None
    [Some (mkProp (Some "likeness") (Some "double") (Some 3))]
    (Some (mkVID (Some 0) (Some "hash")))
    (Some (mkVID (Some 1) None))
    (Some (mkRank (Some 2))).

(** The tag of the out-of-range scenario: a prop at index 5. *)
Definition far_prop : PropT := mkProp (Some "age") (Some "int") (Some 5).

Definition far_tag : Tag := mkTag (Some "student") [Some far_prop].

Definition far_vertex : Vertex :=
  mkVertex (Some (mkVID (Some 0) None)) [Some far_tag].

(** A vertex whose VID column is beyond a record of two cells. *)
Definition far_vid_vertex : Vertex :=
  mkVertex (Some (mkVID (Some 7) None)) [].

(** A raw vertex with no index given, a nil prop and a nil tag. *)
Definition raw_vertex : Vertex :=
  mkVertex None
    [Some (mkTag (Some "student")
             [Some (mkProp (Some "name") (Some "STRING") None);
              None;
              Some (mkProp (Some "age") (Some "int") None)]);
     None;
     Some (mkTag (Some "course")
             [Some (mkProp (Some "credits") (Some "int") (Some 9));
              Some (mkProp (Some "title") (Some "string") None)])].

(** A raw edge with no index given and ranking requested. *)
Definition raw_edge : Edge :=
  mkEdge (Some "follow") (Some true)
    [Some (mkProp (Some "likeness") (Some "double") None);
     Some (mkProp (Some "since") (Some "int") None)]
    None None None.

(** A raw vertex schema whose second prop is given the index -1. *)
Definition negative_prop_schema : Schema :=
  mkSchema (Some "vertex") None
    (Some (mkVertex None
             [Some (mkTag (Some "student")
                      [Some (mkProp (Some "name") (Some "string") None);
                       Some (mkProp (Some "age") (Some "int") (Some (-1)))])])).

(** A schema of type edge without an edge body. *)
Definition bodiless_schema : Schema := mkSchema (Some "edge") None None.

(** A schema without a type discriminator. *)
Definition untyped_schema : Schema := mkSchema None None None.





(** A file system with one data file, and a configuration that names it
    by a path relative to the directory of the configuration file. *)
Definition one_file_fs : list string := ["/conf/importer.yaml"; "/conf/student.csv"].

Definition student_file : File :=
  mkFile [] (Some "student.csv") None None None None (Some "csv") None
    (Some (mkSchema (Some "vertex") None (Some scenario_vertex))).

Definition student_config : YAMLConfig :=
  mkYAMLConfig (Some "v0") None
    (Some (mkSettings None (Some 4) None (Some "test")
             (Some (mkConnection None None None))))
    None [Some student_file].

(** A file entry with neither type nor schema. *)
Definition typeless_file : File :=
  mkFile [] (Some "/conf/student.csv") None None None None None None None.

Definition typeless_config : YAMLConfig :=
  mkYAMLConfig None None
    (Some (mkSettings None None None (Some "test")
             (Some (mkConnection None None None))))
    None [Some typeless_file].

(** The runtime over [one_file_fs] whose decoder returns [student_config],
    and the one whose decoder returns [typeless_config]. *)
Definition rt_student : Runtime :=
  reference_runtime one_file_fs (Success student_config).

Definition rt_typeless : Runtime :=
  reference_runtime one_file_fs (Success typeless_config).

(** ** A reference for the header labels, and further inputs *)

Definition upper_byte (c : ascii) : ascii :=
  let n := nat_of_ascii c in
  if ((97 <=? n) && (n <=? 122))%nat then ascii_of_nat (n - 32) else c.

Fixpoint ascii_ToUpper (s : string) : string :=
  match s with
  | EmptyString => EmptyString
  | String c s' => String (upper_byte c) (ascii_ToUpper s')
  end.

(** The labels as the README writes them in a header line,
    [strings.ToUpper] on ASCII text, and the limit of [make] on 64-bit
    Linux. *)
Definition hd0 : HeaderRuntime := {|
  LABEL_VID := ":VID";
  LABEL_SRC_VID := ":SRC_VID";
  LABEL_DST_VID := ":DST_VID";
  LABEL_RANK := ":RANK";
  LABEL_IGNORE := ":IGNORE";
  ToUpper := ascii_ToUpper;
  make_limit := 2 ^ 44
|}.

(** The client settings of [student_config]. *)
Definition student_settings : NebulaClientSettings :=
  mkSettings None (Some 4) None (Some "test")
    (Some (mkConnection None None None)).

(** A file entry of a type other than csv. *)
Definition json_file : File :=
  mkFile [] (Some "/conf/student.csv") None None None None (Some "json") None
    (Some (mkSchema (Some "vertex") None (Some scenario_vertex))).

(** A prop at a negative index, and a date prop without a format. *)
Definition negative_prop : PropT := mkProp (Some "age") (Some "int") (Some (-1)).

Definition formatless_prop : PropT :=
  mkProp (Some "day") (Some "date-timestamp") (Some 0).

(** A date prop whose format is written in upper case. *)
Definition upper_format_prop : PropT :=
  mkProp (Some "day") (Some "date-timestamp:YYYY") None.

(** A record for [scenario_edge] whose prop cell holds two rows, the
    second without a timestamp. *)
Definition short_row_record : base_Record := ["a"; "b"; "7"; "x#1&y"].

(** A record of ten cells. *)
Definition ten_cells : base_Record :=
  ["101"; "Mary"; "x"; "19"; "4"; "5"; "6"; "7"; "8"; "3"].

(** A resolved vertex whose second tag has no props. *)
Definition empty_tag_vertex : Vertex :=
  mkVertex (Some (mkVID (Some 0) None))
    [Some (mkTag (Some "student")
             [Some (mkProp (Some "name") (Some "string") (Some 1))]);
     Some (mkTag (Some "alumnus") [])].

(** A resolved vertex whose VID generator is the empty string. *)
Definition nameless_generator_vertex : Vertex :=
  mkVertex (Some (mkVID (Some 0) (Some EmptyString))) [].

(** The edge [choose] of the README: no index given, one prop. *)
Definition readme_edge : Edge :=
  mkEdge (Some "choose") (Some false)
    [Some (mkProp (Some "grade") (Some "int") None)] None None None.

(** A raw edge without props. *)
Definition propless_edge : Edge := mkEdge (Some "follow") None [] None None None.

(** A raw vertex whose second tag has no name. *)
Definition unnamed_tag_vertex : Vertex :=
  mkVertex None [Some (mkTag (Some "student") []); Some (mkTag None [])].

(** A raw vertex that leaves every column to the default. *)
Definition default_vertex : Vertex :=
  mkVertex None
    [Some (mkTag (Some "student")
             [Some (mkProp (Some "name") (Some "STRING") None);
              Some (mkProp (Some "age") (Some "int") None)]);
     Some (mkTag (Some "course")
             [Some (mkProp (Some "credits") (Some "int") None)])].

(** ** Vocabulary of the further statements *)

(** Every field of the client settings that later code dereferences is
    set. *)
Definition populated_settings (n : NebulaClientSettings) : Prop :=
  NCS_Retry n <> None /\ NCS_Concurrency n <> None
  /\ NCS_ChannelBufferSize n <> None /\ NCS_Space n <> None
  /\ exists c, NCS_Connection n = Some c
       /\ Conn_User c <> None /\ Conn_Password c <> None
       /\ Conn_Address c <> None.

(** The file entry is present and its path, failDataPath, batchSize,
    inOrder, type and schema are set. *)
Definition populated_file (fe : option File) : Prop :=
  exists f, fe = Some f
    /\ File_Path f <> None /\ File_FailDataPath f <> None
    /\ File_BatchSize f <> None /\ File_InOrder f <> None
    /\ File_Type f <> None /\ File_Schema f <> None.

Definition populated_config (c : YAMLConfig) : Prop :=
  (exists n, Cfg_NebulaClientSettings c = Some n /\ populated_settings n)
  /\ Cfg_LogPath c <> None
  /\ Cfg_Files c <> []
  /\ Forall populated_file (Cfg_Files c).

(** The run of [c] from [l] panics. *)
Definition panics {A} (c : M A) (l : Log) : Prop :=
  exists p l', c l = (Panic p, l').

(** The value of an optional field, as a list of at most one element. *)
Definition present {A} (o : option A) : list A :=
  match o with
  | Some a => [a]
  | None => []
  end.

(** The indices given by the props of a list, nil entries skipped. *)
Definition prop_indices (ps : list (option PropT)) : list Z :=
  flat_map (fun op => match op with
                      | Some p => present (Prop_Index p)
                      | None => []
                      end) ps.

(** All the column indices an edge, or a vertex, holds. *)
Definition edge_indices (e : Edge) : list Z :=
  (present (vid_index (Edge_SrcVID e)) ++ present (vid_index (Edge_DstVID e))
   ++ present (rank_index (Edge_Rank e)) ++ prop_indices (Edge_Props e))%list.

Definition vertex_indices (v : Vertex) : list Z :=
  (present (vid_index (Vertex_VID v)) ++ prop_indices (all_props (Vertex_Tags v)))%list.

(** The largest [int]: below it, [maxIndex() + 1] does not wrap around. *)
Definition max_index_bound : Z := 2 ^ 63 - 1.

(** A prop that [String] can label under the name [owner] of its edge or
    tag: when it holds a column index, the owner's name, the prop's name
    and the prop's type are all present. *)
Definition labelled_prop (owner : option string) (p : PropT) : Prop :=
  Prop_Index p <> None ->
  owner <> None /\ Prop_Name p <> None /\ Prop_Type p <> None.

(** An edge whose props are all present and can be labelled. *)
Definition printable_edge (e : Edge) : Prop :=
  Forall (fun op => exists p, op = Some p /\ labelled_prop (Edge_Name e) p)
    (Edge_Props e).

(** The props of a tag that are present can be labelled. *)
Definition printable_tag (t : Tag) : Prop :=
  Forall (fun op => forall p, op = Some p -> labelled_prop (Tag_Name t) p)
    (Tag_Props t).

(** A vertex whose tags are all present and can be labelled. *)
Definition printable_vertex (v : Vertex) : Prop :=
  Forall (fun ot => exists t, ot = Some t /\ printable_tag t) (Vertex_Tags v).

Section CompileVocabulary.
Context {rt : Runtime}.

(** A prop entry that [record] covers: the entry is present, its column
    index lies within the record, and its type is given, a
    date-timestamp type together with its format after a colon. *)
Definition covered_prop (record : base_Record) (op : option PropT) : Prop :=
  exists p i r t,
    op = Some p /\ Prop_Index p = Some i /\ cell record i = Some r
    /\ Prop_Type p = Some t
    /\ (HasPrefix (ToLower t) "date-timestamp" = true ->
        (2 <= List.length (Split t ":"))%nat).

Definition covered_tag (record : base_Record) (ot : option Tag) : Prop :=
  exists t, ot = Some t /\ Forall (covered_prop record) (Tag_Props t).

(** No tag entry and no prop entry of the tags is nil. *)
Definition no_nil_entry (tags : list (option Tag)) : Prop :=
  Forall (fun ot => exists t, ot = Some t
                              /\ Forall (fun op => op <> None) (Tag_Props t)) tags.

(** A date-timestamp type holds its format: the type has a colon. *)
Definition dated_prop (op : option PropT) : Prop :=
  forall p t, op = Some p -> Prop_Type p = Some t ->
    HasPrefix (ToLower t) "date-timestamp" = true ->
    (2 <= List.length (Split t ":"))%nat.

(** A vertex that [record] can be compiled with: no tag or prop entry is
    nil, the cells of the record cover every declared column index, the
    generator of the VID, when one is given, is not the empty string, and
    every date-timestamp type holds its format. *)
Definition compilable_vertex (record : base_Record) (v : Vertex) : Prop :=
  no_nil_entry (Vertex_Tags v)
  /\ Forall (fun i => i < len record) (vertex_indices v)
  /\ (forall vid, Vertex_VID v = Some vid -> VID_Function vid <> Some EmptyString)
  /\ Forall dated_prop (all_props (Vertex_Tags v)).

(** Every tag has at least one prop. *)
Definition no_empty_tag (tags : list (option Tag)) : Prop :=
  Forall (fun ot => forall t, ot = Some t -> Tag_Props t <> []) tags.

End CompileVocabulary.

(** *** Numbers and quoted text in the words of the specification *)











Section HeaderVocabulary.
Context {rt : Runtime} {hd : HeaderRuntime}.

(** A prop entry as a schema leaves it to the default layout: present,
    named, and without an index of its own. *)
Definition default_prop (op : option PropT) : Prop :=
  exists p, op = Some p /\ Prop_Name p <> None /\ Prop_Index p = None.

(** A tag entry as a schema leaves it to the default layout: present, its
    props left to the default layout. *)
Definition default_tag (ot : option Tag) : Prop :=
  exists t, ot = Some t /\ Forall default_prop (Tag_Props t).

(** The header cell of a VID column: the label, and the function around
    it when the entry gives one. *)
Definition vid_label (v : option VID) (label : string) : string :=
  match v with
  | Some v => VID_String v label
  | None => label
  end.

(** The header cell of a prop column: [owner.name:type], the type in
    lower case. *)
Definition prop_label (owner : string) (op : option PropT) : string :=
  match op with
  | Some p =>
      owner ++ "." ++ or_default (Prop_Name p) EmptyString ++ ":"
      ++ ToLower (or_default (Prop_Type p) EmptyString)
  | None => EmptyString
  end.

(** The header cells of the props of a tag. *)
Definition tag_labels (ot : option Tag) : list string :=
  match ot with
  | Some t => map (prop_label (or_default (Tag_Name t) EmptyString)) (Tag_Props t)
  | None => []
  end.

(** The header line of an edge in the default layout: source, destination,
    the rank when ranking is requested, then the props in their order. *)
Definition edge_header (e : Edge) : string :=
  Join ([vid_label (Edge_SrcVID e) LABEL_SRC_VID;
         vid_label (Edge_DstVID e) LABEL_DST_VID]
        ++ (if ranking_requested e then [LABEL_RANK] else [])
        ++ map (prop_label (or_default (Edge_Name e) EmptyString)) (Edge_Props e))%list
    ",".

(** The header line of a vertex in the default layout: the VID, then the
    props of each tag in their order. *)
Definition vertex_header (v : Vertex) : string :=
  Join (vid_label (Vertex_VID v) LABEL_VID :: flat_map tag_labels (Vertex_Tags v)) ",".

End HeaderVocabulary.

(** * Properties *)

Section Properties.
Context {rt : Runtime}.

(** ** Slices and strings *)

Lemma cell_len {A} (s : list A) (i : Z) (a : A) :
  cell s i = Some a -> 0 <= i < len s.
Proof.
  unfold cell, len. destruct (Z.ltb_spec i 0) as [Hneg | Hpos]; [discriminate |].
  intros H. assert (Z.to_nat i < List.length s)%nat.
  { apply nth_error_Some. congruence. }
  lia.
Qed.

Lemma at_index_cell {A} (s : list A) (i : Z) (a : A) :
  cell s i = Some a -> runs_to (at_index s i) (Val a).
Proof.
  intros H l. pose proof (cell_len _ _ _ H) as [Hlo Hhi].
  unfold at_index. unfold cell in H.
  destruct (Z.ltb_spec i 0); [lia |].
  destruct (Z.leb_spec (len s) i); [lia |].
  cbn. rewrite H. reflexivity.
Qed.

Lemma append_empty (s : string) : s ++ EmptyString = s.
Proof. induction s as [| a s IH]; cbn; [reflexivity | now rewrite IH]. Qed.

Lemma append_assoc (s1 s2 s3 : string) : (s1 ++ s2) ++ s3 = s1 ++ (s2 ++ s3).
Proof. induction s1 as [| a s1 IH]; cbn; [reflexivity | now rewrite IH]. Qed.

Lemma prefix_one (c a : ascii) (s : string) :
  String.prefix (String c EmptyString) (String a s) = Ascii.eqb c a.
Proof.
  cbn. destruct (ascii_dec c a) as [-> | Hne].
  - rewrite Ascii.eqb_refl. destruct s; reflexivity.
  - apply Ascii.eqb_neq in Hne. rewrite Hne. reflexivity.
Qed.

(** A piece that holds no separator byte is read to its end. *)
Lemma Split_from_free (c : ascii) (s cur : string) :
  free_of c s ->
  Split_from (String c EmptyString) s O cur = [cur ++ s].
Proof.
  revert cur. induction s as [| a s IH]; intros cur Hfree.
  - cbn. rewrite append_empty. reflexivity. 
  - destruct Hfree as [Hne Hfree].
    change (Split_from (String c EmptyString) (String a s) 0 cur)
      with (if String.prefix (String c EmptyString) (String a s)
            then cur :: Split_from (String c EmptyString) s 0 EmptyString
            else Split_from (String c EmptyString) s 0 (cur ++ String a EmptyString)).
    rewrite prefix_one.
    assert (Hca : Ascii.eqb c a = false) by (apply Ascii.eqb_neq; congruence).
    rewrite Hca, IH by assumption.
    rewrite append_assoc. reflexivity.
Qed.

Lemma Split_from_first (c : ascii) (pre rest cur : string) :
  free_of c pre ->
  Split_from (String c EmptyString) (pre ++ String c rest) O cur
  = (cur ++ pre) :: Split_from (String c EmptyString) rest O EmptyString.
Proof.
  revert cur. induction pre as [| a pre IH]; intros cur Hfree.
  - cbn [String.append].
    change (Split_from (String c EmptyString) (String c rest) 0 cur)
      with (if String.prefix (String c EmptyString) (String c rest)
            then cur :: Split_from (String c EmptyString) rest 0 EmptyString
            else Split_from (String c EmptyString) rest 0 (cur ++ String c EmptyString)).
    rewrite prefix_one, Ascii.eqb_refl, append_empty. reflexivity.
  - destruct Hfree as [Hne Hfree]. cbn [String.append].
    change (Split_from (String c EmptyString) (String a (pre ++ String c rest)) 0 cur)
      with (if String.prefix (String c EmptyString) (String a (pre ++ String c rest))
            then cur :: Split_from (String c EmptyString) (pre ++ String c rest) 0 EmptyString
            else Split_from (String c EmptyString) (pre ++ String c rest) 0
                   (cur ++ String a EmptyString)).
    rewrite prefix_one.
    assert (Hca : Ascii.eqb c a = false) by (apply Ascii.eqb_neq; congruence).
    rewrite Hca, IH by assumption.
    rewrite append_assoc. reflexivity.
Qed.

(** [strings.Split] of [pre:format] at the colon, when neither part holds
    one. *)
Lemma Split_two (c : ascii) (pre post : string) :
  free_of c pre -> free_of c post ->
  Split (pre ++ String c post) (String c EmptyString) = [pre; post].
Proof.
  intros Hpre Hpost. unfold Split.
  rewrite Split_from_first by assumption.
  rewrite Split_from_free by assumption. reflexivity.
Qed.

(** ** The value of one prop *)

Lemma cell_exists {A} (s : list A) (i : Z) :
  0 <= i < len s -> exists a, cell s i = Some a.
Proof.
  intros H. unfold cell. destruct (Z.ltb_spec i 0); [lia |].
  destruct (nth_error s (Z.to_nat i)) as [a |] eqn:E; [exists a; reflexivity |].
  apply nth_error_None in E. unfold len in H. lia.
Qed.

Lemma prop_indices_app (a b : list (option PropT)) :
  prop_indices (a ++ b) = (prop_indices a ++ prop_indices b)%list.
Proof. unfold prop_indices. apply flat_map_app. Qed.

Lemma cell_in_range {A} (s : list A) (i : Z) (a : A) :
  cell s i = Some a -> (len s <=? i) = false.
Proof. intros H. apply cell_len in H. apply Z.leb_gt. lia. Qed.

Lemma Prop_FormatValue_read (p : PropT) (record : base_Record) (i : Z)
    (r t : string) (l : Log) :
  Prop_Index p = Some i -> cell record i = Some r -> Prop_Type p = Some t ->
  Prop_FormatValue p record l =
    if String.eqb (ToLower t) "string" then (Val (Quote r), l)
    else if String.eqb (ToLower t) "int" then (Val (TryConvInt64 r), l)
    else if HasPrefix (ToLower t) "date-timestamp" then
      (format <- at_index (Split t ":") 1 ;; ret (TryConvDateTimestamp r format)) l
    else (Val r, l).
Proof.
  intros Hi Hc Ht. unfold Prop_FormatValue.
  rewrite Hi, (cell_in_range _ _ _ Hc).
  unfold bind at 1. cbn [deref ret].
  unfold bind at 1. rewrite (at_index_cell _ _ _ Hc l).
  unfold Prop_IsStringType, Prop_IsIntType, Prop_IsDateTimestampType.
  rewrite Ht. cbv [bind ret deref].
  destruct (String.eqb (ToLower t) "string").
  - cbn. rewrite append_empty. reflexivity.
  - destruct (String.eqb (ToLower t) "int"); [reflexivity |].
    destruct (HasPrefix (ToLower t) "date-timestamp"); reflexivity.
Qed.

(** *** Numerals *)




























Lemma Join_app (a b : list string) (sep : string) :
  a <> [] -> b <> [] ->
  Join (a ++ b) sep = Join a sep ++ sep ++ Join b sep.
Proof.
  unfold Join. induction a as [| x a IH]; intros Ha Hb; [contradiction |].
  destruct a as [| y a].
  - destruct b; [contradiction | reflexivity].
  - change ((x :: y :: a) ++ b)%list with (x :: (y :: a) ++ b)%list.
    change (String.concat sep (x :: (y :: a) ++ b)%list)
      with (x ++ sep ++ String.concat sep ((y :: a) ++ b)%list).
    rewrite IH by (assumption || discriminate).
    change (String.concat sep (x :: y :: a))
      with (x ++ sep ++ String.concat sep (y :: a)).
    rewrite !append_assoc. reflexivity.
Qed.

(** Joining per tag and then across tags is joining the flat list, when
    no tag is without props. *)
Lemma Join_concat (cells : list (list string)) (sep : string) :
  Forall (fun cs => cs <> []) cells ->
  Join (map (fun cs => Join cs sep) cells) sep = Join (List.concat cells) sep.
Proof.
  induction 1 as [| cs rest Hcs Hrest IH]; [reflexivity |].
  destruct rest as [| cs' rest].
  - cbn [map List.concat]. rewrite app_nil_r. reflexivity.
  - change (List.concat (cs :: cs' :: rest))
      with (cs ++ List.concat (cs' :: rest))%list.
    rewrite Join_app.
    + rewrite <- IH. reflexivity.
    + assumption.
    + inversion Hrest as [| ? ? Hcs' _]; subst. cbn [List.concat].
      destruct cs'; [contradiction | discriminate].
Qed.

Lemma Prop_FormatValue_out_of_range (p : PropT) (record : base_Record) (i : Z) :
  Prop_Index p = Some i -> len record <= i ->
  runs_to (Prop_FormatValue p record) (Err (out_of_range_error i record)).
Proof.
  intros Hi Hlen l. unfold Prop_FormatValue. rewrite Hi.
  assert (E : (len record <=? i) = true) by (apply Z.leb_le; assumption).
  rewrite E. cbv [bind deref ret fail fmt_Errorf]. f_equal. f_equal.
  unfold out_of_range_error. cbn. rewrite ?append_assoc. reflexivity.
Qed.

Lemma Tag_FormatValues_range_ok (t : Tag) (record : base_Record)
    (props : list (option PropT)) (cells : list string) :
  Forall2 (formats_to record) props cells ->
  runs_to (Tag_FormatValues_range t props record) (Val cells).
Proof.
  induction 1 as [| op s props cells (p & -> & Hp) _ IH]; intros l.
  - reflexivity.
  - cbn [Tag_FormatValues_range]. unfold bind at 1. unfold on_error.
    cbn [deref]. unfold bind at 1. cbn [ret]. rewrite (Hp l).
    unfold bind. rewrite (IH l). reflexivity.
Qed.

Lemma Tag_FormatValues_ok (t : Tag) (record : base_Record) (cells : list string) :
  Forall2 (formats_to record) (Tag_Props t) cells ->
  runs_to (Tag_FormatValues t record) (Val (Join cells ",")).
Proof.
  intros H l. unfold Tag_FormatValues, bind.
  rewrite (Tag_FormatValues_range_ok t record _ _ H l). reflexivity.
Qed.

Lemma Tag_FormatValues_range_fatal (t : Tag) (record : base_Record)
    (before after : list (option PropT)) (cells : list string) (p : PropT)
    (i : Z) (l : Log) :
  Forall2 (formats_to record) before cells ->
  Prop_Index p = Some i -> len record <= i ->
  Tag_FormatValues_range t (before ++ Some p :: after) record l
  = (Exit, (l ++ [fatal_entry t (out_of_range_error i record)])%list).
Proof.
  intros Hb Hi Hlen.
  induction Hb as [| op s before cells (q & -> & Hq) _ IH].
  - cbn [app Tag_FormatValues_range]. unfold bind at 1. unfold on_error.
    cbn [deref]. unfold bind at 1. cbn [ret].
    rewrite (Prop_FormatValue_out_of_range p record i Hi Hlen l).
    reflexivity.
  - cbn [app Tag_FormatValues_range]. unfold bind at 1. unfold on_error.
    cbn [deref]. unfold bind at 1. cbn [ret]. rewrite (Hq l).
    unfold bind at 1. rewrite IH. reflexivity.
Qed.

Lemma Vertex_FormatValues_range_ok (record : base_Record)
    (tags : list (option Tag)) (cells : list (list string)) :
  Forall2 (tag_cells record) tags cells ->
  runs_to (Vertex_FormatValues_range tags record)
    (Val (map (fun cs => Join cs ",") cells)).
Proof.
  induction 1 as [| ot cs tags cells (t & -> & Ht) _ IH]; intros l.
  - reflexivity.
  - cbn [Vertex_FormatValues_range deref map]. unfold bind at 1. cbn [ret].
    unfold bind at 1. rewrite (Tag_FormatValues_ok t record cs Ht l).
    unfold bind. rewrite (IH l). reflexivity.
Qed.

Lemma Vertex_FormatValues_range_fatal (record : base_Record)
    (tsbefore tsafter : list (option Tag)) (tcells : list (list string))
    (t : Tag) (before after : list (option PropT)) (cells : list string)
    (p : PropT) (i : Z) (l : Log) :
  Forall2 (tag_cells record) tsbefore tcells ->
  Tag_Props t = (before ++ Some p :: after)%list ->
  Forall2 (formats_to record) before cells ->
  Prop_Index p = Some i -> len record <= i ->
  Vertex_FormatValues_range (tsbefore ++ Some t :: tsafter) record l
  = (Exit, (l ++ [fatal_entry t (out_of_range_error i record)])%list).
Proof.
  intros Hts Hprops Hb Hi Hlen.
  induction Hts as [| ot cs tsbefore tcells (t' & -> & Ht') _ IH].
  - cbn [app Vertex_FormatValues_range deref]. unfold bind at 1. cbn [ret].
    unfold bind at 1. unfold Tag_FormatValues. unfold bind at 1.
    rewrite Hprops.
    rewrite (Tag_FormatValues_range_fatal t record before after cells p i l Hb Hi Hlen).
    reflexivity.
  - cbn [app Vertex_FormatValues_range deref]. unfold bind at 1. cbn [ret].
    unfold bind at 1. rewrite (Tag_FormatValues_ok t' record cs Ht' l).
    unfold bind at 1. rewrite IH. reflexivity.
Qed.

(** C2 (amended).  When the column index [i] of a prop is not below the
    length of the record, [Prop.FormatValue] returns an error whose text
    names [i] and the record length and writes nothing to the log.  A tag
    whose first prop that cannot be formatted is that one does not return
    the error: [Tag.FormatValues] logs it at the fatal level and the
    process exits, and so does [Vertex.FormatValues] for a vertex whose
    first such tag it is. *)
Theorem out_of_range_prop_is_fatal (p : PropT) (record : base_Record) (i : Z) :
  Prop_Index p = Some i -> len record <= i ->
  runs_to (Prop_FormatValue p record) (Err (out_of_range_error i record))
  /\ (forall t before after cells l,
        Tag_Props t = (before ++ Some p :: after)%list ->
        Forall2 (formats_to record) before cells ->
        Tag_FormatValues t record l
        = (Exit, (l ++ [fatal_entry t (out_of_range_error i record)])%list))
  /\ (forall v t tsbefore tsafter tcells before after cells l,
        Vertex_Tags v = (tsbefore ++ Some t :: tsafter)%list ->
        Forall2 (tag_cells record) tsbefore tcells ->
        Tag_Props t = (before ++ Some p :: after)%list ->
        Forall2 (formats_to record) before cells ->
        Vertex_FormatValues v record l
        = (Exit, (l ++ [fatal_entry t (out_of_range_error i record)])%list)).
Proof.
  intros Hi Hlen. split; [| split].
  - apply Prop_FormatValue_out_of_range; assumption.
  - intros t before after cells l Hprops Hb.
    unfold Tag_FormatValues, bind. rewrite Hprops.
    rewrite (Tag_FormatValues_range_fatal t record before after cells p i l Hb Hi Hlen).
    reflexivity.
  - intros v t tsbefore tsafter tcells before after cells l Htags Hts Hprops Hb.
    unfold Vertex_FormatValues. unfold bind at 1. rewrite Htags.
    rewrite (Vertex_FormatValues_range_fatal record tsbefore tsafter tcells t
               before after cells p i l Hts Hprops Hb Hi Hlen).
    reflexivity.
Qed.

(** The text of [Vertex.FormatValues] from the values of the props: a
    space, the VID, a colon, a space and, in parentheses, the
    comma-joined tags, each tag being the comma-joined values of its
    props; when no tag is without props this is the comma-joined flat
    list of all values. *)
Lemma Vertex_FormatValues_joined (v : Vertex) (record : base_Record)
    (vid : VID) (i : Z) (c : string) (cells : list (list string)) :
  Vertex_VID v = Some vid -> VID_Index vid = Some i -> cell record i = Some c ->
  Forall2 (tag_cells record) (Vertex_Tags v) cells ->
  runs_to (Vertex_FormatValues v record)
    (Val (" " ++ rendered_vid vid c ++ ": ("
          ++ Join (map (fun cs => Join cs ",") cells) "," ++ ")"))
  /\ (Forall (fun cs => cs <> []) cells ->
      runs_to (Vertex_FormatValues v record)
        (Val (" " ++ rendered_vid vid c ++ ": ("
              ++ Join (List.concat cells) "," ++ ")"))).
Proof.
  intros Hvid Hi Hc Htags.
  assert (Hrun : runs_to (Vertex_FormatValues v record)
            (Val (" " ++ rendered_vid vid c ++ ": ("
                  ++ Join (map (fun cs => Join cs ",") cells) "," ++ ")"))).
  { intros l. unfold Vertex_FormatValues. unfold bind at 1.
    rewrite (Vertex_FormatValues_range_ok record _ _ Htags l).
    rewrite Hvid. cbn [deref]. unfold bind at 1. cbn [ret].
    unfold rendered_vid. destruct (VID_Function vid) as [f |];
      rewrite Hi; cbn [deref]; cbv [bind ret];
      rewrite (at_index_cell _ _ _ Hc l); cbn; rewrite ?append_empty;
      reflexivity. }
  split; [exact Hrun |].
  intros Hne. rewrite <- (Join_concat cells "," Hne). exact Hrun.
Qed.

(** ** Edges on a record *)

Lemma Edge_FormatValues_range_ok (srcVID rank : string) (rows : list string) :
  Forall (fun row => (2 <= List.length (Split row "#"))%nat) rows ->
  runs_to (Edge_FormatValues_range srcVID rank rows)
    (Val (map (edge_row_statement srcVID rank) rows)).
Proof.
  induction 1 as [| row rows Hrow _ IH]; intros l; [reflexivity |].
  cbn [Edge_FormatValues_range map]. unfold edge_row_statement at 1.
  destruct (Split row "#") as [| a [| b tl]]; cbn [List.length] in Hrow; try lia.
  unfold bind at 1.
  rewrite (at_index_cell (a :: b :: tl) 0 a eq_refl l).
  cbn [set_index]. unfold bind at 1.
  rewrite (at_index_cell (TryConvInt64 a :: b :: tl) 0 _ eq_refl l).
  unfold bind at 1.
  rewrite (at_index_cell (TryConvInt64 a :: b :: tl) 1 _ eq_refl l).
  unfold bind. rewrite (IH l). cbn [ret nth]. f_equal. f_equal. f_equal.
  cbn. rewrite ?append_assoc. reflexivity.
Qed.

(** X21.  What [Edge.FormatValues] returns when it returns.  For an edge
    whose source VID cell, rank cell and first prop cell are within the
    record, the first prop cell is read as rows separated by [&], each
    row as fields separated by [#], and, when every row has two fields,
    the result is one statement per row, joined by commas.  A statement
    is a space, the source VID (the function, also the empty one, around
    the quoted cell, or else the cell through [TryConvInt64]), an arrow,
    the first field through [TryConvInt64], the rank segment, and the
    second field in parentheses after a colon, then a space.  The rank
    segment is [@] and the rank cell exactly when the edge declares a
    rank column.  The log is left as it was. *)
Theorem Edge_FormatValues_statement (e : Edge) (record : base_Record)
    (src : VID) (si : Z) (sc rank : string)
    (p0 : PropT) (others : list (option PropT)) (pi : Z) (pc : string) :
  Edge_SrcVID e = Some src -> VID_Index src = Some si -> cell record si = Some sc ->
  rank_segment e record = Some rank ->
  Edge_Props e = Some p0 :: others -> Prop_Index p0 = Some pi ->
  cell record pi = Some pc ->
  Forall (fun row => (2 <= List.length (Split row "#"))%nat) (Split pc "&") ->
  runs_to (Edge_FormatValues e record)
    (Val (Join (map (edge_row_statement (rendered_vid src sc) rank) (Split pc "&")) ",")).
Proof.
  intros Hsrc Hsi Hsc Hrank Hprops Hpi Hpc Hrows l.
  unfold Edge_FormatValues. unfold rank_segment in Hrank.
  assert (Hr : match Edge_Rank e with
               | Some r =>
                   match Rank_Index r with
                   | Some i => c <- at_index record i ;; ret (Sprintf "@%s" [AStr c])
                   | None => ret EmptyString
                   end
               | None => ret EmptyString
               end l = (Val rank, l)).
  { destruct (Edge_Rank e) as [r |]; [| inversion Hrank; reflexivity].
    destruct (Rank_Index r) as [ri |]; [| inversion Hrank; reflexivity].
    destruct (cell record ri) as [rc |] eqn:Hrc; [| discriminate].
    inversion Hrank; subst rank. unfold bind.
    rewrite (at_index_cell _ _ _ Hrc l). cbn. rewrite append_empty. reflexivity. }
  unfold bind at 1. rewrite Hr. rewrite Hsrc. cbn [deref].
  unfold bind at 1. cbn [ret].
  assert (Hv : match VID_Function src with
               | Some f =>
                   i <- deref (VID_Index src) ;;
                   c <- at_index record i ;;
                   ret (Sprintf "%s(%q)" [AStr f; AStr c])
               | None =>
                   i <- deref (VID_Index src) ;;
                   c <- at_index record i ;;
                   ret (TryConvInt64 c)
               end l = (Val (rendered_vid src sc), l)).
  { unfold rendered_vid. destruct (VID_Function src) as [f |];
      rewrite Hsi; cbn [deref]; cbv [bind ret];
      rewrite (at_index_cell _ _ _ Hsc l); cbn; rewrite ?append_empty;
      reflexivity. }
  unfold bind at 1. rewrite Hv. rewrite Hprops.
  unfold bind at 1. rewrite (at_index_cell (Some p0 :: others) 0 _ eq_refl l).
  cbn [deref]. unfold bind at 1. cbn [ret]. rewrite Hpi. cbn [deref].
  unfold bind at 1. cbn [ret]. unfold bind at 1.
  rewrite (at_index_cell _ _ _ Hpc l).
  unfold bind. rewrite (Edge_FormatValues_range_ok _ _ _ Hrows l). reflexivity.
Qed.

(** ** The compiler and the log *)


















(** ** Parse and the configuration defaults *)

Lemma bind_Val_inv {A B} (c : M A) (k : A -> M B) (l l' : Log) (b : B) :
  bind c k l = (Val b, l') ->
  exists a l1, c l = (Val a, l1) /\ k a l1 = (Val b, l').
Proof.
  unfold bind. destruct (c l) as [[a | e | | p] l1]; intros H; try discriminate.
  exists a, l1. split; [reflexivity | exact H].
Qed.

Lemma bind_Err {A B} (c : M A) (k : A -> M B) (l : Log) :
  returns_error c l -> returns_error (bind c k) l.
Proof.
  intros (e & l' & H). exists e, l'. unfold bind. rewrite H. reflexivity.
Qed.

(** C9.  Once the file is read and decoded, the version check of [Parse]
    rejects nothing: with a version present, whatever it is, the guard is
    false and [Parse] goes on to validation, so the version error is never
    returned; with the version absent the guard dereferences the nil
    pointer and [Parse] panics instead of returning an error. *)
Theorem Parse_version_check (filename content : string) (conf : YAMLConfig)
    (l : Log) :
  ioutil_ReadFile filename = Success content ->
  yaml_Unmarshal content = Success conf ->
  (forall v, Cfg_Version conf = Some v ->
     Parse_version_guard conf l = (Val false, l)
     /\ Parse filename l
        = (path <- lift (filepath_Abs (filepath_Dir filename)) ;;
           YAMLConfig_ValidateAndReset path conf) l)
  /\ (Cfg_Version conf = None ->
      Parse_version_guard conf l = (Panic NilDereference, l)
      /\ Parse filename l = (Panic NilDereference, l)).
Proof.
  intros Hread Hyaml. split.
  - intros v Hv.
    assert (Hg : Parse_version_guard conf l = (Val false, l)).
    { unfold Parse_version_guard. rewrite Hv. reflexivity. }
    split; [exact Hg |].
    unfold Parse. rewrite Hread. cbn [lift]. unfold bind at 1. cbn [ret].
    rewrite Hyaml. cbn [lift]. unfold bind at 1. cbn [ret].
    unfold bind at 1. rewrite Hg. reflexivity.
  - intros Hv.
    assert (Hg : Parse_version_guard conf l = (Panic NilDereference, l)).
    { unfold Parse_version_guard. rewrite Hv. reflexivity. }
    split; [exact Hg |].
    unfold Parse. rewrite Hread. cbn [lift]. unfold bind at 1. cbn [ret].
    rewrite Hyaml. cbn [lift]. unfold bind at 1. cbn [ret].
    unfold bind at 1. rewrite Hg. reflexivity.
Qed.

Lemma NebulaClientConnection_validateAndReset_val (prefix : string)
    (c : NebulaClientConnection) (l : Log) :
  exists l',
    NebulaClientConnection_validateAndReset prefix c l
    = (Val (mkConnection (Some (or_default (Conn_User c) "user"))
              (Some (or_default (Conn_Password c) "password"))
              (Some (or_default (Conn_Address c) "127.0.0.1:3699"))), l').
Proof.
  unfold NebulaClientConnection_validateAndReset.
  destruct (Conn_Address c), (Conn_User c), (Conn_Password c);
    cbv [bind ret logger_Warnf log_at or_default]; eexists; reflexivity.
Qed.

Lemma NebulaClientSettings_validateAndReset_val (prefix : string)
    (n : NebulaClientSettings) (c : NebulaClientConnection) (l : Log) :
  NCS_Space n <> None -> NCS_Connection n = Some c ->
  exists l',
    NebulaClientSettings_validateAndReset prefix n l
    = (Val (mkSettings (Some (or_default (NCS_Retry n) 1))
              (Some (or_default (NCS_Concurrency n) 10))
              (Some (or_default (NCS_ChannelBufferSize n) 128))
              (NCS_Space n)
              (Some (mkConnection (Some (or_default (Conn_User c) "user"))
                       (Some (or_default (Conn_Password c) "password"))
                       (Some (or_default (Conn_Address c) "127.0.0.1:3699"))))),
       l').
Proof.
  intros Hsp Hc. unfold NebulaClientSettings_validateAndReset. rewrite Hc.
  destruct (NCS_Space n) as [sp |]; [| contradiction].
  destruct (NCS_Retry n), (NCS_Concurrency n), (NCS_ChannelBufferSize n);
    cbv [bind ret logger_Warnf log_at or_default];
    match goal with
    | |- context [NebulaClientConnection_validateAndReset ?p c ?l0] =>
        destruct (NebulaClientConnection_validateAndReset_val p c l0) as (l' & ->)
    end; exists l'; reflexivity.
Qed.

Lemma NebulaClientSettings_validateAndReset_cases (prefix : string)
    (n : NebulaClientSettings) (l : Log) :
  (exists n' l',
     NebulaClientSettings_validateAndReset prefix n l = (Val n', l')
     /\ settings_resolved n n')
  \/ (returns_error (NebulaClientSettings_validateAndReset prefix n) l
      /\ (NCS_Space n = None \/ NCS_Connection n = None)).
Proof.
  destruct (NCS_Space n) as [sp |] eqn:Hsp.
  2:{ right. split; [| left; reflexivity]. eexists _, l.
      unfold NebulaClientSettings_validateAndReset. rewrite Hsp. reflexivity. }
  destruct (NCS_Connection n) as [c |] eqn:Hc.
  2:{ right. split; [| right; reflexivity].
      unfold NebulaClientSettings_validateAndReset. rewrite Hsp, Hc.
      destruct (NCS_Retry n), (NCS_Concurrency n), (NCS_ChannelBufferSize n);
        cbv [bind ret logger_Warnf log_at fail]; eexists _, _; reflexivity. }
  left.
  destruct (NebulaClientSettings_validateAndReset_val prefix n c l) as (l' & Hrun);
    [congruence | exact Hc |].
  eexists _, l'. split; [exact Hrun |].
  unfold settings_resolved; cbn [NCS_Retry NCS_Concurrency NCS_ChannelBufferSize
                                 NCS_Space NCS_Connection].
  repeat (split; [first [reflexivity | congruence] |]).
  exists c. eexists. split; [exact Hc |]. split; [reflexivity |].
  cbn. repeat split.
Qed.

(** Case analysis on the innermost [match] of a run, in a hypothesis or in
    the goal. *)
Ltac break_hyp H :=
  match type of H with
  | context [match ?x with _ => _ end] =>
      lazymatch x with
      | context [match _ with _ => _ end] => fail
      | _ => destruct x eqn:?
      end
  end.

Ltac break_goal :=
  match goal with
  | |- context [match ?x with _ => _ end] =>
      lazymatch x with
      | context [match _ with _ => _ end] => fail
      | _ => destruct x eqn:?
      end
  end.

Ltac unfold_run :=
  cbv [bind ret fail throw lift deref on_error
       logger_Warnf logger_Infof logger_Errorf logger_Fatalf log_at].

Ltac unfold_run_in H :=
  cbv [bind ret fail throw lift deref on_error
       logger_Warnf logger_Infof logger_Errorf logger_Fatalf log_at] in H.

Lemma CSVConfig_validateAndReset_cases (prefix : string) (c : CSVConfig) (l : Log) :
  (exists c' l', CSVConfig_validateAndReset prefix c l = (Val c', l'))
  \/ returns_error (CSVConfig_validateAndReset prefix c) l.
Proof.
  unfold returns_error, CSVConfig_validateAndReset. unfold_run.
  repeat break_goal; first [left; eexists _, _; reflexivity
                           | right; eexists _, _; reflexivity].
Qed.

Lemma File_validateAndReset_no_path (dir prefix : string) (f : File) (l : Log) :
  File_Path f = None ->
  File_validateAndReset dir prefix f l
  = (Err ("Please configure file path in: " ++ prefix ++ ".path"), l).
Proof.
  intros H. unfold File_validateAndReset. rewrite H.
  cbv [fail fmt_Errorf]. cbn. reflexivity.
Qed.

Lemma File_validateAndReset_no_schema (dir prefix : string) (f : File) (l : Log) :
  File_Schema f = None -> File_Type f <> None ->
  returns_error (File_validateAndReset dir prefix f) l.
Proof.
  intros Hs Ht. destruct (File_Type f) as [ty |] eqn:Hty; [| contradiction].
  unfold returns_error, File_validateAndReset. rewrite Hs, Hty. unfold_run.
  repeat first
    [ match goal with
      | |- context [CSVConfig_validateAndReset ?p ?c ?l0] =>
          destruct (CSVConfig_validateAndReset_cases p c l0)
            as [(c' & l1 & ->) | (e & l1 & ->)]
      end
    | break_goal ];
    eexists _, _; reflexivity.
Qed.

Lemma File_validateAndReset_val (dir prefix : string) (f f' : File) (l l' : Log) :
  File_validateAndReset dir prefix f l = (Val f', l') ->
  File_Path f <> None /\ File_Schema f <> None
  /\ File_BatchSize f' = Some (or_default (File_BatchSize f) 128)
  /\ File_InOrder f' = Some (or_default (File_InOrder f) false).
Proof.
  intros H. unfold File_validateAndReset in H. unfold_run_in H.
  repeat (break_hyp H; try discriminate).
  all: inversion H; subst f'; cbn; repeat split; discriminate.
Qed.

Lemma File_validateAndReset_path (dir prefix : string) (f f' : File) (l l' : Log) :
  File_validateAndReset dir prefix f l = (Val f', l') ->
  exists given,
    File_Path f = Some given
    /\ File_Path f'
       = Some (if PathExists given then given else filepath_Join [dir; given]).
Proof.
  intros H. unfold File_validateAndReset in H.
  destruct (File_Path f) as [given |]; [| discriminate].
  exists given. split; [reflexivity |].
  destruct (PathExists given); cbn [negb] in H; unfold_run_in H;
    repeat (break_hyp H; try discriminate);
    inversion H; subst f'; reflexivity.
Qed.

Lemma ValidateAndReset_range_val (dir : string) (files files' : list (option File))
    (i : Z) (l l' : Log) :
  ValidateAndReset_range dir i files l = (Val files', l') ->
  Forall2 file_resolved files files'.
Proof.
  revert files' i l l'. induction files as [| fe files IH]; intros files' i l l' H.
  - cbn in H. inversion H. constructor.
  - cbn [ValidateAndReset_range] in H.
    apply bind_Val_inv in H as (f & l1 & Hf & H).
    apply bind_Val_inv in H as (f' & l2 & Hf' & H).
    apply bind_Val_inv in H as (rest' & l3 & Hrest & H).
    inversion H; subst files' l'.
    destruct fe as [f0 |]; [| discriminate]. inversion Hf; subst f0 l1.
    constructor.
    + exists f, f'. split; [reflexivity |]. split; [reflexivity |].
      exact (File_validateAndReset_val _ _ _ _ _ _ Hf').
    + exact (IH _ _ _ _ Hrest).
Qed.

Lemma len_zero {A} (s : list A) : (len s =? 0) = true <-> s = [].
Proof.
  unfold len. destruct s; cbn; split; intros H; try reflexivity; discriminate.
Qed.

Lemma YAMLConfig_ValidateAndReset_val (dir : string) (config config' : YAMLConfig)
    (l l' : Log) :
  YAMLConfig_ValidateAndReset dir config l = (Val config', l') ->
  exists n n',
    Cfg_NebulaClientSettings config = Some n
    /\ Cfg_NebulaClientSettings config' = Some n'
    /\ settings_resolved n n'
    /\ Cfg_LogPath config'
       = Some (or_default (Cfg_LogPath config) "/tmp/nebula-importer.log")
    /\ Cfg_Files config <> []
    /\ Forall2 file_resolved (Cfg_Files config) (Cfg_Files config').
Proof.
  intros H. unfold YAMLConfig_ValidateAndReset in H.
  destruct (Cfg_NebulaClientSettings config) as [n |]; [| discriminate].
  apply bind_Val_inv in H as (n' & l1 & Hn & H).
  apply bind_Val_inv in H as (logPath & l2 & Hlog & H).
  destruct (len (Cfg_Files config) =? 0) eqn:Hlen; [discriminate |].
  apply bind_Val_inv in H as (files' & l3 & Hfiles & H).
  inversion H; subst config' l'. cbn.
  exists n, n'. split; [reflexivity |]. split; [reflexivity |].
  split.
  { destruct (NebulaClientSettings_validateAndReset_cases "clientSettings" n l)
      as [(n2 & l4 & Hn2 & Hres) | [(e & l4 & He) _]].
    - rewrite Hn in Hn2. inversion Hn2; subst. exact Hres.
    - rewrite Hn in He. discriminate. }
  split.
  { destruct (Cfg_LogPath config); unfold_run_in Hlog; inversion Hlog; reflexivity. }
  split.
  { intros E. apply len_zero in E. congruence. }
  exact (ValidateAndReset_range_val _ _ _ _ _ _ Hfiles).
Qed.

Lemma YAMLConfig_ValidateAndReset_errors (dir : string) (config : YAMLConfig)
    (l : Log) :
  (Cfg_NebulaClientSettings config = None ->
   YAMLConfig_ValidateAndReset dir config l
   = (Err "please configure clientSettings", l))
  /\ (forall n, Cfg_NebulaClientSettings config = Some n ->
        NCS_Space n = None \/ NCS_Connection n = None ->
        returns_error (YAMLConfig_ValidateAndReset dir config) l)
  /\ (Cfg_Files config = [] ->
      returns_error (YAMLConfig_ValidateAndReset dir config) l).
Proof.
  split; [| split].
  - intros H. unfold YAMLConfig_ValidateAndReset. rewrite H. reflexivity.
  - intros n Hn Habs. unfold YAMLConfig_ValidateAndReset. rewrite Hn.
    apply bind_Err.
    destruct (NebulaClientSettings_validateAndReset_cases "clientSettings" n l)
      as [(n' & l' & _ & Hres) | [He _]]; [| exact He].
    destruct Hres as (_ & _ & _ & Hsp & _ & c & _ & Hc & _).
    destruct Habs; congruence.
  - intros Hfiles. unfold YAMLConfig_ValidateAndReset. rewrite Hfiles.
    destruct (Cfg_NebulaClientSettings config) as [n |];
      [| eexists _, _; reflexivity].
    destruct (NebulaClientSettings_validateAndReset_cases "clientSettings" n l)
      as [(n' & l' & Hn & _) | [He _]]; [| apply bind_Err; exact He].
    unfold returns_error. unfold bind at 1. rewrite Hn.
    destruct (Cfg_LogPath config); unfold_run; cbn; eexists _, _; reflexivity.
Qed.

(** C10 (amended).  A configuration that passes validation had its
    clientSettings, space, connection, a non-empty files list and, for
    every file, a path and a schema; in the result each of retry,
    concurrency, channelBufferSize, address, user, password, batchSize,
    inOrder and logPath is the given value when one was given and
    otherwise its default (1, 10, 128, 127.0.0.1:3699, user, password,
    128, false, /tmp/nebula-importer.log).  Absent clientSettings, space,
    connection or files make validation return an error; an absent path
    makes the validation of that file return an error, and so does an
    absent schema when the file has a type.  The path of a validated file
    is the given one when it exists, and otherwise its join with the
    directory of the configuration. *)
Theorem ValidateAndReset_defaults (dir : string) (config : YAMLConfig) (l : Log) :
  (forall config' l',
     YAMLConfig_ValidateAndReset dir config l = (Val config', l') ->
     exists n n',
       Cfg_NebulaClientSettings config = Some n
       /\ Cfg_NebulaClientSettings config' = Some n'
       /\ settings_resolved n n'
       /\ Cfg_LogPath config'
          = Some (or_default (Cfg_LogPath config) "/tmp/nebula-importer.log")
       /\ Cfg_Files config <> []
       /\ Forall2 file_resolved (Cfg_Files config) (Cfg_Files config'))
  /\ (Cfg_NebulaClientSettings config = None ->
      YAMLConfig_ValidateAndReset dir config l
      = (Err "please configure clientSettings", l))
  /\ (forall n, Cfg_NebulaClientSettings config = Some n ->
        NCS_Space n = None \/ NCS_Connection n = None ->
        returns_error (YAMLConfig_ValidateAndReset dir config) l)
  /\ (Cfg_Files config = [] ->
      returns_error (YAMLConfig_ValidateAndReset dir config) l)
  /\ (forall prefix f, File_Path f = None ->
        File_validateAndReset dir prefix f l
        = (Err ("Please configure file path in: " ++ prefix ++ ".path"), l))
  /\ (forall prefix f, File_Schema f = None -> File_Type f <> None ->
        returns_error (File_validateAndReset dir prefix f) l)
  /\ (forall prefix f f' l',
        File_validateAndReset dir prefix f l = (Val f', l') ->
        exists given,
          File_Path f = Some given
          /\ File_Path f'
             = Some (if PathExists given then given
                     else filepath_Join [dir; given])).
Proof.
  destruct (YAMLConfig_ValidateAndReset_errors dir config l) as (E1 & E2 & E3).
  split; [| split; [| split; [| split; [| split; [| split]]]]].
  - intros config' l'. apply YAMLConfig_ValidateAndReset_val.
  - exact E1.
  - exact E2.
  - exact E3.
  - intros prefix f. apply File_validateAndReset_no_path.
  - intros prefix f. apply File_validateAndReset_no_schema.
  - intros prefix f f' l'. apply File_validateAndReset_path.
Qed.

(** ** Schema resolution *)

Lemma Prop_validateAndReset_valid (prefix : string) (val : Z) (p : PropT) (l : Log) :
  valid_prop p ->
  Prop_validateAndReset prefix val p l = (Val (resolved_prop val p), l).
Proof.
  intros [(t & Ht & Hvalid) Hidx]. unfold Prop_validateAndReset, resolved_prop.
  rewrite Ht. cbn [deref option_map]. unfold bind at 1. cbn [ret].
  rewrite Hvalid. cbn [negb Prop_Index Prop_Name Prop_Type].
  destruct (Prop_Index p) as [i |] eqn:Hi; [| reflexivity].
  specialize (Hidx i eq_refl).
  destruct (Z.ltb_spec i 0); [lia | reflexivity].
Qed.

Lemma Prop_validateAndReset_unknown_type (prefix : string) (val : Z) (p : PropT)
    (t : string) (l : Log) :
  Prop_Type p = Some t -> IsValidType (ToLower t) = false ->
  Prop_validateAndReset prefix val p l
  = (Err ("Error property type of " ++ prefix ++ ".type: " ++ ToLower t), l).
Proof.
  intros Ht Hbad. unfold Prop_validateAndReset. rewrite Ht. cbn [deref].
  unfold bind at 1. cbn [ret]. rewrite Hbad. cbn [negb].
  cbv [fail fmt_Errorf]. cbn. rewrite append_empty. reflexivity.
Qed.

Lemma Prop_validateAndReset_negative (prefix : string) (val : Z) (p : PropT)
    (t name : string) (i : Z) (l : Log) :
  Prop_Type p = Some t -> IsValidType (ToLower t) = true ->
  Prop_Name p = Some name -> Prop_Index p = Some i -> i < 0 ->
  Prop_validateAndReset prefix val p l
  = (Exit, (l ++ [mkEntry FATAL "Invalid prop index: %d, name: %s, type: %s"
                    [Shown (AInt i); Shown (AStr name); Shown (AStr (ToLower t))]])%list).
Proof.
  intros Ht Hvalid Hname Hi Hneg. unfold Prop_validateAndReset.
  rewrite Ht. cbn [deref]. unfold bind at 1. cbn [ret].
  rewrite Hvalid. cbn [negb Prop_Index Prop_Name Prop_Type]. rewrite Hi, Hname.
  destruct (Z.ltb_spec i 0); [reflexivity | lia].
Qed.

Lemma resolved_props_len (d : Z) (ps : list (option PropT)) :
  len (resolved_props d ps) = len ps.
Proof.
  unfold len. f_equal. revert d.
  induction ps as [| op ps IH]; intros d; cbn; [reflexivity |].
  now rewrite IH.
Qed.

Lemma resolved_props_app (d : Z) (a b : list (option PropT)) :
  resolved_props d (a ++ b)
  = (resolved_props d a ++ resolved_props (d + len a) b)%list.
Proof.
  revert d. induction a as [| op a IH]; intros d.
  - cbn. f_equal. unfold len. cbn. lia.
  - cbn [app resolved_props]. rewrite IH. do 3 f_equal.
    unfold len. cbn [List.length]. lia.
Qed.

Lemma resolved_props_nth (d : Z) (ps : list (option PropT)) (k : nat) :
  nth_error (resolved_props d ps) k
  = option_map (option_map (resolved_prop (d + Z.of_nat k))) (nth_error ps k).
Proof.
  revert d k. induction ps as [| op ps IH]; intros d k.
  - destruct k; reflexivity.
  - destruct k as [| k].
    + cbn. rewrite Z.add_0_r. reflexivity.
    + cbn [resolved_props nth_error]. rewrite IH. do 3 f_equal. lia.
Qed.

Lemma all_props_resolved (j : Z) (tags : list (option Tag)) :
  all_props (resolved_tags j tags) = resolved_props j (all_props tags).
Proof.
  revert j. induction tags as [| [t |] tags IH]; intros j.
  - reflexivity.
  - cbn [resolved_tags all_props flat_map Tag_Props].
    rewrite resolved_props_app. f_equal. apply IH.
  - cbn [resolved_tags all_props flat_map]. apply IH.
Qed.

Lemma resolved_tags_nth_nil (j : Z) (tags : list (option Tag)) (k : nat) :
  nth_error tags k = Some None -> nth_error (resolved_tags j tags) k = Some None.
Proof.
  revert j k. induction tags as [| [t |] tags IH]; intros j k H.
  - destruct k; discriminate.
  - destruct k; [discriminate |]. cbn in *. apply IH. exact H.
  - destruct k; [reflexivity |]. cbn in *. apply IH. exact H.
Qed.

Lemma Tag_validateAndReset_range_valid (prefix name : string) (start : Z)
    (ps : list (option PropT)) (i : Z) (l : Log) :
  valid_props ps ->
  exists l',
    Tag_validateAndReset_range prefix name start i ps l
    = (Val (resolved_props (i + start) ps), l').
Proof.
  intros H. revert i l. induction H as [| op ps Hop _ IH]; intros i l.
  - exists l. reflexivity.
  - cbn [Tag_validateAndReset_range resolved_props].
    replace (i + start + 1) with (i + 1 + start) by lia.
    destruct op as [p |].
    + unfold bind at 1.
      rewrite (Prop_validateAndReset_valid _ _ _ _ (Hop p eq_refl)).
      destruct (IH (i + 1) l) as (l' & E). exists l'.
      unfold bind. rewrite E. reflexivity.
    + cbv [bind logger_Errorf log_at].
      match goal with
      | |- context [Tag_validateAndReset_range _ _ _ _ _ ?l0] =>
          destruct (IH (i + 1) l0) as (l' & E)
      end.
      exists l'. rewrite E. reflexivity.
Qed.

Lemma Edge_validateAndReset_range_valid (prefix name : string) (start : Z)
    (ps : list (option PropT)) (i : Z) (l : Log) :
  valid_props ps ->
  exists l',
    Edge_validateAndReset_range prefix name start i ps l
    = (Val (resolved_props (i + start) ps), l').
Proof.
  intros H. revert i l. induction H as [| op ps Hop _ IH]; intros i l.
  - exists l. reflexivity.
  - cbn [Edge_validateAndReset_range resolved_props].
    replace (i + start + 1) with (i + 1 + start) by lia.
    destruct op as [p |].
    + unfold bind at 1.
      rewrite (Prop_validateAndReset_valid _ _ _ _ (Hop p eq_refl)).
      destruct (IH (i + 1) l) as (l' & E). exists l'.
      unfold bind. rewrite E. reflexivity.
    + cbv [bind logger_Errorf log_at].
      match goal with
      | |- context [Edge_validateAndReset_range _ _ _ _ _ ?l0] =>
          destruct (IH (i + 1) l0) as (l' & E)
      end.
      exists l'. rewrite E. reflexivity.
Qed.

Lemma Tag_validateAndReset_valid (prefix : string) (start : Z) (t : Tag) (l : Log) :
  valid_tag t ->
  exists l',
    Tag_validateAndReset prefix start t l
    = (Val (mkTag (Tag_Name t) (resolved_props start (Tag_Props t))), l').
Proof.
  intros [Hname Hprops]. unfold Tag_validateAndReset.
  destruct (Tag_Name t) as [name |] eqn:Hn; [| contradiction].
  destruct (Tag_validateAndReset_range_valid prefix name start _ 0 l Hprops)
    as (l' & E).
  exists l'. unfold bind. rewrite E. reflexivity.
Qed.

Lemma Vertex_validateAndReset_range_valid (prefix : string)
    (tags : list (option Tag)) (i j : Z) (l : Log) :
  Forall (fun ot => forall t, ot = Some t -> valid_tag t) tags ->
  exists l',
    Vertex_validateAndReset_range prefix i j tags l
    = (Val (resolved_tags j tags), l').
Proof.
  intros H. revert i j l. induction H as [| ot tags Hot _ IH]; intros i j l.
  - exists l. reflexivity.
  - cbn [Vertex_validateAndReset_range resolved_tags]. destruct ot as [t |].
    + destruct (Tag_validateAndReset_valid
                  (Sprintf "%s.tags[%d]" [AStr prefix; AInt i]) j t l
                  (Hot t eq_refl)) as (l1 & E1).
      unfold bind at 1. rewrite E1. cbn [Tag_Props].
      rewrite resolved_props_len.
      destruct (IH (i + 1) (j + len (Tag_Props t)) l1) as (l' & E).
      exists l'. unfold bind. rewrite E. reflexivity.
    + cbv [bind logger_Errorf log_at].
      match goal with
      | |- context [Vertex_validateAndReset_range _ _ _ _ ?l0] =>
          destruct (IH (i + 1) j l0) as (l' & E)
      end.
      exists l'. rewrite E. reflexivity.
Qed.

Lemma VID_checkFunction_valid (prefix : string) (v : VID) (l : Log) :
  (forall f, VID_Function v = Some f -> valid_function f) ->
  VID_checkFunction prefix v l = (Val tt, l).
Proof.
  intros H. unfold VID_checkFunction.
  destruct (VID_Function v) as [f |]; [| reflexivity].
  destruct (H f eq_refl) as [E | [E | E]]; rewrite E; reflexivity.
Qed.

Lemma VID_validateAndReset_valid (prefix : string) (d : Z) (v : VID) (l : Log) :
  0 <= d -> valid_VID v ->
  VID_validateAndReset prefix d v l
  = (Val (mkVID (Some (or_default (VID_Index v) d)) (VID_Function v)), l).
Proof.
  intros Hd [Hidx Hfun]. unfold VID_validateAndReset.
  destruct v as [[i |] f]; cbn [VID_Index VID_Function or_default deref] in *.
  - specialize (Hidx i eq_refl). unfold bind at 1. cbn [ret].
    destruct (Z.ltb_spec i 0); [lia |].
    unfold bind. rewrite VID_checkFunction_valid by exact Hfun. reflexivity.
  - unfold bind at 1. cbn [ret].
    destruct (Z.ltb_spec d 0); [lia |].
    unfold bind. rewrite VID_checkFunction_valid by exact Hfun. reflexivity.
Qed.

Lemma VID_validateAndReset_bad (prefix : string) (d : Z) (v : VID) (l : Log) :
  bad_VID v -> returns_error (VID_validateAndReset prefix d v) l.
Proof.
  intros Hbad. unfold returns_error, VID_validateAndReset.
  destruct v as [[i |] f]; cbn [VID_Index VID_Function deref] in *.
  - unfold bind at 1. cbn [ret]. destruct (i <? 0) eqn:Hi.
    + eexists _, _. reflexivity.
    + destruct Hbad as [(i' & E & Hneg) | (f' & E & Hf)].
      * inversion E; subst. apply Z.ltb_ge in Hi. lia.
      * cbn in E. subst f. unfold bind, VID_checkFunction. cbn [VID_Function].
        destruct (String.eqb_spec (ToLower f') EmptyString) as [E1 | _];
          [exfalso; apply Hf; left; exact E1 |].
        destruct (String.eqb_spec (ToLower f') "hash") as [E2 | _];
          [exfalso; apply Hf; right; left; exact E2 |].
        destruct (String.eqb_spec (ToLower f') "uuid") as [E3 | _];
          [exfalso; apply Hf; right; right; exact E3 |].
        eexists _, _. reflexivity.
  - unfold bind at 1. cbn [ret]. destruct (d <? 0) eqn:Hd.
    + eexists _, _. reflexivity.
    + destruct Hbad as [(i' & E & Hneg) | (f' & E & Hf)]; [discriminate |].
      cbn in E. subst f. unfold bind, VID_checkFunction. cbn [VID_Function].
      destruct (String.eqb_spec (ToLower f') EmptyString) as [E1 | _];
        [exfalso; apply Hf; left; exact E1 |].
      destruct (String.eqb_spec (ToLower f') "hash") as [E2 | _];
        [exfalso; apply Hf; right; left; exact E2 |].
      destruct (String.eqb_spec (ToLower f') "uuid") as [E3 | _];
        [exfalso; apply Hf; right; right; exact E3 |].
      eexists _, _. reflexivity.
Qed.

Lemma VID_validateAndReset_negative (prefix : string) (d : Z) (v : VID) (i : Z)
    (l : Log) :
  VID_Index v = Some i -> i < 0 ->
  VID_validateAndReset prefix d v l
  = (Err ("Invalid " ++ prefix ++ ".index: " ++ itoa i), l).
Proof.
  intros Hi Hneg. unfold VID_validateAndReset. rewrite Hi. cbv zeta.
  rewrite Hi. cbn [deref]. unfold bind at 1. cbn [ret].
  destruct (Z.ltb_spec i 0); [| lia].
  cbv [fail fmt_Errorf]. cbn. rewrite !append_empty. reflexivity.
Qed.

Lemma Rank_validateAndReset_valid (prefix : string) (d : Z) (r : Rank) (l : Log) :
  0 <= d -> (forall i, Rank_Index r = Some i -> 0 <= i) ->
  Rank_validateAndReset prefix d r l
  = (Val (mkRank (Some (or_default (Rank_Index r) d))), l).
Proof.
  intros Hd Hidx. unfold Rank_validateAndReset.
  destruct r as [[i |]]; cbn [Rank_Index or_default deref] in *.
  - specialize (Hidx i eq_refl). unfold bind. cbn [ret].
    destruct (Z.ltb_spec i 0); [lia | reflexivity].
  - unfold bind. cbn [ret]. destruct (Z.ltb_spec d 0); [lia | reflexivity].
Qed.

Lemma Rank_validateAndReset_negative (prefix : string) (d : Z) (r : Rank) (i : Z)
    (l : Log) :
  Rank_Index r = Some i -> i < 0 ->
  Rank_validateAndReset prefix d r l
  = (Err ("Invalid " ++ prefix ++ ".index: " ++ itoa i), l).
Proof.
  intros Hi Hneg. unfold Rank_validateAndReset. rewrite Hi. cbv zeta.
  rewrite Hi. cbn [deref]. unfold bind. cbn [ret].
  destruct (Z.ltb_spec i 0); [| lia].
  cbv [fail fmt_Errorf]. cbn. rewrite !append_empty. reflexivity.
Qed.

Lemma Vertex_validateAndReset_valid (prefix : string) (v : Vertex) (l : Log) :
  valid_vertex v ->
  exists l',
    Vertex_validateAndReset prefix v l
    = (Val (mkVertex
              (Some (match Vertex_VID v with
                     | Some vid => mkVID (Some (or_default (VID_Index vid) 0))
                                     (VID_Function vid)
                     | None => mkVID (Some 0) None
                     end))
              (resolved_tags 1 (Vertex_Tags v))), l').
Proof.
  intros [Hvid Htags]. unfold Vertex_validateAndReset.
  destruct (Vertex_validateAndReset_range_valid prefix _ 0 1 l Htags) as (l' & E).
  exists l'. destruct (Vertex_VID v) as [vid |].
  - unfold bind at 1.
    rewrite VID_validateAndReset_valid by (lia || exact (Hvid vid eq_refl)).
    unfold bind. rewrite E. reflexivity.
  - unfold bind. cbn [ret]. rewrite E. reflexivity.
Qed.

Lemma Edge_validateAndReset_valid (prefix : string) (e : Edge) (l : Log) :
  valid_edge e ->
  exists l',
    Edge_validateAndReset prefix e l
    = (Val (mkEdge (Edge_Name e) (Edge_WithRanking e)
              (resolved_props (if ranking_requested e then 3 else 2) (Edge_Props e))
              (Some (match Edge_SrcVID e with
                     | Some v => mkVID (Some (or_default (VID_Index v) 0))
                                   (VID_Function v)
                     | None => mkVID (Some 0) None
                     end))
              (Some (match Edge_DstVID e with
                     | Some v => mkVID (Some (or_default (VID_Index v) 1))
                                   (VID_Function v)
                     | None => mkVID (Some 1) None
                     end))
              (if ranking_requested e
               then Some (mkRank (Some (or_default (rank_index (Edge_Rank e)) 2)))
               else None)), l').
Proof.
  intros (Hname & Hsrc & Hdst & Hrank & Hprops). unfold Edge_validateAndReset.
  destruct (Edge_Name e) as [name |] eqn:Hn; [| contradiction].
  assert (Hs : forall l0,
    match Edge_SrcVID e with
    | Some v => VID_validateAndReset (Sprintf "%s.srcVID" [AStr prefix]) 0 v
    | None => ret (mkVID (Some 0) None)
    end l0
    = (Val (match Edge_SrcVID e with
            | Some v => mkVID (Some (or_default (VID_Index v) 0)) (VID_Function v)
            | None => mkVID (Some 0) None
            end), l0)).
  { intros l0. destruct (Edge_SrcVID e) as [v |]; [| reflexivity].
    apply VID_validateAndReset_valid; [lia | exact (Hsrc v eq_refl)]. }
  assert (Hd : forall l0,
    match Edge_DstVID e with
    | Some v => VID_validateAndReset (Sprintf "%s.dstVID" [AStr prefix]) 1 v
    | None => ret (mkVID (Some 1) None)
    end l0
    = (Val (match Edge_DstVID e with
            | Some v => mkVID (Some (or_default (VID_Index v) 1)) (VID_Function v)
            | None => mkVID (Some 1) None
            end), l0)).
  { intros l0. destruct (Edge_DstVID e) as [v |]; [| reflexivity].
    apply VID_validateAndReset_valid; [lia | exact (Hdst v eq_refl)]. }
  unfold bind at 1. rewrite Hs. unfold bind at 1. rewrite Hd.
  unfold ranking_requested, rank_index.
  destruct (Edge_Rank e) as [r |].
  - unfold bind at 1. unfold bind at 1.
    rewrite Rank_validateAndReset_valid
      by (lia || exact (fun i => Hrank r i eq_refl)).
    cbn [ret].
    destruct (Edge_validateAndReset_range_valid prefix name (2 + 1) _ 0 l Hprops)
      as (l' & E).
    exists l'. unfold bind. rewrite E. reflexivity.
  - destruct (Edge_WithRanking e) as [[|] |]; unfold bind at 1; cbn [ret].
    + destruct (Edge_validateAndReset_range_valid prefix name (2 + 1) _ 0 l Hprops)
        as (l' & E).
      exists l'. unfold bind. rewrite E. reflexivity.
    + destruct (Edge_validateAndReset_range_valid prefix name 2 _ 0 l Hprops)
        as (l' & E).
      exists l'. unfold bind. rewrite E. reflexivity.
    + destruct (Edge_validateAndReset_range_valid prefix name 2 _ 0 l Hprops)
        as (l' & E).
      exists l'. unfold bind. rewrite E. reflexivity.
Qed.

(** ** Resolved vertices on a record *)

Lemma covered_props_cells (record : base_Record) (props : list (option PropT)) :
  Forall (covered_prop record) props ->
  exists cells, Forall2 (formats_to record) props cells.
Proof.
  induction 1 as [| op props (p & i & r & t & -> & Hi & Hc & Ht & Hd) _
                     (cells & IH)].
  - exists []. constructor.
  - assert (Hs : exists s, runs_to (Prop_FormatValue p record) (Val s)).
    { destruct (String.eqb (ToLower t) "string") eqn:Es.
      { exists (Quote r). intros l.
        rewrite (Prop_FormatValue_read _ _ _ _ _ _ Hi Hc Ht), Es. reflexivity. }
      destruct (String.eqb (ToLower t) "int") eqn:Ei.
      { exists (TryConvInt64 r). intros l.
        rewrite (Prop_FormatValue_read _ _ _ _ _ _ Hi Hc Ht), Es, Ei. reflexivity. }
      destruct (HasPrefix (ToLower t) "date-timestamp") eqn:Ed.
      - destruct (cell_exists (Split t ":") 1) as (format & Hf).
        { specialize (Hd eq_refl). unfold len. lia. }
        exists (TryConvDateTimestamp r format). intros l.
        rewrite (Prop_FormatValue_read _ _ _ _ _ _ Hi Hc Ht), Es, Ei, Ed.
        unfold bind. rewrite (at_index_cell _ _ _ Hf l). reflexivity.
      - exists r. intros l.
        rewrite (Prop_FormatValue_read _ _ _ _ _ _ Hi Hc Ht), Es, Ei, Ed.
        reflexivity. }
    destruct Hs as (s & Hs). exists (s :: cells). constructor; [| exact IH].
    exists p. split; [reflexivity | exact Hs].
Qed.

Lemma covered_tags_cells (record : base_Record) (tags : list (option Tag)) :
  Forall (covered_tag record) tags ->
  exists cells, Forall2 (tag_cells record) tags cells.
Proof.
  induction 1 as [| ot tags (t & -> & Ht) _ (cells & IH)].
  - exists []. constructor.
  - destruct (covered_props_cells record _ Ht) as (cs & Hcs).
    exists (cs :: cells). constructor; [| exact IH].
    exists t. split; [reflexivity | exact Hcs].
Qed.

Lemma resolved_props_covered (record : base_Record) (ps : list (option PropT))
    (d : Z) :
  valid_props ps -> 0 <= d ->
  Forall (fun op => op <> None) (resolved_props d ps) ->
  Forall (fun i => i < len record) (prop_indices (resolved_props d ps)) ->
  Forall dated_prop (resolved_props d ps) ->
  Forall (covered_prop record) (resolved_props d ps).
Proof.
  intros Hv. revert d.
  induction Hv as [| op ps Hp _ IH]; intros d Hd Hnil Hcov Hdat;
    cbn [resolved_props] in *; [constructor |].
  inversion Hnil as [| ? ? Hop Hnil']; subst.
  inversion Hdat as [| ? ? Hdp Hdat']; subst.
  destruct op as [p |]; [| exfalso; apply Hop; reflexivity].
  cbn [option_map] in *.
  destruct (Hp p eq_refl) as ((t & Ht & _) & Hidx).
  cbn [prop_indices flat_map resolved_prop Prop_Index present app] in Hcov.
  fold (prop_indices (resolved_props (d + 1) ps)) in Hcov.
  inversion Hcov as [| ? ? Hlt Hcov']; subst.
  constructor; [| apply IH; (lia || assumption)].
  assert (Hnn : 0 <= or_default (Prop_Index p) d).
  { destruct (Prop_Index p) as [i |] eqn:Hi; cbn [or_default];
      [apply (Hidx i eq_refl) | exact Hd]. }
  destruct (cell_exists record (or_default (Prop_Index p) d)) as (r & Hr);
    [lia |].
  exists (resolved_prop d p), (or_default (Prop_Index p) d), r, (ToLower t).
  split; [reflexivity |]. split; [reflexivity |]. split; [exact Hr |].
  split; [unfold resolved_prop; rewrite Ht; reflexivity |].
  apply (Hdp (resolved_prop d p) (ToLower t) eq_refl).
  unfold resolved_prop. rewrite Ht. reflexivity.
Qed.

Lemma resolved_tags_covered (record : base_Record) (tags : list (option Tag))
    (j : Z) :
  Forall (fun ot => forall t, ot = Some t -> valid_tag t) tags -> 0 <= j ->
  no_nil_entry (resolved_tags j tags) ->
  Forall (fun i => i < len record) (prop_indices (all_props (resolved_tags j tags))) ->
  Forall dated_prop (all_props (resolved_tags j tags)) ->
  Forall (covered_tag record) (resolved_tags j tags).
Proof.
  intros Hv. revert j.
  induction Hv as [| ot tags Ht _ IH]; intros j Hj Hnil Hcov Hdat;
    [constructor |].
  destruct ot as [t |].
  - cbn [resolved_tags all_props flat_map Tag_Props] in *.
    fold (all_props (resolved_tags (j + len (Tag_Props t)) tags)) in *.
    inversion Hnil as [| ? ? (t' & Et & Hnp) Hnil']; subst.
    injection Et as <-. cbn [Tag_Props] in Hnp.
    rewrite prop_indices_app in Hcov.
    apply Forall_app in Hcov as (Hcov1 & Hcov2).
    apply Forall_app in Hdat as (Hdat1 & Hdat2).
    constructor.
    + eexists. split; [reflexivity |]. cbn [Tag_Props].
      apply resolved_props_covered; try assumption.
      exact (proj2 (Ht t eq_refl)).
    + apply IH; try assumption. unfold len. lia.
  - cbn [resolved_tags] in Hnil.
    inversion Hnil as [| ? ? (t' & Et & _) _]. discriminate Et.
Qed.

Lemma tag_cells_filled (record : base_Record) (tags : list (option Tag))
    (cells : list (list string)) :
  Forall2 (tag_cells record) tags cells -> no_empty_tag tags ->
  Forall (fun cs => cs <> []) cells.
Proof.
  induction 1 as [| ot cs tags cells (t & -> & Hcs) _ IH]; intros Hne;
    [constructor |].
  inversion Hne as [| ? ? Ht Hne']; subst.
  constructor; [| apply IH; exact Hne'].
  intros ->. apply (Ht t eq_refl). inversion Hcs. reflexivity.
Qed.

(** C3 (amended).  Resolution followed by [Vertex.FormatValues].  A
    vertex that resolution accepts resolves to a vertex [v'], and for
    every record that [v'] can be compiled with (no tag or prop entry of
    [v'] is nil, the cells of the record cover every column index of
    [v'], a given generator of the VID is not empty, every
    date-timestamp type holds its format) every prop has a value and the
    compiler returns a space, the rendered VID, a colon, a space and, in
    parentheses, the comma-joined tags in declared order, each tag being
    the comma-joined values of its props in declared order; when every
    tag has at least one prop this is the comma-joined flat list of all
    prop values.  The log is left as it was. *)
Theorem Vertex_FormatValues_statement (prefix : string) (v : Vertex) (l : Log) :
  valid_vertex v ->
  exists v' l',
    Vertex_validateAndReset prefix v l = (Val v', l')
    /\ forall record,
         compilable_vertex record v' ->
         exists vid i c cells,
           Vertex_VID v' = Some vid /\ VID_Index vid = Some i
           /\ cell record i = Some c
           /\ Forall2 (tag_cells record) (Vertex_Tags v') cells
           /\ runs_to (Vertex_FormatValues v' record)
                (Val (" " ++ rendered_vid vid c ++ ": ("
                      ++ Join (map (fun cs => Join cs ",") cells) "," ++ ")"))
           /\ (no_empty_tag (Vertex_Tags v') ->
               runs_to (Vertex_FormatValues v' record)
                 (Val (" " ++ rendered_vid vid c ++ ": ("
                       ++ Join (List.concat cells) "," ++ ")"))).
Proof.
  intros Hv. destruct (Vertex_validateAndReset_valid prefix v l Hv) as (l' & E).
  eexists _, l'. split; [exact E |].
  intros record (Hnil & Hcov & _ & Hdat).
  destruct Hv as (Hvid & Htags).
  cbn [Vertex_Tags Vertex_VID] in *.
  unfold vertex_indices in Hcov. cbn [Vertex_Tags Vertex_VID vid_index] in Hcov.
  apply Forall_app in Hcov as (Hcv & Hcp).
  set (vid := match Vertex_VID v with
              | Some vid0 => mkVID (Some (or_default (VID_Index vid0) 0))
                               (VID_Function vid0)
              | None => mkVID (Some 0) None
              end) in *.
  assert (Hi : exists i, VID_Index vid = Some i /\ 0 <= i).
  { subst vid. destruct (Vertex_VID v) as [vid0 |]; cbn [VID_Index].
    - eexists. split; [reflexivity |].
      destruct (VID_Index vid0) as [i |] eqn:Hi; cbn [or_default]; [| lia].
      exact (proj1 (Hvid vid0 eq_refl) i Hi).
    - exists 0. split; [reflexivity | lia]. }
  destruct Hi as (i & Hi & Hnn).
  rewrite Hi in Hcv. cbn [present] in Hcv. inversion Hcv as [| ? ? Hlt _]; subst.
  destruct (cell_exists record i) as (c & Hc); [lia |].
  destruct (covered_tags_cells record (resolved_tags 1 (Vertex_Tags v)))
    as (cells & Hcells).
  { apply resolved_tags_covered; (lia || assumption). }
  exists vid, i, c, cells.
  split; [reflexivity |]. split; [exact Hi |]. split; [exact Hc |].
  split; [exact Hcells |].
  destruct (Vertex_FormatValues_joined
              (mkVertex (Some vid) (resolved_tags 1 (Vertex_Tags v)))
              record vid i c cells eq_refl Hi Hc Hcells) as (Hrun & Hflat).
  split; [exact Hrun |].
  intros Hne. apply Hflat. exact (tag_cells_filled _ _ _ Hcells Hne).
Qed.

(** C4.  Resolution of a vertex that it accepts gives the VID the given
    index or 0, and the prop at position [k] across the tags, in
    declaration order, the given index or [1 + k].  Resolution of an edge
    that it accepts gives SrcVID the given index or 0, DstVID the given
    index or 1, a rank exactly when ranking is requested, with the given
    index or 2, and the prop at position [k] the given index or [start + k],
    where [start] is 3 with a rank and 2 without.  Given indices are kept
    unchanged. *)
Theorem default_column_assignment (prefix : string) (l : Log) :
  (forall v, valid_vertex v ->
     exists v' l',
       Vertex_validateAndReset prefix v l = (Val v', l')
       /\ vid_index (Vertex_VID v') = Some (or_default (vid_index (Vertex_VID v)) 0)
       /\ forall k p,
            nth_error (all_props (Vertex_Tags v)) k = Some (Some p) ->
            exists p',
              nth_error (all_props (Vertex_Tags v')) k = Some (Some p')
              /\ Prop_Index p' = Some (or_default (Prop_Index p) (1 + Z.of_nat k)))
  /\ (forall e, valid_edge e ->
     exists e' l',
       Edge_validateAndReset prefix e l = (Val e', l')
       /\ vid_index (Edge_SrcVID e') = Some (or_default (vid_index (Edge_SrcVID e)) 0)
       /\ vid_index (Edge_DstVID e') = Some (or_default (vid_index (Edge_DstVID e)) 1)
       /\ Edge_Rank e'
          = (if ranking_requested e
             then Some (mkRank (Some (or_default (rank_index (Edge_Rank e)) 2)))
             else None)
       /\ forall k p,
            nth_error (Edge_Props e) k = Some (Some p) ->
            exists p',
              nth_error (Edge_Props e') k = Some (Some p')
              /\ Prop_Index p'
                 = Some (or_default (Prop_Index p)
                           ((if ranking_requested e then 3 else 2) + Z.of_nat k))).
Proof.
  split.
  - intros v Hv.
    destruct (Vertex_validateAndReset_valid prefix v l Hv) as (l' & E).
    eexists _, l'. split; [exact E |]. cbn [Vertex_VID Vertex_Tags vid_index].
    split.
    + destruct (Vertex_VID v) as [vid |]; reflexivity.
    + intros k p Hk. exists (resolved_prop (1 + Z.of_nat k) p).
      rewrite all_props_resolved, resolved_props_nth, Hk. split; reflexivity.
  - intros e He.
    destruct (Edge_validateAndReset_valid prefix e l He) as (l' & E).
    eexists _, l'. split; [exact E |].
    cbn [Edge_SrcVID Edge_DstVID Edge_Rank Edge_Props vid_index].
    split; [destruct (Edge_SrcVID e); reflexivity |].
    split; [destruct (Edge_DstVID e); reflexivity |].
    split; [reflexivity |].
    intros k p Hk.
    exists (resolved_prop ((if ranking_requested e then 3 else 2) + Z.of_nat k) p).
    rewrite resolved_props_nth, Hk. split; reflexivity.
Qed.

(** ** What resolution rejects, and how *)

Lemma VID_validateAndReset_cases (prefix : string) (d : Z) (v : VID) (l : Log) :
  (exists v', VID_validateAndReset prefix d v l = (Val v', l))
  \/ returns_error (VID_validateAndReset prefix d v) l.
Proof.
  unfold returns_error, VID_validateAndReset, VID_checkFunction.
  destruct v as [[i |] f]; cbn [VID_Index VID_Function]; unfold_run;
    repeat break_goal;
    first [left; eexists; reflexivity | right; eexists _, _; reflexivity].
Qed.

Lemma Rank_validateAndReset_cases (prefix : string) (d : Z) (r : Rank) (l : Log) :
  (exists r', Rank_validateAndReset prefix d r l = (Val r', l))
  \/ returns_error (Rank_validateAndReset prefix d r) l.
Proof.
  unfold returns_error, Rank_validateAndReset.
  destruct r as [[i |]]; cbn [Rank_Index]; unfold_run;
    repeat break_goal;
    first [left; eexists; reflexivity | right; eexists _, _; reflexivity].
Qed.

Lemma Edge_validateAndReset_rejected (prefix : string) (e : Edge) (l : Log) :
  rejected_edge e -> returns_error (Edge_validateAndReset prefix e) l.
Proof.
  intros Hrej. unfold Edge_validateAndReset.
  destruct (Edge_Name e) as [name |] eqn:Hn; [| eexists _, _; reflexivity].
  destruct Hrej as [Hrej | Hrej]; [congruence |].
  destruct (Edge_SrcVID e) as [src |] eqn:Hsrc.
  - destruct (VID_validateAndReset_cases (Sprintf "%s.srcVID" [AStr prefix]) 0 src l)
      as [(src' & Es) | Es]; [| apply bind_Err; exact Es].
    unfold returns_error. unfold bind at 1. rewrite Es.
    destruct Hrej as [(v & E & Hbad) | Hrej].
    { inversion E; subst v.
      destruct (VID_validateAndReset_bad (Sprintf "%s.srcVID" [AStr prefix]) 0 src l Hbad)
        as (e0 & l0 & E0). congruence. }
    destruct (Edge_DstVID e) as [dst |] eqn:Hdst.
    + destruct (VID_validateAndReset_cases (Sprintf "%s.dstVID" [AStr prefix]) 1 dst l)
        as [(dst' & Ed) | Ed]; [| apply bind_Err; exact Ed].
      unfold bind at 1. rewrite Ed.
      destruct Hrej as [(v & E & Hbad) | (r & i & Er & Ei & Hneg)].
      { inversion E; subst v.
        destruct (VID_validateAndReset_bad (Sprintf "%s.dstVID" [AStr prefix]) 1 dst l Hbad)
          as (e0 & l0 & E0). congruence. }
      rewrite Er. unfold bind at 1. unfold bind at 1.
      rewrite (Rank_validateAndReset_negative _ _ _ _ _ Ei Hneg).
      eexists _, _. reflexivity.
    + unfold bind at 1. cbn [ret].
      destruct Hrej as [(v & E & Hbad) | (r & i & Er & Ei & Hneg)]; [discriminate |].
      rewrite Er. unfold bind at 1. unfold bind at 1.
      rewrite (Rank_validateAndReset_negative _ _ _ _ _ Ei Hneg).
      eexists _, _. reflexivity.
  - unfold returns_error. unfold bind at 1. cbn [ret].
    destruct Hrej as [(v & E & Hbad) | Hrej]; [discriminate |].
    destruct (Edge_DstVID e) as [dst |] eqn:Hdst.
    + destruct (VID_validateAndReset_cases (Sprintf "%s.dstVID" [AStr prefix]) 1 dst l)
        as [(dst' & Ed) | Ed]; [| apply bind_Err; exact Ed].
      unfold bind at 1. rewrite Ed.
      destruct Hrej as [(v & E & Hbad) | (r & i & Er & Ei & Hneg)].
      { inversion E; subst v.
        destruct (VID_validateAndReset_bad (Sprintf "%s.dstVID" [AStr prefix]) 1 dst l Hbad)
          as (e0 & l0 & E0). congruence. }
      rewrite Er. unfold bind at 1. unfold bind at 1.
      rewrite (Rank_validateAndReset_negative _ _ _ _ _ Ei Hneg).
      eexists _, _. reflexivity.
    + unfold bind at 1. cbn [ret].
      destruct Hrej as [(v & E & Hbad) | (r & i & Er & Ei & Hneg)]; [discriminate |].
      rewrite Er. unfold bind at 1. unfold bind at 1.
      rewrite (Rank_validateAndReset_negative _ _ _ _ _ Ei Hneg).
      eexists _, _. reflexivity.
Qed.

Lemma Vertex_validateAndReset_rejected (prefix : string) (v : Vertex) (vid : VID)
    (l : Log) :
  Vertex_VID v = Some vid -> bad_VID vid ->
  returns_error (Vertex_validateAndReset prefix v) l.
Proof.
  intros Hvid Hbad. unfold Vertex_validateAndReset. rewrite Hvid.
  apply bind_Err. apply VID_validateAndReset_bad. exact Hbad.
Qed.

(** The prop loops stop at the first prop that is not accepted. *)

Lemma Tag_validateAndReset_range_unknown_type (prefix name : string) (start : Z)
    (before after : list (option PropT)) (p : PropT) (t : string) (i : Z) (l : Log) :
  valid_props before ->
  Prop_Type p = Some t -> IsValidType (ToLower t) = false ->
  returns_error
    (Tag_validateAndReset_range prefix name start i (before ++ Some p :: after)) l.
Proof.
  intros Hb Ht Hbad. revert i l.
  induction Hb as [| op before Hop _ IH]; intros i l.
  - cbn [app Tag_validateAndReset_range]. apply bind_Err.
    eexists _, _. apply (Prop_validateAndReset_unknown_type _ _ _ _ _ Ht Hbad).
  - cbn [app Tag_validateAndReset_range]. destruct op as [q |].
    + unfold returns_error. unfold bind at 1.
      rewrite (Prop_validateAndReset_valid _ _ _ _ (Hop q eq_refl)).
      apply bind_Err, IH.
    + unfold returns_error. cbv [bind logger_Errorf log_at].
      match goal with
      | |- context [Tag_validateAndReset_range _ _ _ _ _ ?l0] =>
          destruct (IH (i + 1) l0) as (e & l' & E)
      end.
      rewrite E. eexists _, _. reflexivity.
Qed.

Lemma Edge_validateAndReset_range_unknown_type (prefix name : string) (start : Z)
    (before after : list (option PropT)) (p : PropT) (t : string) (i : Z) (l : Log) :
  valid_props before ->
  Prop_Type p = Some t -> IsValidType (ToLower t) = false ->
  returns_error
    (Edge_validateAndReset_range prefix name start i (before ++ Some p :: after)) l.
Proof.
  intros Hb Ht Hbad. revert i l.
  induction Hb as [| op before Hop _ IH]; intros i l.
  - cbn [app Edge_validateAndReset_range]. apply bind_Err.
    eexists _, _. apply (Prop_validateAndReset_unknown_type _ _ _ _ _ Ht Hbad).
  - cbn [app Edge_validateAndReset_range]. destruct op as [q |].
    + unfold returns_error. unfold bind at 1.
      rewrite (Prop_validateAndReset_valid _ _ _ _ (Hop q eq_refl)).
      apply bind_Err, IH.
    + unfold returns_error. cbv [bind logger_Errorf log_at].
      match goal with
      | |- context [Edge_validateAndReset_range _ _ _ _ _ ?l0] =>
          destruct (IH (i + 1) l0) as (e & l' & E)
      end.
      rewrite E. eexists _, _. reflexivity.
Qed.

Lemma Tag_validateAndReset_range_negative (prefix name : string) (start : Z)
    (before after : list (option PropT)) (p : PropT) (t pname : string)
    (k i : Z) (l : Log) :
  valid_props before ->
  Prop_Type p = Some t -> IsValidType (ToLower t) = true ->
  Prop_Name p = Some pname -> Prop_Index p = Some k -> k < 0 ->
  exists l',
    Tag_validateAndReset_range prefix name start i (before ++ Some p :: after) l
    = (Exit, (l' ++ [negative_index_entry k pname (ToLower t)])%list).
Proof.
  intros Hb Ht Hvalid Hname Hk Hneg. revert i l.
  induction Hb as [| op before Hop _ IH]; intros i l.
  - cbn [app Tag_validateAndReset_range]. exists l. unfold bind at 1.
    rewrite (Prop_validateAndReset_negative _ _ _ _ _ _ _ Ht Hvalid Hname Hk Hneg).
    reflexivity.
  - cbn [app Tag_validateAndReset_range]. destruct op as [q |].
    + unfold bind at 1.
      rewrite (Prop_validateAndReset_valid _ _ _ _ (Hop q eq_refl)).
      destruct (IH (i + 1) l) as (l' & E). exists l'.
      unfold bind at 1. rewrite E. reflexivity.
    + cbv [bind logger_Errorf log_at].
      match goal with
      | |- context [Tag_validateAndReset_range _ _ _ _ _ ?l0] =>
          destruct (IH (i + 1) l0) as (l' & E)
      end.
      exists l'. rewrite E. reflexivity.
Qed.

Lemma Edge_validateAndReset_range_negative (prefix name : string) (start : Z)
    (before after : list (option PropT)) (p : PropT) (t pname : string)
    (k i : Z) (l : Log) :
  valid_props before ->
  Prop_Type p = Some t -> IsValidType (ToLower t) = true ->
  Prop_Name p = Some pname -> Prop_Index p = Some k -> k < 0 ->
  exists l',
    Edge_validateAndReset_range prefix name start i (before ++ Some p :: after) l
    = (Exit, (l' ++ [negative_index_entry k pname (ToLower t)])%list).
Proof.
  intros Hb Ht Hvalid Hname Hk Hneg. revert i l.
  induction Hb as [| op before Hop _ IH]; intros i l.
  - cbn [app Edge_validateAndReset_range]. exists l. unfold bind at 1.
    rewrite (Prop_validateAndReset_negative _ _ _ _ _ _ _ Ht Hvalid Hname Hk Hneg).
    reflexivity.
  - cbn [app Edge_validateAndReset_range]. destruct op as [q |].
    + unfold bind at 1.
      rewrite (Prop_validateAndReset_valid _ _ _ _ (Hop q eq_refl)).
      destruct (IH (i + 1) l) as (l' & E). exists l'.
      unfold bind at 1. rewrite E. reflexivity.
    + cbv [bind logger_Errorf log_at].
      match goal with
      | |- context [Edge_validateAndReset_range _ _ _ _ _ ?l0] =>
          destruct (IH (i + 1) l0) as (l' & E)
      end.
      exists l'. rewrite E. reflexivity.
Qed.

Lemma bind_Exit {A B} (c : M A) (k : A -> M B) (l : Log) (x : entry) :
  exits_with c l x -> exits_with (bind c k) l x.
Proof.
  intros (l' & H). exists l'. unfold bind. rewrite H. reflexivity.
Qed.

Lemma Tag_validateAndReset_unknown_type (prefix : string) (start : Z) (t : Tag)
    (p : PropT) (l : Log) :
  first_unaccepted (Tag_Props t) p -> unknown_type p ->
  returns_error (Tag_validateAndReset prefix start t) l.
Proof.
  intros (before & after & Hps & Hb) (ty & Hty & Hbad).
  unfold Tag_validateAndReset.
  destruct (Tag_Name t) as [name |]; [| eexists _, _; reflexivity].
  apply bind_Err. rewrite Hps.
  apply (Tag_validateAndReset_range_unknown_type _ _ _ _ _ _ _ _ _ Hb Hty Hbad).
Qed.

Lemma Tag_validateAndReset_negative (prefix : string) (start : Z) (t : Tag)
    (p : PropT) (i : Z) (name ty : string) (l : Log) :
  Tag_Name t <> None ->
  first_unaccepted (Tag_Props t) p -> negative_index p i name ty ->
  exits_with (Tag_validateAndReset prefix start t) l
    (negative_index_entry i name (ToLower ty)).
Proof.
  intros Hname (before & after & Hps & Hb) (Hty & Hvalid & Hn & Hi & Hneg).
  unfold Tag_validateAndReset.
  destruct (Tag_Name t) as [tname |]; [| contradiction].
  apply bind_Exit. rewrite Hps.
  apply (Tag_validateAndReset_range_negative _ _ _ _ _ _ _ _ _ _ _ Hb Hty Hvalid Hn Hi Hneg).
Qed.

Lemma Vertex_validateAndReset_range_unknown_type (prefix : string)
    (tags : list (option Tag)) (t : Tag) (p : PropT) (i j : Z) (l : Log) :
  first_unaccepted_tag tags t p -> unknown_type p ->
  returns_error (Vertex_validateAndReset_range prefix i j tags) l.
Proof.
  intros (tsbefore & tsafter & -> & Hts & Hfirst) Hbad. revert i j l.
  induction Hts as [| ot tsbefore Hot _ IH]; intros i j l.
  - cbn [app Vertex_validateAndReset_range]. apply bind_Err.
    apply (Tag_validateAndReset_unknown_type _ _ _ _ _ Hfirst Hbad).
  - cbn [app Vertex_validateAndReset_range]. destruct ot as [t' |].
    + destruct (Tag_validateAndReset_valid
                  (Sprintf "%s.tags[%d]" [AStr prefix; AInt i]) j t' l
                  (Hot t' eq_refl)) as (l1 & E1).
      unfold returns_error. unfold bind at 1. rewrite E1.
      apply bind_Err, IH.
    + unfold returns_error. cbv [bind logger_Errorf log_at].
      match goal with
      | |- context [Vertex_validateAndReset_range _ _ _ _ ?l0] =>
          destruct (IH (i + 1) j l0) as (e & l' & E)
      end.
      rewrite E. eexists _, _. reflexivity.
Qed.

Lemma Vertex_validateAndReset_range_negative (prefix : string)
    (tags : list (option Tag)) (t : Tag) (p : PropT) (k : Z) (name ty : string)
    (i j : Z) (l : Log) :
  first_unaccepted_tag tags t p -> Tag_Name t <> None ->
  negative_index p k name ty ->
  exits_with (Vertex_validateAndReset_range prefix i j tags) l
    (negative_index_entry k name (ToLower ty)).
Proof.
  intros (tsbefore & tsafter & -> & Hts & Hfirst) Hname Hneg. revert i j l.
  induction Hts as [| ot tsbefore Hot _ IH]; intros i j l.
  - cbn [app Vertex_validateAndReset_range]. apply bind_Exit.
    apply (Tag_validateAndReset_negative _ _ _ _ _ _ _ _ Hname Hfirst Hneg).
  - cbn [app Vertex_validateAndReset_range]. destruct ot as [t' |].
    + destruct (Tag_validateAndReset_valid
                  (Sprintf "%s.tags[%d]" [AStr prefix; AInt i]) j t' l
                  (Hot t' eq_refl)) as (l1 & E1).
      unfold exits_with. unfold bind at 1. rewrite E1.
      apply bind_Exit, IH.
    + unfold exits_with. cbv [bind logger_Errorf log_at].
      match goal with
      | |- context [Vertex_validateAndReset_range _ _ _ _ ?l0] =>
          destruct (IH (i + 1) j l0) as (l' & E)
      end.
      exists l'. rewrite E. reflexivity.
Qed.

Lemma Vertex_validateAndReset_unknown_type (prefix : string) (v : Vertex)
    (t : Tag) (p : PropT) (l : Log) :
  first_unaccepted_tag (Vertex_Tags v) t p -> unknown_type p ->
  returns_error (Vertex_validateAndReset prefix v) l.
Proof.
  intros Hfirst Hbad. unfold Vertex_validateAndReset.
  destruct (Vertex_VID v) as [vid |].
  - destruct (VID_validateAndReset_cases (Sprintf "%s.vid" [AStr prefix]) 0 vid l)
      as [(vid' & E) | E]; [| apply bind_Err; exact E].
    unfold returns_error. unfold bind at 1. rewrite E.
    apply bind_Err.
    apply (Vertex_validateAndReset_range_unknown_type _ _ _ _ _ _ _ Hfirst Hbad).
  - unfold returns_error. unfold bind at 1. cbn [ret].
    apply bind_Err.
    apply (Vertex_validateAndReset_range_unknown_type _ _ _ _ _ _ _ Hfirst Hbad).
Qed.

Lemma Vertex_validateAndReset_negative (prefix : string) (v : Vertex)
    (t : Tag) (p : PropT) (k : Z) (name ty : string) (l : Log) :
  (forall vid, Vertex_VID v = Some vid -> valid_VID vid) ->
  first_unaccepted_tag (Vertex_Tags v) t p -> Tag_Name t <> None ->
  negative_index p k name ty ->
  exits_with (Vertex_validateAndReset prefix v) l
    (negative_index_entry k name (ToLower ty)).
Proof.
  intros Hvid Hfirst Hname Hneg. unfold Vertex_validateAndReset.
  destruct (Vertex_VID v) as [vid |].
  - unfold exits_with. unfold bind at 1.
    rewrite VID_validateAndReset_valid by (lia || exact (Hvid vid eq_refl)).
    apply bind_Exit.
    apply (Vertex_validateAndReset_range_negative _ _ _ _ _ _ _ _ _ _ Hfirst Hname Hneg).
  - unfold exits_with. unfold bind at 1. cbn [ret].
    apply bind_Exit.
    apply (Vertex_validateAndReset_range_negative _ _ _ _ _ _ _ _ _ _ Hfirst Hname Hneg).
Qed.

Lemma Edge_validateAndReset_unknown_type (prefix : string) (e : Edge) (p : PropT)
    (l : Log) :
  first_unaccepted (Edge_Props e) p -> unknown_type p ->
  returns_error (Edge_validateAndReset prefix e) l.
Proof.
  intros (before & after & Hps & Hb) (ty & Hty & Hbad).
  unfold Edge_validateAndReset.
  destruct (Edge_Name e) as [name |]; [| eexists _, _; reflexivity].
  assert (Hs : (exists src', match Edge_SrcVID e with
                             | Some v => VID_validateAndReset
                                           (Sprintf "%s.srcVID" [AStr prefix]) 0 v
                             | None => ret (mkVID (Some 0) None)
                             end l = (Val src', l))
               \/ returns_error (match Edge_SrcVID e with
                                 | Some v => VID_validateAndReset
                                               (Sprintf "%s.srcVID" [AStr prefix]) 0 v
                                 | None => ret (mkVID (Some 0) None)
                                 end) l).
  { destruct (Edge_SrcVID e) as [v |]; [apply VID_validateAndReset_cases |].
    left. eexists. reflexivity. }
  destruct Hs as [(src' & Es) | Es]; [| apply bind_Err; exact Es].
  unfold returns_error. unfold bind at 1. rewrite Es.
  assert (Hd : (exists dst', match Edge_DstVID e with
                             | Some v => VID_validateAndReset
                                           (Sprintf "%s.dstVID" [AStr prefix]) 1 v
                             | None => ret (mkVID (Some 1) None)
                             end l = (Val dst', l))
               \/ returns_error (match Edge_DstVID e with
                                 | Some v => VID_validateAndReset
                                               (Sprintf "%s.dstVID" [AStr prefix]) 1 v
                                 | None => ret (mkVID (Some 1) None)
                                 end) l).
  { destruct (Edge_DstVID e) as [v |]; [apply VID_validateAndReset_cases |].
    left. eexists. reflexivity. }
  destruct Hd as [(dst' & Ed) | Ed]; [| apply bind_Err; exact Ed].
  unfold bind at 1. rewrite Ed. rewrite Hps.
  destruct (Edge_Rank e) as [r |].
  - destruct (Rank_validateAndReset_cases (Sprintf "%s.rank" [AStr prefix]) 2 r l)
      as [(r' & Er) | Er].
    + unfold bind at 1. unfold bind at 1. rewrite Er. cbn [ret].
      apply bind_Err.
      apply (Edge_validateAndReset_range_unknown_type _ _ _ _ _ _ _ _ _ Hb Hty Hbad).
    + apply bind_Err, bind_Err. exact Er.
  - destruct (Edge_WithRanking e) as [[|] |]; unfold bind at 1; cbn [ret];
      apply bind_Err;
      apply (Edge_validateAndReset_range_unknown_type _ _ _ _ _ _ _ _ _ Hb Hty Hbad).
Qed.

Lemma Edge_validateAndReset_negative (prefix : string) (e : Edge) (p : PropT)
    (k : Z) (pname ty : string) (l : Log) :
  valid_edge_head e ->
  first_unaccepted (Edge_Props e) p -> negative_index p k pname ty ->
  exits_with (Edge_validateAndReset prefix e) l
    (negative_index_entry k pname (ToLower ty)).
Proof.
  intros (Hname & Hsrc & Hdst & Hrank) (before & after & Hps & Hb)
    (Hty & Hvalid & Hn & Hk & Hneg).
  unfold Edge_validateAndReset.
  destruct (Edge_Name e) as [name |]; [| contradiction].
  assert (Hs : exists src', match Edge_SrcVID e with
                            | Some v => VID_validateAndReset
                                          (Sprintf "%s.srcVID" [AStr prefix]) 0 v
                            | None => ret (mkVID (Some 0) None)
                            end l = (Val src', l)).
  { destruct (Edge_SrcVID e) as [v |]; [| eexists; reflexivity].
    eexists. apply VID_validateAndReset_valid; [lia | exact (Hsrc v eq_refl)]. }
  destruct Hs as (src' & Es).
  assert (Hd : exists dst', match Edge_DstVID e with
                            | Some v => VID_validateAndReset
                                          (Sprintf "%s.dstVID" [AStr prefix]) 1 v
                            | None => ret (mkVID (Some 1) None)
                            end l = (Val dst', l)).
  { destruct (Edge_DstVID e) as [v |]; [| eexists; reflexivity].
    eexists. apply VID_validateAndReset_valid; [lia | exact (Hdst v eq_refl)]. }
  destruct Hd as (dst' & Ed).
  unfold exits_with. unfold bind at 1. rewrite Es.
  unfold bind at 1. rewrite Ed. rewrite Hps.
  destruct (Edge_Rank e) as [r |].
  - unfold bind at 1. unfold bind at 1.
    rewrite Rank_validateAndReset_valid
      by (lia || exact (fun i => Hrank r i eq_refl)).
    cbn [ret]. apply bind_Exit.
    apply (Edge_validateAndReset_range_negative _ _ _ _ _ _ _ _ _ _ _
             Hb Hty Hvalid Hn Hk Hneg).
  - destruct (Edge_WithRanking e) as [[|] |]; unfold bind at 1; cbn [ret];
      apply bind_Exit;
      apply (Edge_validateAndReset_range_negative _ _ _ _ _ _ _ _ _ _ _
               Hb Hty Hvalid Hn Hk Hneg).
Qed.

Lemma Schema_validateAndReset_edge (prefix : string) (s : Schema) (t : string)
    (e : Edge) (l : Log) :
  Schema_Type s = Some t -> ToLower t = "edge" -> Schema_Edge s = Some e ->
  Schema_validateAndReset prefix s l
  = (e' <- Edge_validateAndReset (prefix ++ ".edge") e ;;
     ret (mkSchema (Schema_Type s) (Some e') (Schema_Vertex s))) l.
Proof.
  intros Ht Hl He. unfold Schema_validateAndReset. rewrite Ht. cbn [deref].
  unfold bind at 1. cbn [ret]. rewrite Hl, He. reflexivity.
Qed.

Lemma Schema_validateAndReset_vertex (prefix : string) (s : Schema) (t : string)
    (v : Vertex) (l : Log) :
  Schema_Type s = Some t -> ToLower t = "vertex" -> Schema_Vertex s = Some v ->
  Schema_validateAndReset prefix s l
  = (v' <- Vertex_validateAndReset (prefix ++ ".vertex") v ;;
     ret (mkSchema (Schema_Type s) (Schema_Edge s) (Some v'))) l.
Proof.
  intros Ht Hl Hv. unfold Schema_validateAndReset. rewrite Ht. cbn [deref].
  unfold bind at 1. cbn [ret]. rewrite Hl, Hv. reflexivity.
Qed.

(** C5 (amended).  Schema resolution returns an error to its caller for an
    unknown type discriminator, for an edge without a name, for a source,
    destination or vertex VID with a negative index or a generator other
    than none, hash and uuid, for a rank with a negative index, and for a
    prop of unknown type that is the first prop resolution does not accept.
    A negative index given for a prop is not returned as an error: when
    that prop is the first one not accepted (in an edge or a vertex that is
    accepted up to it), resolution logs it at the fatal level and the
    process exits. *)
Theorem resolution_rejections (prefix : string) (s : Schema) (t : string) (l : Log) :
  Schema_Type s = Some t ->
  (ToLower t <> "edge" -> ToLower t <> "vertex" ->
   Schema_validateAndReset prefix s l
   = (Err ("Error schema type(" ++ t ++ ") in " ++ prefix
           ++ ".type only edge and vertex are supported"), l))
  /\ (forall e, ToLower t = "edge" -> Schema_Edge s = Some e ->
        (Edge_Name e = None ->
         Schema_validateAndReset prefix s l
         = (Err ("Please configure edge name in: " ++ prefix ++ ".edge.name"), l))
        /\ (rejected_edge e -> returns_error (Schema_validateAndReset prefix s) l)
        /\ (forall p, first_unaccepted (Edge_Props e) p -> unknown_type p ->
              returns_error (Schema_validateAndReset prefix s) l)
        /\ (forall p i name ty,
              valid_edge_head e -> first_unaccepted (Edge_Props e) p ->
              negative_index p i name ty ->
              exits_with (Schema_validateAndReset prefix s) l
                (negative_index_entry i name (ToLower ty))))
  /\ (forall v, ToLower t = "vertex" -> Schema_Vertex s = Some v ->
        (forall vid, Vertex_VID v = Some vid -> bad_VID vid ->
           returns_error (Schema_validateAndReset prefix s) l)
        /\ (forall tg p, first_unaccepted_tag (Vertex_Tags v) tg p ->
              unknown_type p ->
              returns_error (Schema_validateAndReset prefix s) l)
        /\ (forall tg p i name ty,
              (forall vid, Vertex_VID v = Some vid -> valid_VID vid) ->
              first_unaccepted_tag (Vertex_Tags v) tg p -> Tag_Name tg <> None ->
              negative_index p i name ty ->
              exits_with (Schema_validateAndReset prefix s) l
                (negative_index_entry i name (ToLower ty)))).
Proof.
  intros Ht. split; [| split].
  - intros Hne Hnv. unfold Schema_validateAndReset. rewrite Ht. cbn [deref].
    unfold bind at 1. cbn [ret].
    destruct (String.eqb_spec (ToLower t) "edge") as [E | _]; [contradiction |].
    destruct (String.eqb_spec (ToLower t) "vertex") as [E | _]; [contradiction |].
    cbv [fail fmt_Errorf]. cbn. rewrite ?append_empty. reflexivity.
  - intros e Hl He.
    pose proof (Schema_validateAndReset_edge prefix s t e l Ht Hl He) as Hrun.
    split; [| split; [| split]].
    + intros Hname. rewrite Hrun. unfold bind, Edge_validateAndReset.
      rewrite Hname. cbv [fail fmt_Errorf]. cbn. rewrite append_assoc.
      reflexivity.
    + intros Hrej. unfold returns_error. rewrite Hrun.
      apply bind_Err, Edge_validateAndReset_rejected. exact Hrej.
    + intros p Hfirst Hbad. unfold returns_error. rewrite Hrun.
      apply bind_Err. exact (Edge_validateAndReset_unknown_type _ _ _ _ Hfirst Hbad).
    + intros p i name ty Hhead Hfirst Hneg. unfold exits_with. rewrite Hrun.
      apply bind_Exit.
      exact (Edge_validateAndReset_negative _ _ _ _ _ _ _ Hhead Hfirst Hneg).
  - intros v Hl Hv.
    pose proof (Schema_validateAndReset_vertex prefix s t v l Ht Hl Hv) as Hrun.
    split; [| split].
    + intros vid Hvid Hbad. unfold returns_error. rewrite Hrun.
      apply bind_Err. exact (Vertex_validateAndReset_rejected _ _ _ _ Hvid Hbad).
    + intros tg p Hfirst Hbad. unfold returns_error. rewrite Hrun.
      apply bind_Err.
      exact (Vertex_validateAndReset_unknown_type _ _ _ _ _ Hfirst Hbad).
    + intros tg p i name ty Hvid Hfirst Hname Hneg. unfold exits_with.
      rewrite Hrun. apply bind_Exit.
      exact (Vertex_validateAndReset_negative _ _ _ _ _ _ _ _ Hvid Hfirst Hname Hneg).
Qed.

(** C6 (amended).  Resolution does not fail on an absent body or on a nil
    entry.  A schema of type edge without an edge body, or of type vertex
    without a vertex body, resolves to itself, the absence being logged at
    the info level.  A vertex or an edge that is accepted apart from nil
    entries resolves, and every nil tag and nil prop is still nil in the
    result. *)
Theorem absent_entries_are_skipped (prefix : string) (l : Log) :
  (forall s t, Schema_Type s = Some t -> ToLower t = "edge" ->
     Schema_Edge s = None ->
     Schema_validateAndReset prefix s l
     = (Val s, (l ++ [mkEntry INFO "%s.edge is nil" [Shown (AStr prefix)]])%list))
  /\ (forall s t, Schema_Type s = Some t -> ToLower t = "vertex" ->
     Schema_Vertex s = None ->
     Schema_validateAndReset prefix s l
     = (Val s, (l ++ [mkEntry INFO "%s.vertex is nil" [Shown (AStr prefix)]])%list))
  /\ (forall v, valid_vertex v ->
     exists v' l',
       Vertex_validateAndReset prefix v l = (Val v', l')
       /\ (forall k, nth_error (Vertex_Tags v) k = Some None ->
             nth_error (Vertex_Tags v') k = Some None)
       /\ (forall k, nth_error (all_props (Vertex_Tags v)) k = Some None ->
             nth_error (all_props (Vertex_Tags v')) k = Some None))
  /\ (forall e, valid_edge e ->
     exists e' l',
       Edge_validateAndReset prefix e l = (Val e', l')
       /\ (forall k, nth_error (Edge_Props e) k = Some None ->
             nth_error (Edge_Props e') k = Some None)).
Proof.
  split; [| split; [| split]].
  - intros s t Ht Hl He. unfold Schema_validateAndReset. rewrite Ht. cbn [deref].
    unfold bind at 1. cbn [ret]. rewrite Hl, He. reflexivity.
  - intros s t Ht Hl Hv. unfold Schema_validateAndReset. rewrite Ht. cbn [deref].
    unfold bind at 1. cbn [ret]. rewrite Hl, Hv. reflexivity.
  - intros v Hv.
    destruct (Vertex_validateAndReset_valid prefix v l Hv) as (l' & E).
    eexists _, l'. split; [exact E |]. cbn [Vertex_Tags]. split.
    + intros k Hk. apply resolved_tags_nth_nil. exact Hk.
    + intros k Hk. rewrite all_props_resolved, resolved_props_nth, Hk. reflexivity.
  - intros e He.
    destruct (Edge_validateAndReset_valid prefix e l He) as (l' & E).
    eexists _, l'. split; [exact E |]. cbn [Edge_Props].
    intros k Hk. rewrite resolved_props_nth, Hk. reflexivity.
Qed.

End Properties.

(** * Evaluations on concrete inputs *)

(** ** The compile scenarios *)

(** C1.  The edge compile scenario, and the edge of the README.  On the
    scenario record the prop cell 9.5 has no second field and reading it
    panics; no statement is returned.  The edge [choose] of the README
    resolves with a destination column, column 1, which the header line
    names, and its data row 200,101,5 panics in the same way.  Where a
    statement is returned, the destination in it is the first field of
    the prop cell: the cell of the destination column is never read, so
    the statement is the same whatever that cell holds. *)
Theorem Edge_FormatValues_misses_DstVID :
  Edge_FormatValues (rt:=rt0) scenario_edge ["A"; "5"; "0"; "9.5"] []
  = (Panic (IndexOutOfRange 1 1), [])
  /\ (exists e' l',
        Edge_validateAndReset (rt:=rt0) "s.edge" readme_edge [] = (Val e', l')
        /\ vid_index (Edge_DstVID e') = Some 1
        /\ Edge_String (rt:=rt0) (hd:=hd0) e' []
           = (Val ":SRC_VID,:DST_VID,choose.grade:int", [])
        /\ Edge_FormatValues (rt:=rt0) e' ["200"; "101"; "5"] []
           = (Panic (IndexOutOfRange 1 1), []))
  /\ (forall dst,
        Edge_FormatValues (rt:=rt0) scenario_edge ["A"; dst; "0"; "7#9.5"] []
        = (Val (" hash(" ++ quoted "A" ++ ")->7@0:(9.5) "), [])).
Proof.
  split; [vm_compute; reflexivity |]. split.
  - eexists _, _. split; [vm_compute; reflexivity |].
    split; [reflexivity |]. split; vm_compute; reflexivity.
  - intros dst. vm_compute. reflexivity.
Qed.

(** X21, witness: a record whose prop cell holds two rows compiles to two
    statements. *)
Lemma Edge_FormatValues_statement_witness :
  Edge_FormatValues (rt:=rt0) scenario_edge ["A"; "5"; "0"; "5#9.5&7#1.25"] []
  = (Val (" hash(" ++ quoted "A" ++ ")->5@0:(9.5) , hash(" ++ quoted "A"
          ++ ")->7@0:(1.25) "), []).
Proof.
  refine (@Edge_FormatValues_statement rt0 scenario_edge
            ["A"; "5"; "0"; "5#9.5&7#1.25"]
            (mkVID (Some 0) (Some "hash")) 0 "A" "@0"
            (mkProp (Some "likeness") (Some "double") (Some 3)) [] 3 "5#9.5&7#1.25"
            eq_refl eq_refl eq_refl eq_refl eq_refl eq_refl eq_refl _ []).
  vm_compute. repeat (constructor; [lia |]). constructor.
Defined.

(** C3, witness of the amended statement: the vertex compile scenario. *)
Lemma Vertex_FormatValues_statement_witness :
  exists v' l',
    Vertex_validateAndReset (rt:=rt0) "s.vertex" scenario_vertex [] = (Val v', l')
    /\ Vertex_FormatValues (rt:=rt0) v' ["101"; "Mary"; "19"] []
       = (Val (" 101: (" ++ quoted "Mary" ++ ",19)"), []).
Proof.
  destruct (@Vertex_FormatValues_statement rt0 "s.vertex" scenario_vertex [])
    as (v' & l' & E & H).
  { split.
    - intros vid Hv. inversion Hv; subst. split.
      + intros i Hi. inversion Hi. lia.
      + intros f Hf. discriminate Hf.
    - repeat (apply Forall_cons; [| try apply Forall_nil]).
      intros t Ht. inversion Ht; subst. split; [discriminate |].
      repeat (apply Forall_cons; [| try apply Forall_nil]);
        intros p Hp; inversion Hp; subst;
        (split; [eexists; split; reflexivity | intros i Hi; inversion Hi; lia]). }
  exists v', l'. split; [exact E |].
  vm_compute in E. injection E as <- _.
  destruct (H ["101"; "Mary"; "19"]) as (vid & i & c & cells & Hv & Hi & Hc & Hcells & _ & Hflat).
  { split.
    - repeat (apply Forall_cons; [| try apply Forall_nil]).
      eexists. split; [reflexivity |].
      repeat (apply Forall_cons; [| try apply Forall_nil]); discriminate.
    - split; [repeat (apply Forall_cons; [vm_compute; reflexivity |]); apply Forall_nil |].
      split; [intros vid Hv; inversion Hv; discriminate |].
      repeat (apply Forall_cons; [| try apply Forall_nil]);
        intros p t Hp Ht; inversion Hp; subst; inversion Ht; subst;
        intros Hd; vm_compute in Hd; discriminate Hd. }
  inversion Hv; subst vid. inversion Hi; subst i. cbn in Hc. inversion Hc; subst c.
  inversion Hcells as [| ? cs ? rest (t & Et & Hprops) Hrest]; subst.
  inversion Hrest; subst. inversion Et; subst t. cbn [Tag_Props] in Hprops.
  inversion Hprops as [| ? s1 ? r1 (p1 & E1 & H1) Hp2]; subst.
  inversion Hp2 as [| ? s2 ? r2 (p2 & E2 & H2) Hp3]; subst.
  inversion Hp3; subst. inversion E1; subst p1. inversion E2; subst p2.
  specialize (H1 []). vm_compute in H1. injection H1 as <-.
  specialize (H2 []). vm_compute in H2. injection H2 as <-.
  refine (Hflat _ []).
  repeat (apply Forall_cons; [| try apply Forall_nil]).
  intros t Ht. inversion Ht; subst. discriminate.
Defined.

(** C3, counterexample: the text returned for the vertex compile scenario
    begins with a space, so it is not the text of the claim.  A resolved
    schema may hold nil entries: with the resolution of [raw_vertex] and a
    record of ten cells no text is returned, the compiler panics.  A tag
    without props leaves an empty segment between the commas, so the
    text is not the flat list of the prop values.  And a VID whose
    generator is the empty string, which resolution accepts, is rendered
    as a call without a name. *)
Lemma Vertex_FormatValues_scenario_space :
  (Vertex_FormatValues (rt:=rt0) scenario_vertex ["101"; "Mary"; "19"] []
   = (Val (" 101: (" ++ quoted "Mary" ++ ",19)"), [])
   /\ Vertex_FormatValues (rt:=rt0) scenario_vertex ["101"; "Mary"; "19"] []
      <> (Val ("101: (" ++ quoted "Mary" ++ ",19)"), []))
  /\ (exists v' l',
        Vertex_validateAndReset (rt:=rt0) "s.vertex" raw_vertex [] = (Val v', l')
        /\ Vertex_FormatValues (rt:=rt0) v' ten_cells []
           = (Panic NilDereference, []))
  /\ ((exists l', Vertex_validateAndReset (rt:=rt0) "s.vertex" empty_tag_vertex []
                  = (Val empty_tag_vertex, l'))
      /\ Vertex_FormatValues (rt:=rt0) empty_tag_vertex ["101"; "Mary"] []
         = (Val (" 101: (" ++ quoted "Mary" ++ ",)"), []))
  /\ ((exists l', Vertex_validateAndReset (rt:=rt0) "s.vertex"
                    nameless_generator_vertex []
                  = (Val nameless_generator_vertex, l'))
      /\ Vertex_FormatValues (rt:=rt0) nameless_generator_vertex ["101"] []
         = (Val (" (" ++ quoted "101" ++ "): ()"), [])).
Proof.
  split; [split; [vm_compute; reflexivity | vm_compute; discriminate] |].
  split; [eexists _, _; split; vm_compute; reflexivity |].
  split; (split; [eexists; vm_compute; reflexivity | vm_compute; reflexivity]).
Qed.

(** C2, witness of the amended statement: the out-of-range scenario, a
    prop at index 5 and a record of two cells. *)
Lemma out_of_range_prop_is_fatal_witness :
  Prop_FormatValue (rt:=rt0) far_prop ["101"; "Mary"] []
  = (Err "Prop index 5 out range 2 of record([101 Mary])", [])
  /\ Vertex_FormatValues (rt:=rt0) far_vertex ["101"; "Mary"] []
     = (Exit, [fatal_entry far_tag "Prop index 5 out range 2 of record([101 Mary])"]).
Proof.
  destruct (@out_of_range_prop_is_fatal rt0 far_prop ["101"; "Mary"] 5 eq_refl)
    as (Hprop & _ & Hvertex).
  - vm_compute. discriminate.
  - split.
    + exact (Hprop []).
    + exact (Hvertex far_vertex far_tag [] [] [] [] [] [] [] eq_refl
               (Forall2_nil _) eq_refl (Forall2_nil _)).
Defined.

(** C2, counterexample: the record of the out-of-range scenario is not
    rejected alone, the process exits; and a VID column beyond the record
    is a panic, not an error. *)
Lemma out_of_range_aborts :
  fst (Vertex_FormatValues (rt:=rt0) far_vertex ["101"; "Mary"] []) = Exit
  /\ fst (Vertex_FormatValues (rt:=rt0) far_vid_vertex ["101"; "Mary"] [])
     = Panic (IndexOutOfRange 7 2).
Proof.
  split; vm_compute; reflexivity.
Qed.

(** ** Resolution of raw schemas *)

Ltac accept_prop :=
  let E := fresh "E" in
  let Hi := fresh "Hi" in
  intros ? E; first
    [ discriminate E
    | inversion E; subst; split;
      [ eexists; split; reflexivity
      | intros ? Hi; cbn in Hi; first [discriminate Hi | inversion Hi; lia] ] ].

Ltac accept_props :=
  unfold valid_props; cbn;
  repeat (apply Forall_cons; [accept_prop |]); apply Forall_nil.

Ltac accept_tag :=
  let E := fresh "E" in
  intros ? E; first
    [ discriminate E
    | inversion E; subst; split; [discriminate | accept_props] ].

Lemma raw_vertex_valid : valid_vertex (rt:=rt0) raw_vertex.
Proof.
  split.
  - intros vid E. discriminate E.
  - cbn. repeat (apply Forall_cons; [accept_tag |]). apply Forall_nil.
Defined.

Lemma raw_edge_valid : valid_edge (rt:=rt0) raw_edge.
Proof.
  split; [discriminate |]. split; [intros v E; discriminate E |].
  split; [intros v E; discriminate E |].
  split; [intros r i E; discriminate E |].
  accept_props.
Defined.

(** C4, witness: a raw vertex and a raw edge without indices.  The third
    entry of the first tag gets column 3 (the nil entry before it keeps
    its position), the given index 9 is kept, and the props of the edge
    start at column 3 because ranking is requested. *)
Lemma default_column_assignment_witness :
  (exists v' l',
     Vertex_validateAndReset (rt:=rt0) "s.vertex" raw_vertex [] = (Val v', l')
     /\ vid_index (Vertex_VID v') = Some 0
     /\ (exists p', nth_error (all_props (Vertex_Tags v')) 2 = Some (Some p')
                    /\ Prop_Index p' = Some 3)
     /\ (exists p', nth_error (all_props (Vertex_Tags v')) 3 = Some (Some p')
                    /\ Prop_Index p' = Some 9))
  /\ (exists e' l',
        Edge_validateAndReset (rt:=rt0) "s.edge" raw_edge [] = (Val e', l')
        /\ vid_index (Edge_SrcVID e') = Some 0
        /\ vid_index (Edge_DstVID e') = Some 1
        /\ Edge_Rank e' = Some (mkRank (Some 2))
        /\ (exists p', nth_error (Edge_Props e') 1 = Some (Some p')
                       /\ Prop_Index p' = Some 4)).
Proof.
  split.
  - destruct (proj1 (@default_column_assignment rt0 "s.vertex" [])
                raw_vertex raw_vertex_valid) as (v' & l' & E & Hvid & Hprops).
    exists v', l'. split; [exact E |]. split; [exact Hvid |]. split.
    + exact (Hprops 2%nat (mkProp (Some "age") (Some "int") None) eq_refl).
    + exact (Hprops 3%nat (mkProp (Some "credits") (Some "int") (Some 9)) eq_refl).
  - destruct (proj2 (@default_column_assignment rt0 "s.edge" [])
                raw_edge raw_edge_valid)
      as (e' & l' & E & Hsrc & Hdst & Hrank & Hprops).
    exists e', l'. split; [exact E |]. split; [exact Hsrc |].
    split; [exact Hdst |]. split; [exact Hrank |].
    exact (Hprops 1%nat (mkProp (Some "since") (Some "int") None) eq_refl).
Defined.

(** C5, witness of the amended statement: an unknown discriminator is
    returned as an error, and the negative prop index of
    [negative_prop_schema] ends the process. *)
Lemma resolution_rejections_witness :
  Schema_validateAndReset (rt:=rt0) "s" (mkSchema (Some "graph") None None) []
  = (Err "Error schema type(graph) in s.type only edge and vertex are supported", [])
  /\ exits_with (Schema_validateAndReset (rt:=rt0) "s" negative_prop_schema) []
       (negative_index_entry (-1) "age" "int").
Proof.
  split.
  - apply (proj1 (@resolution_rejections rt0 "s" (mkSchema (Some "graph") None None)
                    "graph" [] eq_refl)); vm_compute; discriminate.
  - refine (proj2 (proj2 (proj2 (proj2
              (@resolution_rejections rt0 "s" negative_prop_schema "vertex" [] eq_refl))
              _ eq_refl eq_refl))
              (mkTag (Some "student")
                 [Some (mkProp (Some "name") (Some "string") None);
                  Some (mkProp (Some "age") (Some "int") (Some (-1)))])
              (mkProp (Some "age") (Some "int") (Some (-1)))
              (-1) "age" "int" _ _ _ _).
    + intros vid E. discriminate E.
    + exists [], []. split; [reflexivity |]. split; [constructor |].
      exists [Some (mkProp (Some "name") (Some "string") None)], [].
      split; [reflexivity |]. accept_props.
    + discriminate.
    + repeat split.
Defined.

(** C5, counterexample: a negative index given for a prop is not returned
    as an error, the process exits; and a schema without a type
    discriminator is not returned as an error either, resolution panics. *)
Lemma negative_prop_index_exits :
  fst (Schema_validateAndReset (rt:=rt0) "s" negative_prop_schema []) = Exit
  /\ fst (Schema_validateAndReset (rt:=rt0) "s" untyped_schema [])
     = Panic NilDereference.
Proof.
  split; vm_compute; reflexivity.
Qed.

(** C6, witness of the amended statement: the bodiless edge schema
    resolves to itself, and the nil tag and the nil prop of [raw_vertex]
    are still nil after resolution. *)
Lemma absent_entries_are_skipped_witness :
  Schema_validateAndReset (rt:=rt0) "s" bodiless_schema []
  = (Val bodiless_schema, [mkEntry INFO "%s.edge is nil" [Shown (AStr "s")]])
  /\ (exists v' l',
        Vertex_validateAndReset (rt:=rt0) "s.vertex" raw_vertex [] = (Val v', l')
        /\ nth_error (Vertex_Tags v') 1 = Some None
        /\ nth_error (all_props (Vertex_Tags v')) 1 = Some None).
Proof.
  split.
  - exact (proj1 (@absent_entries_are_skipped rt0 "s" [])
             bodiless_schema "edge" eq_refl eq_refl eq_refl).
  - destruct (proj1 (proj2 (proj2 (@absent_entries_are_skipped rt0 "s.vertex" [])))
                raw_vertex raw_vertex_valid) as (v' & l' & E & Htags & Hprops).
    exists v', l'. split; [exact E |]. split.
    + exact (Htags 1%nat eq_refl).
    + exact (Hprops 1%nat eq_refl).
Defined.

(** C6, counterexample: a schema of type edge whose edge body is absent is
    resolved without an error and its edge is still absent; so is a
    vertex with a nil tag and a nil prop. *)
Lemma bodiless_schema_resolves :
  (exists l', Schema_validateAndReset (rt:=rt0) "s" bodiless_schema []
              = (Val bodiless_schema, l'))
  /\ Schema_Edge bodiless_schema = None
  /\ (exists v' l', Vertex_validateAndReset (rt:=rt0) "s.vertex" raw_vertex []
                    = (Val v', l')
                    /\ nth_error (Vertex_Tags v') 1 = Some None).
Proof.
  split; [eexists; vm_compute; reflexivity |].
  split; [reflexivity |].
  eexists _, _. split; vm_compute; reflexivity.
Qed.

(** ** Values, determinism, Parse and the defaults *)




(** C9, witness: a configuration whose version is v0, not v1rc2, is not
    rejected by [Parse], which goes on to validate it; a configuration
    without a version makes [Parse] panic. *)
Lemma Parse_version_check_witness :
  (Parse_version_guard student_config [] = (Val false, [])
   /\ Parse (rt:=rt_student) "/conf/importer.yaml" []
      = YAMLConfig_ValidateAndReset (rt:=rt_student) "/conf" student_config [])
  /\ (Parse_version_guard typeless_config []
      = (Panic NilDereference, [])
      /\ Parse (rt:=rt_typeless) "/conf/importer.yaml" []
         = (Panic NilDereference, [])).
Proof.
  split.
  - exact (proj1 (@Parse_version_check rt_student "/conf/importer.yaml"
                    "/conf/importer.yaml" student_config [] eq_refl eq_refl)
             "v0" eq_refl).
  - exact (proj2 (@Parse_version_check rt_typeless "/conf/importer.yaml"
                    "/conf/importer.yaml" typeless_config [] eq_refl eq_refl)
             eq_refl).
Defined.

(** C10, witness of the amended statement: [student_config] passes
    validation with its concurrency kept and the absent settings filled
    in, and a configuration without clientSettings is an error. *)
Lemma ValidateAndReset_defaults_witness :
  (exists config' l' n',
     YAMLConfig_ValidateAndReset (rt:=rt_student) "/conf" student_config []
     = (Val config', l')
     /\ Cfg_NebulaClientSettings config' = Some n'
     /\ NCS_Retry n' = Some 1 /\ NCS_Concurrency n' = Some 4
     /\ NCS_ChannelBufferSize n' = Some 128
     /\ Cfg_LogPath config' = Some "/tmp/nebula-importer.log"
     /\ Forall2 file_resolved (Cfg_Files student_config) (Cfg_Files config'))
  /\ YAMLConfig_ValidateAndReset (rt:=rt0) "/conf"
       (mkYAMLConfig None None None None []) []
     = (Err "please configure clientSettings", []).
Proof.
  split.
  - destruct (YAMLConfig_ValidateAndReset (rt:=rt_student) "/conf" student_config [])
      as [[config' | e | | p] l'] eqn:E; try (vm_compute in E; discriminate E).
    destruct (proj1 (@ValidateAndReset_defaults rt_student "/conf" student_config [])
                config' l' E)
      as (n & n' & Hn & Hn' & Hres & Hlog & _ & Hfiles).
    exists config', l', n'. split; [reflexivity |]. split; [exact Hn' |].
    inversion Hn; subst n.
    destruct Hres as (Hretry & Hconc & Hbuf & _).
    split; [exact Hretry |]. split; [exact Hconc |]. split; [exact Hbuf |].
    split; [exact Hlog | exact Hfiles].
  - exact (proj1 (proj2 (@ValidateAndReset_defaults rt0 "/conf"
                           (mkYAMLConfig None None None None []) [])) eq_refl).
Defined.

(** C10, counterexample: the path of [student_file] is present and is
    overwritten, by its join with the directory of the configuration; and
    a file entry without a schema, when it has no type either, does not
    make validation return an error, validation panics. *)
Lemma present_path_is_overwritten :
  (exists config' l' f',
     YAMLConfig_ValidateAndReset (rt:=rt_student) "/conf" student_config []
     = (Val config', l')
     /\ Cfg_Files config' = [Some f']
     /\ File_Path student_file = Some "student.csv"
     /\ File_Path f' = Some "/conf/student.csv")
  /\ File_Schema typeless_file = None
  /\ fst (YAMLConfig_ValidateAndReset (rt:=rt_typeless) "/conf" typeless_config [])
     = Panic NilDereference.
Proof.
  split.
  - eexists _, _, _. split; [vm_compute; reflexivity |].
    split; [reflexivity |]. split; reflexivity.
  - split; [reflexivity | vm_compute; reflexivity].
Qed.

(** * Further properties of the package *)

Ltac split_hyp H :=
  match type of H with
  | context [match ?x with _ => _ end] =>
      lazymatch x with
      | context [match _ with _ => _ end] => fail
      | _ => destruct x eqn:?
      end
  end.

Ltac split_goal :=
  match goal with
  | |- context [match ?x with _ => _ end] =>
      lazymatch x with
      | context [match _ with _ => _ end] => fail
      | _ => destruct x eqn:?
      end
  end.

Ltac open_run :=
  cbv [bind ret fail throw lift deref on_error
       logger_Warnf logger_Infof logger_Errorf logger_Fatalf log_at].

Ltac open_run_in H :=
  cbv [bind ret fail throw lift deref on_error
       logger_Warnf logger_Infof logger_Errorf logger_Fatalf log_at] in H.

Section Validation.
Context {rt : Runtime}.

(** ** Validation of the configuration *)

(** X1.  Validating client settings that were already validated returns
    them unchanged and writes nothing to the log: every default is filled
    in once. *)
Theorem NebulaClientSettings_validateAndReset_twice (prefix prefix' : string)
    (n n' : NebulaClientSettings) (l l' l2 : Log) :
  NebulaClientSettings_validateAndReset prefix n l = (Val n', l') ->
  NebulaClientSettings_validateAndReset prefix' n' l2 = (Val n', l2).
Proof.
  intros H.
  destruct (NCS_Space n) as [sp |] eqn:Hsp.
  2:{ unfold NebulaClientSettings_validateAndReset in H. rewrite Hsp in H.
      discriminate H. }
  destruct (NCS_Connection n) as [c |] eqn:Hc.
  2:{ unfold NebulaClientSettings_validateAndReset in H. rewrite Hsp, Hc in H.
      open_run_in H. repeat (split_hyp H; try discriminate). }
  destruct (NebulaClientSettings_validateAndReset_val prefix n c l) as (l1 & E);
    [congruence | exact Hc |].
  rewrite E in H. inversion H; subst n' l'. rewrite Hsp. reflexivity.
Qed.

(** X2.  [CSVConfig.validateAndReset] returns an error exactly when the
    delimiter is given and empty; otherwise withHeader and withLabel are
    the given values or false, and the delimiter is kept, given or not. *)
Theorem CSVConfig_validateAndReset_delimiter (prefix : string) (c : CSVConfig)
    (l : Log) :
  (CSV_Delimiter c = Some EmptyString ->
   exists l', CSVConfig_validateAndReset prefix c l
              = (Err (prefix ++ ".delimiter is empty string"), l'))
  /\ (CSV_Delimiter c <> Some EmptyString ->
      exists l', CSVConfig_validateAndReset prefix c l
                 = (Val (mkCSVConfig (Some (or_default (CSV_WithHeader c) false))
                           (Some (or_default (CSV_WithLabel c) false))
                           (CSV_Delimiter c)), l')).
Proof.
  unfold CSVConfig_validateAndReset. split.
  - intros Hd. rewrite Hd. cbn [String.length Nat.eqb].
    destruct (CSV_WithHeader c), (CSV_WithLabel c); open_run;
      cbv [fmt_Errorf]; cbn; eexists; reflexivity.
  - intros Hd. destruct (CSV_Delimiter c) as [[| a d] |].
    + contradiction.
    + cbn [String.length Nat.eqb].
      destruct (CSV_WithHeader c), (CSV_WithLabel c); open_run;
        eexists; reflexivity.
    + destruct (CSV_WithHeader c), (CSV_WithLabel c); open_run;
        eexists; reflexivity.
Qed.

Lemma CSVConfig_validateAndReset_outcomes (prefix : string) (c : CSVConfig) (l : Log) :
  (exists c' l', CSVConfig_validateAndReset prefix c l = (Val c', l'))
  \/ returns_error (CSVConfig_validateAndReset prefix c) l.
Proof.
  unfold returns_error, CSVConfig_validateAndReset. open_run.
  repeat split_goal; first [left; eexists _, _; reflexivity
                           | right; eexists _, _; reflexivity].
Qed.

(** X3.  [File.validateAndReset] returns an error for a file whose type is
    given and is not csv (in any letter case), and for a path that exists
    neither as given nor joined with the directory of the configuration;
    the latter error names the path as given. *)
Theorem File_validateAndReset_rejects (dir prefix : string) (f : File) (l : Log) :
  (forall ty, File_Type f = Some ty -> ToLower ty <> "csv" ->
     returns_error (File_validateAndReset dir prefix f) l)
  /\ (forall given, File_Path f = Some given ->
        PathExists given = false ->
        PathExists (filepath_Join [dir; given]) = false ->
        File_validateAndReset dir prefix f l
        = (Err ("File(" ++ given ++ ") doesn't exist"), l)).
Proof.
  split.
  - intros ty Hty Hcsv. unfold returns_error, File_validateAndReset.
    rewrite Hty. open_run.
    destruct (String.eqb_spec (ToLower ty) "csv") as [E | _]; [contradiction |].
    cbn [negb]. repeat split_goal; eexists _, _; reflexivity.
  - intros given Hp He Hj. unfold File_validateAndReset.
    rewrite Hp, He. cbn [negb]. rewrite Hj. cbn [negb].
    unfold bind, fail, fmt_Errorf. cbn. reflexivity.
Qed.

(** X4.  A file that passes validation has a path that exists: the given
    one, or else its join with the directory.  Its list of paths is what
    [PathFileList] gives for that path, its failDataPath is the given one
    or else [err/<base of the path>] under the absolute directory of the
    path, its limit and type are the given ones and the type is csv in
    lower case, and its schema is the given schema resolved. *)
Theorem File_validateAndReset_result (dir prefix : string) (f f' : File)
    (l l' : Log) :
  File_validateAndReset dir prefix f l = (Val f', l') ->
  exists given path ty s s',
    File_Path f = Some given
    /\ path = (if PathExists given then given else filepath_Join [dir; given])
    /\ PathExists path = true
    /\ File_Path f' = Some path
    /\ File_Paths f' = PathFileList path
    /\ (forall p, File_FailDataPath f = Some p -> File_FailDataPath f' = Some p)
    /\ (File_FailDataPath f = None ->
        exists d, filepath_Abs (filepath_Dir path) = Success d
                  /\ File_FailDataPath f'
                     = Some (filepath_Join [d; "err"; filepath_Base path]))
    /\ File_Limit f' = File_Limit f
    /\ File_Type f = Some ty /\ File_Type f' = Some ty /\ ToLower ty = "csv"
    /\ File_Schema f = Some s /\ File_Schema f' = Some s'
    /\ exists l1 l2,
         Schema_validateAndReset (prefix ++ ".schema") s l1 = (Val s', l2).
Proof.
  intros H. unfold File_validateAndReset in H.
  destruct (File_Path f) as [given |]; [| discriminate H].
  apply bind_Val_inv in H as (path & l0 & Hrun & H). cbv zeta in H.
  apply bind_Val_inv in H as (fdp & l1 & Hfdp & H).
  apply bind_Val_inv in H as (bs & l2 & Hbs & H).
  apply bind_Val_inv in H as (ty & l3 & Hty & H).
  destruct (String.eqb (ToLower ty) "csv") eqn:Hcsv; cbn [negb] in H;
    [| discriminate H].
  apply String.eqb_eq in Hcsv.
  apply bind_Val_inv in H as (csv & l4 & Hcsv' & H).
  destruct (File_Schema f) as [s |]; [| discriminate H].
  apply bind_Val_inv in H as (s' & l5 & Hs' & H).
  inversion H; subst f' l'. cbn.
  destruct (File_Type f) as [ty0 |]; [| discriminate Hty].
  inversion Hty; subst ty0 l3.
  assert (Hpath : path = (if PathExists given then given
                          else filepath_Join [dir; given])
                  /\ PathExists path = true /\ l0 = l).
  { destruct (PathExists given) eqn:He; cbn [negb] in Hrun.
    - inversion Hrun; subst. repeat split. exact He.
    - destruct (PathExists (filepath_Join [dir; given])) eqn:Hj;
        cbn [negb] in Hrun; [| discriminate Hrun].
      inversion Hrun; subst. repeat split. exact Hj. }
  destruct Hpath as (Hpath & Hex & ->).
  exists given, path, ty, s, s'.
  split; [reflexivity |]. split; [exact Hpath |]. split; [exact Hex |].
  split; [reflexivity |]. split; [reflexivity |].
  split.
  { intros p Hp. rewrite Hp in Hfdp. inversion Hfdp. reflexivity. }
  split.
  { intros Hnone. rewrite Hnone in Hfdp.
    destruct (filepath_Abs (filepath_Dir path)) as [d | e] eqn:Habs;
      open_run_in Hfdp; [| discriminate Hfdp].
    exists d. split; [reflexivity |]. inversion Hfdp. reflexivity. }
  split; [reflexivity |]. split; [reflexivity |]. split; [reflexivity |].
  split; [exact Hcsv |]. split; [reflexivity |]. split; [reflexivity |].
  exists l4, l5.
  replace (prefix ++ ".schema") with (Sprintf "%s.schema" [AStr prefix]);
    [exact Hs' | reflexivity].
Qed.

Lemma ValidateAndReset_range_populated (dir : string)
    (files files' : list (option File)) (i : Z) (l l' : Log) :
  ValidateAndReset_range dir i files l = (Val files', l') ->
  Forall populated_file files'.
Proof.
  revert files' i l l'. induction files as [| fe files IH]; intros files' i l l' H.
  - cbn in H. inversion H. constructor.
  - cbn [ValidateAndReset_range] in H.
    apply bind_Val_inv in H as (f & l1 & Hf & H).
    apply bind_Val_inv in H as (f' & l2 & Hf' & H).
    apply bind_Val_inv in H as (rest' & l3 & Hrest & H).
    inversion H; subst files' l'. constructor.
    + destruct (File_validateAndReset_result _ _ _ _ _ _ Hf')
        as (given & path & ty & s & s' & _ & _ & _ & Hp & _ & Hgiven & Hnone & _
            & _ & Hty & _ & _ & Hs & _).
      exists f'. split; [reflexivity |].
      split; [congruence |]. split.
      { destruct (File_FailDataPath f) as [p |] eqn:Hfd.
        - rewrite (Hgiven p eq_refl). discriminate.
        - destruct (Hnone eq_refl) as (d & _ & E). rewrite E. discriminate. }
      pose proof (File_validateAndReset_val _ _ _ _ _ _ Hf') as (_ & _ & Hb & Ho).
      split; [congruence |]. split; [congruence |].
      split; congruence.
    + exact (IH _ _ _ _ Hrest).
Qed.

(** X5.  Whatever [YAMLConfig.ValidateAndReset] lets pass is fully
    populated: the client settings with retry, concurrency,
    channelBufferSize, space and a connection with user, password and
    address, the logPath, and at least one file, every file entry being
    present with path, failDataPath, batchSize, inOrder, type and schema.
    The same holds for every configuration that [Parse] returns. *)
Theorem validated_config_is_populated (dir filename : string)
    (config config' : YAMLConfig) (l l' : Log) :
  (YAMLConfig_ValidateAndReset dir config l = (Val config', l') ->
   populated_config config')
  /\ (Parse filename l = (Val config', l') -> populated_config config').
Proof.
  assert (Hval : forall d c c' l0 l1,
            YAMLConfig_ValidateAndReset d c l0 = (Val c', l1) -> populated_config c').
  { intros d c c' l0 l1 H.
    destruct (YAMLConfig_ValidateAndReset_val _ _ _ _ _ H)
      as (n & n' & _ & Hn' & Hres & Hlog & _ & _).
    unfold YAMLConfig_ValidateAndReset in H.
    destruct (Cfg_NebulaClientSettings c) as [n0 |]; [| discriminate H].
    apply bind_Val_inv in H as (n1 & l2 & Hn1 & H).
    apply bind_Val_inv in H as (logPath & l3 & Hlp & H).
    destruct (len (Cfg_Files c) =? 0) eqn:Hlen; [discriminate H |].
    apply bind_Val_inv in H as (files' & l4 & Hfiles & H).
    inversion H; subst c' l1. cbn in *.
    split.
    { exists n'. split; [exact Hn' |].
      destruct Hres as (Hr & Hc & Hb & Hsp & Hsp' & c0 & c1 & Hc0 & Hc1 & Ha & Hu & Hp).
      unfold populated_settings.
      rewrite Hr, Hc, Hb, Hsp', Hc1.
      repeat (split; [first [discriminate | exact Hsp] |]).
      exists c1. rewrite Ha, Hu, Hp. repeat split; discriminate. }
    split; [discriminate |].
    split.
    { intros E. cbn in E. subst files'.
      destruct (Cfg_Files c) as [| fe rest]; [discriminate Hlen |].
      cbn [ValidateAndReset_range] in Hfiles.
      apply bind_Val_inv in Hfiles as (f & l5 & _ & Hfiles).
      apply bind_Val_inv in Hfiles as (f' & l6 & _ & Hfiles).
      apply bind_Val_inv in Hfiles as (rest' & l7 & _ & Hfiles).
      discriminate Hfiles. }
    exact (ValidateAndReset_range_populated _ _ _ _ _ _ Hfiles). }
  split.
  - apply Hval.
  - intros H. unfold Parse in H.
    apply bind_Val_inv in H as (content & l1 & _ & H).
    apply bind_Val_inv in H as (conf & l2 & _ & H).
    apply bind_Val_inv in H as (reject & l3 & _ & H).
    destruct reject; [discriminate H |].
    apply bind_Val_inv in H as (path & l4 & _ & H).
    exact (Hval _ _ _ _ _ H).
Qed.

(** X6.  A nil entry in the files list is not reported as an error.  When
    it is the first entry and the client settings are accepted, validation
    panics on it; and when validation passes with the entries before it
    alone, validation with the nil entry after them panics. *)
Theorem nil_file_entry_panics (dir : string) (version description : option string)
    (settings : option NebulaClientSettings) (logPath : option string)
    (before after : list (option File)) (l : Log) :
  (forall n c, settings = Some n -> NCS_Space n <> None ->
     NCS_Connection n = Some c ->
     exists l',
       YAMLConfig_ValidateAndReset dir
         (mkYAMLConfig version description settings logPath (None :: after)) l
       = (Panic NilDereference, l'))
  /\ (forall config' l',
        YAMLConfig_ValidateAndReset dir
          (mkYAMLConfig version description settings logPath before) l
        = (Val config', l') ->
        exists l'',
          YAMLConfig_ValidateAndReset dir
            (mkYAMLConfig version description settings logPath
               (before ++ None :: after)) l
          = (Panic NilDereference, l'')).
Proof.
  assert (Hrange : forall bs bs' i l0 l1,
            ValidateAndReset_range dir i bs l0 = (Val bs', l1) ->
            ValidateAndReset_range dir i (bs ++ None :: after) l0
            = (Panic NilDereference, l1)).
  { induction bs as [| fe bs IH]; intros bs' i l0 l1 Hbs.
    - cbn in Hbs. inversion Hbs. reflexivity.
    - cbn [app ValidateAndReset_range] in *.
      apply bind_Val_inv in Hbs as (f & l2 & Hf & Hbs).
      apply bind_Val_inv in Hbs as (f' & l3 & Hf' & Hbs).
      apply bind_Val_inv in Hbs as (rest' & l4 & Hrest & Hbs).
      inversion Hbs; subst bs' l1.
      unfold bind at 1. rewrite Hf. unfold bind at 1. rewrite Hf'.
      unfold bind at 1. rewrite (IH _ _ _ _ Hrest). reflexivity. }
  split.
  - intros n c Hs Hsp Hc. subst settings.
    unfold YAMLConfig_ValidateAndReset. cbn [Cfg_NebulaClientSettings Cfg_LogPath Cfg_Files].
    destruct (NebulaClientSettings_validateAndReset_val "clientSettings" n c l Hsp Hc)
      as (l1 & E).
    unfold bind at 1. rewrite E.
    destruct logPath; open_run; cbn; eexists; reflexivity.
  - intros config' l' H. unfold YAMLConfig_ValidateAndReset in *.
    cbn [Cfg_NebulaClientSettings Cfg_LogPath Cfg_Files] in *.
    destruct settings as [n |]; [| discriminate H].
    apply bind_Val_inv in H as (n' & l1 & Hn & H).
    apply bind_Val_inv in H as (lp & l2 & Hlp & H).
    destruct (len before =? 0) eqn:Hlen; [discriminate H |].
    apply bind_Val_inv in H as (files' & l3 & Hfiles & H).
    unfold bind at 1. rewrite Hn. unfold bind at 1. rewrite Hlp.
    assert (Hlen' : (len (before ++ None :: after) =? 0) = false).
    { destruct before; [discriminate Hlen | reflexivity]. }
    rewrite Hlen'. exists l3. unfold bind at 1.
    rewrite (Hrange _ _ _ _ _ Hfiles). reflexivity.
Qed.

End Validation.

Section Compilation.
Context {rt : Runtime}.

(** ** The record compiler at the edges of its input *)

(** X7.  [Prop.FormatValue] checks the column index against the length of
    the record only: a negative index is not returned as an error, reading
    the record panics.  A date-timestamp type without a colon panics too,
    on the missing format after the split. *)
Theorem Prop_FormatValue_panics (p : PropT) (record : base_Record) :
  (forall i, Prop_Index p = Some i -> i < 0 ->
     runs_to (Prop_FormatValue p record)
       (Panic (IndexOutOfRange i (len record))))
  /\ (forall i r t,
        Prop_Index p = Some i -> cell record i = Some r ->
        Prop_Type p = Some t ->
        HasPrefix (ToLower t) "date-timestamp" = true -> free_of ":" t ->
        runs_to (Prop_FormatValue p record) (Panic (IndexOutOfRange 1 1))).
Proof.
  split.
  - intros i Hi Hneg l. unfold Prop_FormatValue. rewrite Hi.
    assert (E : (len record <=? i) = false).
    { apply Z.leb_gt. unfold len. lia. }
    rewrite E. cbn [deref]. unfold bind at 1. cbn [ret].
    unfold bind, at_index.
    destruct (Z.ltb_spec i 0); [reflexivity | lia].
  - intros i r t Hi Hc Ht Hd Hfree l.
    rewrite (Prop_FormatValue_read _ _ _ _ _ _ Hi Hc Ht), Hd.
    destruct (String.eqb_spec (ToLower t) "string") as [E | _].
    { rewrite E in Hd. discriminate Hd. }
    destruct (String.eqb_spec (ToLower t) "int") as [E | _].
    { rewrite E in Hd. discriminate Hd. }
    unfold Split. rewrite (Split_from_free ":" t EmptyString Hfree).
    reflexivity.
Qed.

Lemma Edge_FormatValues_range_short_row (srcVID rank : string)
    (before after : list string) (row : string) :
  Forall (fun r => (2 <= List.length (Split r "#"))%nat) before ->
  free_of "#" row ->
  runs_to (Edge_FormatValues_range srcVID rank (before ++ row :: after))
    (Panic (IndexOutOfRange 1 1)).
Proof.
  intros Hb Hfree.
  induction Hb as [| r before Hr _ IH]; intros l.
  - cbn [app Edge_FormatValues_range]. unfold Split.
    rewrite (Split_from_free "#" row EmptyString Hfree). reflexivity.
  - cbn [app Edge_FormatValues_range].
    destruct (Split r "#") as [| a [| b tl]]; cbn [List.length] in Hr; try lia.
    unfold bind at 1.
    rewrite (at_index_cell (a :: b :: tl) 0 a eq_refl l).
    cbn [set_index]. unfold bind at 1.
    rewrite (at_index_cell (TryConvInt64 a :: b :: tl) 0 _ eq_refl l).
    unfold bind at 1.
    rewrite (at_index_cell (TryConvInt64 a :: b :: tl) 1 _ eq_refl l).
    unfold bind. rewrite (IH l). reflexivity.
Qed.

(** X8.  [Edge.FormatValues] panics when a row of the first prop cell has
    no [#], the rows before it having two fields: the second field of
    that row is read without a check.  An empty cell is such a row. *)
Theorem Edge_FormatValues_short_row (e : Edge) (record : base_Record)
    (src : VID) (si : Z) (sc rank : string)
    (p0 : PropT) (others : list (option PropT)) (pi : Z) (pc : string)
    (before after : list string) (row : string) :
  Edge_SrcVID e = Some src -> VID_Index src = Some si -> cell record si = Some sc ->
  rank_segment e record = Some rank ->
  Edge_Props e = Some p0 :: others -> Prop_Index p0 = Some pi ->
  cell record pi = Some pc ->
  Split pc "&" = (before ++ row :: after)%list ->
  Forall (fun r => (2 <= List.length (Split r "#"))%nat) before ->
  free_of "#" row ->
  runs_to (Edge_FormatValues e record) (Panic (IndexOutOfRange 1 1)).
Proof.
  intros Hsrc Hsi Hsc Hrank Hprops Hpi Hpc Hsplit Hb Hfree l.
  unfold Edge_FormatValues. unfold rank_segment in Hrank.
  assert (Hr : match Edge_Rank e with
               | Some r =>
                   match Rank_Index r with
                   | Some i => c <- at_index record i ;; ret (Sprintf "@%s" [AStr c])
                   | None => ret EmptyString
                   end
               | None => ret EmptyString
               end l = (Val rank, l)).
  { destruct (Edge_Rank e) as [r |]; [| inversion Hrank; reflexivity].
    destruct (Rank_Index r) as [ri |]; [| inversion Hrank; reflexivity].
    destruct (cell record ri) as [rc |] eqn:Hrc; [| discriminate].
    inversion Hrank; subst rank. unfold bind.
    rewrite (at_index_cell _ _ _ Hrc l). cbn. rewrite append_empty. reflexivity. }
  unfold bind at 1. rewrite Hr. rewrite Hsrc. cbn [deref].
  unfold bind at 1. cbn [ret].
  assert (Hv : exists srcVID,
             match VID_Function src with
             | Some f =>
                 i <- deref (VID_Index src) ;;
                 c <- at_index record i ;;
                 ret (Sprintf "%s(%q)" [AStr f; AStr c])
             | None =>
                 i <- deref (VID_Index src) ;;
                 c <- at_index record i ;;
                 ret (TryConvInt64 c)
             end l = (Val srcVID, l)).
  { destruct (VID_Function src) as [f |]; rewrite Hsi; cbn [deref];
      cbv [bind ret]; rewrite (at_index_cell _ _ _ Hsc l); eexists; reflexivity. }
  destruct Hv as (srcVID & Hv).
  unfold bind at 1. rewrite Hv. rewrite Hprops.
  unfold bind at 1. rewrite (at_index_cell (Some p0 :: others) 0 _ eq_refl l).
  cbn [deref]. unfold bind at 1. cbn [ret]. rewrite Hpi. cbn [deref].
  unfold bind at 1. cbn [ret]. unfold bind at 1.
  rewrite (at_index_cell _ _ _ Hpc l). rewrite Hsplit.
  unfold bind. rewrite (Edge_FormatValues_range_short_row _ _ _ _ _ Hb Hfree l).
  reflexivity.
Qed.

Lemma panics_bind {A B} (c : M A) (k : A -> M B) (l : Log) :
  (exists a l1, c l = (Val a, l1)) \/ panics c l ->
  (forall a l1, panics (k a) l1) ->
  panics (bind c k) l.
Proof.
  intros [(a & l1 & E) | (p & l1 & E)] Hk; unfold panics, bind; rewrite E.
  - apply Hk.
  - eexists _, _. reflexivity.
Qed.

Lemma at_index_outcomes {A} (s : list A) (i : Z) (l : Log) :
  (exists a l1, at_index s i l = (Val a, l1)) \/ panics (at_index s i) l.
Proof.
  unfold panics, at_index. destruct ((i <? 0) || (len s <=? i)).
  - right. eexists _, _. reflexivity.
  - destruct (nth_error s (Z.to_nat i)).
    + left. eexists _, _. reflexivity.
    + right. eexists _, _. reflexivity.
Qed.

(** X9.  An edge without props is accepted by resolution, and compiling a
    record with the resolved edge never returns a statement: whatever the
    record, [Edge.FormatValues] panics. *)
Theorem propless_edge_never_compiles (prefix : string) (e : Edge) (l : Log) :
  valid_edge e -> Edge_Props e = [] ->
  exists e' l',
    Edge_validateAndReset prefix e l = (Val e', l')
    /\ forall record l0, panics (Edge_FormatValues e' record) l0.
Proof.
  intros He Hprops.
  destruct (Edge_validateAndReset_valid prefix e l He) as (l' & E).
  eexists _, l'. split; [exact E |].
  intros record l0. unfold Edge_FormatValues.
  cbn [Edge_Rank Edge_SrcVID Edge_Props]. rewrite Hprops.
  cbn [resolved_props].
  apply panics_bind.
  { destruct (ranking_requested e); [| left; eexists _, _; reflexivity].
    cbn [Rank_Index].
    destruct (at_index_outcomes record (or_default (rank_index (Edge_Rank e)) 2) l0)
      as [(c & l1 & Ec) | (p & l1 & Ep)].
    - left. unfold bind. rewrite Ec. eexists _, _. reflexivity.
    - right. unfold panics, bind. rewrite Ep. eexists _, _. reflexivity. }
  intros rank l1. apply panics_bind; [left; eexists _, _; reflexivity |].
  intros src l2. apply panics_bind.
  { destruct (VID_Function src) as [f |].
    - destruct (VID_Index src) as [i |]; cbn [deref].
      + unfold panics. cbv [bind ret].
        destruct (at_index_outcomes record i l2) as [(c & l3 & Ec) | (p & l3 & Ep)].
        * left. rewrite Ec. eexists _, _. reflexivity.
        * right. rewrite Ep. eexists _, _. reflexivity.
      + right. eexists _, _. reflexivity.
    - destruct (VID_Index src) as [i |]; cbn [deref].
      + unfold panics. cbv [bind ret].
        destruct (at_index_outcomes record i l2) as [(c & l3 & Ec) | (p & l3 & Ep)].
        * left. rewrite Ec. eexists _, _. reflexivity.
        * right. rewrite Ep. eexists _, _. reflexivity.
      + right. eexists _, _. reflexivity. }
  intros srcVID l3. unfold panics, bind. eexists _, _. reflexivity.
Qed.

End Compilation.

Section Resolution.
Context {rt : Runtime}.

(** ** Resolution, once more and then compiled *)

(** X10.  Resolution lower-cases the whole type of a prop, the format of a
    date-timestamp type included: the prop that resolution returns has the
    type in lower case, and compiling with it converts the cell with the
    format as it stands in the lower-cased type. *)
Theorem resolution_lowercases_date_format (prefix : string) (val : Z) (p : PropT)
    (t : string) (record : base_Record) (l : Log) :
  valid_prop p -> Prop_Type p = Some t ->
  exists p',
    Prop_validateAndReset prefix val p l = (Val p', l)
    /\ Prop_Type p' = Some (ToLower t)
    /\ forall pre format r,
         ToLower t = pre ++ String ":" format ->
         free_of ":" pre -> free_of ":" format ->
         HasPrefix (ToLower (ToLower t)) "date-timestamp" = true ->
         cell record (or_default (Prop_Index p) val) = Some r ->
         runs_to (Prop_FormatValue p' record)
           (Val (TryConvDateTimestamp r format)).
Proof.
  intros Hp Ht. exists (resolved_prop val p).
  split; [apply Prop_validateAndReset_valid; exact Hp |].
  assert (Hty : Prop_Type (resolved_prop val p) = Some (ToLower t)).
  { unfold resolved_prop. cbn. rewrite Ht. reflexivity. }
  split; [exact Hty |].
  intros pre format r Heq Hpre Hfmt Hd Hc l0.
  rewrite (Prop_FormatValue_read (resolved_prop val p) record
             (or_default (Prop_Index p) val) r (ToLower t) l0 eq_refl Hc Hty).
  rewrite Hd.
  destruct (String.eqb_spec (ToLower (ToLower t)) "string") as [E | _].
  { rewrite E in Hd. discriminate Hd. }
  destruct (String.eqb_spec (ToLower (ToLower t)) "int") as [E | _].
  { rewrite E in Hd. discriminate Hd. }
  rewrite Heq, (Split_two ":" pre format Hpre Hfmt). reflexivity.
Qed.

Lemma Vertex_validateAndReset_range_unnamed (prefix : string)
    (tsbefore tsafter : list (option Tag)) (t : Tag) (i j : Z) (l : Log) :
  Forall (fun ot => forall t, ot = Some t -> valid_tag t) tsbefore ->
  Tag_Name t = None ->
  exists l',
    Vertex_validateAndReset_range prefix i j (tsbefore ++ Some t :: tsafter) l
    = (Err ("Please configure the vertex tag name in: " ++ prefix ++ ".tags["
            ++ itoa (i + len tsbefore) ++ "].name"), l').
Proof.
  intros Hts Hname. revert i j l.
  induction Hts as [| ot tsbefore Hot _ IH]; intros i j l.
  - exists l. cbn [app Vertex_validateAndReset_range].
    unfold bind, Tag_validateAndReset. rewrite Hname.
    cbv [fail fmt_Errorf]. unfold len. cbn [List.length Z.of_nat].
    rewrite Z.add_0_r. cbn. rewrite ?append_assoc. cbn.
    rewrite ?append_assoc. reflexivity.
  - assert (Hlen : i + len (ot :: tsbefore) = i + 1 + len tsbefore).
    { unfold len. cbn [List.length]. lia. }
    rewrite Hlen. cbn [app Vertex_validateAndReset_range]. destruct ot as [t' |].
    + destruct (Tag_validateAndReset_valid
                  (Sprintf "%s.tags[%d]" [AStr prefix; AInt i]) j t' l
                  (Hot t' eq_refl)) as (l1 & E1).
      unfold bind at 1. rewrite E1.
      destruct (IH (i + 1) (j + len (Tag_Props
                  (mkTag (Tag_Name t') (resolved_props j (Tag_Props t'))))) l1)
        as (l' & E).
      exists l'. unfold bind at 1. rewrite E. reflexivity.
    + cbv [bind logger_Errorf log_at].
      match goal with
      | |- context [Vertex_validateAndReset_range _ _ _ _ ?l0] =>
          destruct (IH (i + 1) j l0) as (l' & E)
      end.
      exists l'. rewrite E. reflexivity.
Qed.

(** X11.  A vertex whose VID is accepted and whose first tag that is not
    accepted has no name is rejected with an error that names the
    position of that tag in the list. *)
Theorem unnamed_tag_is_rejected (prefix : string) (v : Vertex)
    (tsbefore tsafter : list (option Tag)) (t : Tag) (l : Log) :
  (forall vid, Vertex_VID v = Some vid -> valid_VID vid) ->
  Vertex_Tags v = (tsbefore ++ Some t :: tsafter)%list ->
  Forall (fun ot => forall t, ot = Some t -> valid_tag t) tsbefore ->
  Tag_Name t = None ->
  exists l',
    Vertex_validateAndReset prefix v l
    = (Err ("Please configure the vertex tag name in: " ++ prefix ++ ".tags["
            ++ itoa (len tsbefore) ++ "].name"), l').
Proof.
  intros Hvid Htags Hts Hname. unfold Vertex_validateAndReset. rewrite Htags.
  destruct (Vertex_validateAndReset_range_unnamed prefix tsbefore tsafter t 0 1 l
              Hts Hname) as (l' & E).
  exists l'. destruct (Vertex_VID v) as [vid |].
  - unfold bind at 1.
    rewrite VID_validateAndReset_valid by (lia || exact (Hvid vid eq_refl)).
    unfold bind. rewrite E. reflexivity.
  - unfold bind. cbn [ret]. rewrite E. reflexivity.
Qed.

Section Idempotence.
Hypothesis ToLower_idempotent : forall s, ToLower (ToLower s) = ToLower s.

Lemma resolved_prop_again (d d' : Z) (p : PropT) :
  resolved_prop d' (resolved_prop d p) = resolved_prop d p.
Proof.
  unfold resolved_prop. cbn. f_equal.
  destruct (Prop_Type p) as [t |]; cbn; [| reflexivity].
  rewrite ToLower_idempotent. reflexivity.
Qed.

Lemma resolved_props_again (d d' : Z) (ps : list (option PropT)) :
  resolved_props d' (resolved_props d ps) = resolved_props d ps.
Proof.
  revert d d'. induction ps as [| op ps IH]; intros d d'; [reflexivity |].
  cbn [resolved_props]. rewrite IH. f_equal.
  destruct op as [p |]; cbn; [| reflexivity].
  rewrite resolved_prop_again. reflexivity.
Qed.

Lemma resolved_props_valid (d : Z) (ps : list (option PropT)) :
  0 <= d -> valid_props ps -> valid_props (resolved_props d ps).
Proof.
  intros Hd H. revert d Hd. induction H as [| op ps Hop _ IH]; intros d Hd.
  - constructor.
  - cbn [resolved_props]. constructor; [| apply IH; lia].
    intros p' E. destruct op as [p |]; [| discriminate E].
    cbn in E. inversion E; subst p'.
    destruct (Hop p eq_refl) as [(t & Ht & Hv) Hi].
    split.
    + exists (ToLower t). unfold resolved_prop. cbn. rewrite Ht. cbn.
      split; [reflexivity |]. rewrite ToLower_idempotent. exact Hv.
    + intros i E'. unfold resolved_prop in E'. cbn in E'. inversion E'; subst i.
      destruct (Prop_Index p) as [i |] eqn:Hpi; cbn; [apply Hi; reflexivity | lia].
Qed.

Lemma resolved_tags_again (j : Z) (tags : list (option Tag)) :
  resolved_tags j (resolved_tags j tags) = resolved_tags j tags.
Proof.
  revert j. induction tags as [| [t |] tags IH]; intros j.
  - reflexivity.
  - cbn [resolved_tags Tag_Props Tag_Name].
    rewrite resolved_props_again, resolved_props_len, IH. reflexivity.
  - cbn [resolved_tags]. rewrite IH. reflexivity.
Qed.

Lemma resolved_tags_valid (j : Z) (tags : list (option Tag)) :
  0 <= j ->
  Forall (fun ot => forall t, ot = Some t -> valid_tag t) tags ->
  Forall (fun ot => forall t, ot = Some t -> valid_tag t) (resolved_tags j tags).
Proof.
  intros Hj H. revert j Hj. induction H as [| ot tags Hot _ IH]; intros j Hj.
  - constructor.
  - destruct ot as [t |]; cbn [resolved_tags].
    + destruct (Hot t eq_refl) as [Hname Hprops]. constructor.
      * intros t' E. inversion E; subst t'. split; [exact Hname |].
        cbn [Tag_Props]. apply resolved_props_valid; assumption.
      * apply IH. unfold len. lia.
    + constructor; [intros t E; discriminate E | apply IH; exact Hj].
Qed.

(** X12.  Resolution is idempotent, [strings.ToLower] being so: resolving
    a vertex or an edge that resolution has returned gives the same
    vertex or edge again, whatever the prefix. *)
Theorem resolution_is_idempotent (prefix prefix' : string) (l : Log) :
  (forall v, valid_vertex v ->
     exists v' l',
       Vertex_validateAndReset prefix v l = (Val v', l')
       /\ forall l0, exists l1,
            Vertex_validateAndReset prefix' v' l0 = (Val v', l1))
  /\ (forall e, valid_edge e ->
     exists e' l',
       Edge_validateAndReset prefix e l = (Val e', l')
       /\ forall l0, exists l1,
            Edge_validateAndReset prefix' e' l0 = (Val e', l1)).
Proof.
  split.
  - intros v [Hvid Htags].
    destruct (Vertex_validateAndReset_valid prefix v l (conj Hvid Htags))
      as (l' & E).
    eexists _, l'. split; [exact E |]. intros l0.
    match goal with
    | |- context [Vertex_validateAndReset prefix' ?v' l0] =>
        assert (Hv' : valid_vertex v')
    end.
    { split; cbn [Vertex_VID Vertex_Tags].
      - intros vid E'. inversion E'; subst vid.
        destruct (Vertex_VID v) as [vid0 |].
        + destruct (Hvid vid0 eq_refl) as [Hi Hf]. split; cbn.
          * intros i Ei. inversion Ei; subst i.
            destruct (VID_Index vid0) as [i0 |]; cbn; [apply Hi; reflexivity | lia].
          * exact Hf.
        + split; cbn; [intros i Ei; inversion Ei; lia | intros f Ef; discriminate Ef].
      - apply resolved_tags_valid; [lia | exact Htags]. }
    destruct (Vertex_validateAndReset_valid prefix' _ l0 Hv') as (l1 & E1).
    exists l1. rewrite E1. cbn [Vertex_VID Vertex_Tags VID_Index VID_Function or_default].
    rewrite resolved_tags_again. destruct (Vertex_VID v); reflexivity.
  - intros e (Hname & Hsrc & Hdst & Hrank & Hprops).
    destruct (Edge_validateAndReset_valid prefix e l
                (conj Hname (conj Hsrc (conj Hdst (conj Hrank Hprops)))))
      as (l' & E).
    eexists _, l'. split; [exact E |]. intros l0.
    assert (Hstart : 0 <= (if ranking_requested e then 3 else 2))
      by (destruct (ranking_requested e); lia).
    match goal with
    | |- context [Edge_validateAndReset prefix' ?e' l0] =>
        assert (He' : valid_edge e');
        [| assert (Hrr : ranking_requested e' = ranking_requested e)]
    end.
    { split; [exact Hname |]. cbn [Edge_SrcVID Edge_DstVID Edge_Rank Edge_Props].
      split.
      { intros vid E'. inversion E'; subst vid.
        destruct (Edge_SrcVID e) as [vid0 |].
        + destruct (Hsrc vid0 eq_refl) as [Hi Hf]. split; cbn.
          * intros i Ei. inversion Ei; subst i.
            destruct (VID_Index vid0) as [i0 |]; cbn; [apply Hi; reflexivity | lia].
          * exact Hf.
        + split; cbn; [intros i Ei; inversion Ei; lia | intros f Ef; discriminate Ef]. }
      split.
      { intros vid E'. inversion E'; subst vid.
        destruct (Edge_DstVID e) as [vid0 |].
        + destruct (Hdst vid0 eq_refl) as [Hi Hf]. split; cbn.
          * intros i Ei. inversion Ei; subst i.
            destruct (VID_Index vid0) as [i0 |]; cbn; [apply Hi; reflexivity | lia].
          * exact Hf.
        + split; cbn; [intros i Ei; inversion Ei; lia | intros f Ef; discriminate Ef]. }
      split.
      { intros r i Er Ei. destruct (ranking_requested e); [| discriminate Er].
        inversion Er; subst r. cbn in Ei. inversion Ei; subst i.
        unfold rank_index. destruct (Edge_Rank e) as [r0 |]; cbn; [| lia].
        destruct (Rank_Index r0) as [i0 |] eqn:Hr0; cbn; [| lia].
        exact (Hrank r0 i0 eq_refl Hr0). }
      apply resolved_props_valid; assumption. }
    { unfold ranking_requested at 1. cbn [Edge_Rank Edge_WithRanking].
      destruct (ranking_requested e) eqn:Hr; [reflexivity |].
      unfold ranking_requested in Hr.
      destruct (Edge_Rank e); [discriminate Hr |].
      destruct (Edge_WithRanking e) as [[|] |]; [discriminate Hr | |]; reflexivity. }
    destruct (Edge_validateAndReset_valid prefix' _ l0 He') as (l1 & E1).
    exists l1. rewrite E1, Hrr.
    cbn [Edge_Name Edge_WithRanking Edge_Props Edge_SrcVID Edge_DstVID Edge_Rank
         VID_Index VID_Function or_default].
    rewrite resolved_props_again.
    destruct (Edge_SrcVID e), (Edge_DstVID e), (ranking_requested e); reflexivity.
Qed.

End Idempotence.

End Resolution.

Section HeaderProperties.
Context {rt : Runtime} {hd : HeaderRuntime}.

(** ** The generator of a VID in a header cell *)

Lemma strlen_nonneg (s : string) : 0 <= strlen s.
Proof. unfold strlen. lia. Qed.

Lemma strlen_append (a b : string) : strlen (a ++ b) = strlen a + strlen b.
Proof.
  unfold strlen. induction a as [| c a IH]; cbn [String.append String.length].
  - lia.
  - rewrite !Nat2Z.inj_succ. lia.
Qed.

Lemma Index_from_range (s substr : string) (pos : Z) :
  Index_from s substr pos = -1
  \/ pos <= Index_from s substr pos <= pos + strlen s.
Proof.
  revert pos. induction s as [| c s IH]; intros pos.
  - cbn. destruct (String.eqb substr EmptyString); [right | left; reflexivity].
    unfold strlen. cbn. lia.
  - cbn [Index_from]. destruct (String.prefix substr (String c s)).
    + right. pose proof (strlen_nonneg (String c s)). lia.
    + destruct (IH (pos + 1)) as [E | E]; [left; exact E | right].
      unfold strlen in *. cbn [String.length]. rewrite Nat2Z.inj_succ. lia.
Qed.

Lemma Index_from_first (c : ascii) (pre rest : string) (pos : Z) :
  free_of c pre ->
  Index_from (pre ++ String c rest) (String c EmptyString) pos = pos + strlen pre.
Proof.
  revert pos. induction pre as [| a pre IH]; intros pos Hfree.
  - cbn [String.append Index_from]. rewrite prefix_one, Ascii.eqb_refl.
    unfold strlen. cbn. lia.
  - destruct Hfree as [Hne Hfree]. cbn [String.append Index_from].
    rewrite prefix_one.
    assert (Hca : Ascii.eqb c a = false) by (apply Ascii.eqb_neq; congruence).
    rewrite Hca, IH by assumption.
    unfold strlen. cbn [String.length]. rewrite Nat2Z.inj_succ. lia.
Qed.

Lemma Index_from_free (c : ascii) (s : string) (pos : Z) :
  free_of c s -> Index_from s (String c EmptyString) pos = -1.
Proof.
  revert pos. induction s as [| a s IH]; intros pos Hfree; [reflexivity |].
  destruct Hfree as [Hne Hfree]. cbn [Index_from]. rewrite prefix_one.
  assert (Hca : Ascii.eqb c a = false) by (apply Ascii.eqb_neq; congruence).
  rewrite Hca. apply IH. exact Hfree.
Qed.

Lemma free_of_append (c : ascii) (a b : string) :
  free_of c a -> free_of c b -> free_of c (a ++ b).
Proof.
  induction a as [| x a IH]; intros Ha Hb; [exact Hb |].
  destruct Ha as [Hne Ha]. split; [exact Hne | apply IH; assumption].
Qed.

Lemma substring_skip (a b : string) (m : nat) :
  substring (String.length a) m (a ++ b) = substring 0 m b.
Proof. induction a as [| x a IH]; [reflexivity | exact IH]. Qed.

Lemma substring_prefix (a b : string) :
  substring 0 (String.length a) (a ++ b) = a.
Proof.
  induction a as [| x a IH]; cbn.
  - destruct b; reflexivity.
  - rewrite IH. reflexivity.
Qed.

(** X13.  [VID.ParseFunction] never panics: the slice it takes between
    the parentheses is always within the string.  It returns, with the
    index of the VID unchanged, or it logs the malformed text at the
    fatal level and the process exits. *)
Theorem VID_ParseFunction_outcomes (str : string) (v : VID) (l : Log) :
  (exists f, VID_ParseFunction str v l = (Val (mkVID (VID_Index v) f), l))
  \/ VID_ParseFunction str v l
     = (Exit, (l ++ [mkEntry FATAL "Invalid function format: %s"
                       [Shown (AStr str)]])%list).
Proof.
  unfold VID_ParseFunction.
  destruct ((Index str "(" <? 0) && (Index str ")" <? 0)).
  - left. eexists. reflexivity.
  - destruct ((0 <? Index str "(") && (Index str "(" <? Index str ")")) eqn:Hc.
    + left. apply andb_true_iff in Hc as [Hi Hj].
      apply Z.ltb_lt in Hi, Hj.
      unfold slice_string.
      assert (Hr : Index str ")" <= strlen str).
      { unfold Index in *. destruct (Index_from_range str ")" 0); lia. }
      destruct (Z.ltb_spec (Index str "(" + 1) 0); [lia |].
      destruct (Z.ltb_spec (Index str ")") (Index str "(" + 1)); [lia |].
      destruct (Z.ltb_spec (strlen str) (Index str ")")); [lia |].
      cbn [orb]. eexists. reflexivity.
    + right. reflexivity.
Qed.

(** X14.  [VID.ParseFunction] reads back what [VID.String] writes.  For a
    label that is not empty and holds no parenthesis: a VID with a
    generator that is not empty and holds no closing parenthesis is
    written as label(generator) and parsed back to the generator in lower
    case; a VID without generator, or with the empty one, is written as
    the label alone and parsed back to no generator. *)
Theorem VID_String_ParseFunction (v w : VID) (label : string) (l : Log) :
  label <> EmptyString -> free_of "(" label -> free_of ")" label ->
  (forall f, VID_Function v = Some f -> f <> EmptyString -> free_of ")" f ->
     VID_String v label = label ++ "(" ++ f ++ ")"
     /\ VID_ParseFunction (VID_String v label) w l
        = (Val (mkVID (VID_Index w) (Some (ToLower f))), l))
  /\ (VID_Function v = None \/ VID_Function v = Some EmptyString ->
      VID_String v label = label
      /\ VID_ParseFunction (VID_String v label) w l
         = (Val (mkVID (VID_Index w) None), l)).
Proof.
  intros Hne Hopen Hclose. split.
  - intros f Hf Hfne Hfclose.
    assert (Hs : VID_String v label = label ++ "(" ++ f ++ ")").
    { unfold VID_String. rewrite Hf.
      destruct (String.eqb_spec f EmptyString) as [E | _]; [contradiction |].
      cbn. rewrite ?append_empty. reflexivity. }
    split; [exact Hs |]. rewrite Hs. unfold VID_ParseFunction.
    assert (Hi : Index (label ++ "(" ++ f ++ ")") "(" = strlen label).
    { unfold Index. change (label ++ "(" ++ f ++ ")")
        with (label ++ String "(" (f ++ ")")).
      rewrite Index_from_first by exact Hopen. lia. }
    assert (Hj : Index (label ++ "(" ++ f ++ ")") ")" = strlen label + 1 + strlen f).
    { unfold Index.
      replace (label ++ "(" ++ f ++ ")")
        with ((label ++ String "(" f) ++ String ")" EmptyString).
      - rewrite Index_from_first.
        + rewrite strlen_append. unfold strlen. cbn [String.length].
          rewrite Nat2Z.inj_succ. lia.
        + apply free_of_append; [exact Hclose |].
          split; [discriminate | exact Hfclose].
      - rewrite append_assoc. reflexivity. }
    rewrite Hi, Hj.
    assert (Hpos : 0 < strlen label).
    { destruct label; [contradiction |]. unfold strlen. cbn [String.length]. lia. }
    pose proof (strlen_nonneg f) as Hf0.
    destruct (Z.ltb_spec (strlen label) 0); [lia |]. cbn [andb].
    destruct (Z.ltb_spec 0 (strlen label)); [| lia].
    destruct (Z.ltb_spec (strlen label) (strlen label + 1 + strlen f)); [| lia].
    cbn [andb]. unfold slice_string.
    destruct (Z.ltb_spec (strlen label + 1) 0); [lia |].
    destruct (Z.ltb_spec (strlen label + 1 + strlen f) (strlen label + 1)); [lia |].
    rewrite !strlen_append.
    assert (Hlen : strlen "(" = 1 /\ strlen ")" = 1) by (split; reflexivity).
    destruct Hlen as [-> ->].
    destruct (Z.ltb_spec (strlen label + (1 + (strlen f + 1)))
                (strlen label + 1 + strlen f)); [lia |].
    cbn [orb]. unfold bind, ret. do 4 f_equal.
    replace (Z.to_nat (strlen label + 1)) with (String.length (label ++ "("))%nat.
    2:{ unfold strlen. rewrite Z2Nat.inj_add, Nat2Z.id by lia.
        clear. induction label as [| a s IH]; cbn; [reflexivity | now rewrite IH]. }
    replace (Z.to_nat (strlen label + 1 + strlen f - (strlen label + 1)))
      with (String.length f).
    2:{ unfold strlen. rewrite <- (Nat2Z.id (String.length f)) at 1. f_equal. lia. }
    replace (label ++ "(" ++ f ++ ")") with ((label ++ "(") ++ (f ++ ")"))
      by (rewrite append_assoc; reflexivity).
    rewrite substring_skip, substring_prefix. reflexivity.
  - intros Hnone.
    assert (Hs : VID_String v label = label).
    { unfold VID_String. destruct Hnone as [-> | ->]; reflexivity. }
    split; [exact Hs |]. rewrite Hs. unfold VID_ParseFunction, Index.
    rewrite (Index_from_free "(" label 0 Hopen), (Index_from_free ")" label 0 Hclose).
    reflexivity.
Qed.

(** ** The largest column index *)

(** The running maximum of [maxIndex], over a list of indices. *)
Lemma max_step_ge (m i : Z) : m <= (if m <? i then i else m) /\ i <= (if m <? i then i else m).
Proof. destruct (Z.ltb_spec m i); lia. Qed.

Lemma maxIndex_range_ge (m : Z) (ps : list (option PropT)) :
  m <= maxIndex_range m ps.
Proof.
  revert m. induction ps as [| op ps IH]; intros m; cbn [maxIndex_range]; [lia |].
  etransitivity; [| apply IH].
  destruct op as [p |]; [| lia]. destruct (Prop_Index p) as [i |]; [| lia].
  apply max_step_ge.
Qed.

Lemma maxIndex_range_bounds (m : Z) (ps : list (option PropT)) :
  Forall (fun i => i <= maxIndex_range m ps) (prop_indices ps).
Proof.
  revert m. induction ps as [| op ps IH]; intros m; cbn; [constructor |].
  destruct op as [p |]; [| apply IH].
  destruct (Prop_Index p) as [i |]; cbn; [| apply IH].
  constructor; [| apply IH].
  etransitivity; [| apply maxIndex_range_ge]. apply max_step_ge.
Qed.

Lemma maxIndex_range_attained (m : Z) (ps : list (option PropT)) :
  maxIndex_range m ps = m \/ In (maxIndex_range m ps) (prop_indices ps).
Proof.
  revert m. induction ps as [| op ps IH]; intros m; cbn [maxIndex_range];
    [left; reflexivity |].
  destruct op as [p |]; [| apply IH].
  destruct (Prop_Index p) as [i |] eqn:Hi.
  - cbn [prop_indices flat_map]. rewrite Hi. cbn [present app].
    destruct (IH (if m <? i then i else m)) as [E | E].
    + rewrite E. destruct (Z.ltb_spec m i); [right; left; reflexivity | left; reflexivity].
    + right. right. exact E.
  - cbn [prop_indices flat_map]. rewrite Hi. cbn [present app]. apply IH.
Qed.

Lemma maxIndex_range_app (m : Z) (a b : list (option PropT)) :
  maxIndex_range m (a ++ b) = maxIndex_range (maxIndex_range m a) b.
Proof.
  revert m. induction a as [| op a IH]; intros m; [reflexivity |].
  cbn [app maxIndex_range]. apply IH.
Qed.

Lemma Vertex_maxIndex_range_flat (m : Z) (tags : list (option Tag)) :
  Vertex_maxIndex_range m tags = maxIndex_range m (all_props tags).
Proof.
  revert m. induction tags as [| [t |] tags IH]; intros m.
  - reflexivity.
  - cbn [Vertex_maxIndex_range all_props flat_map].
    rewrite maxIndex_range_app. apply IH.
  - cbn [Vertex_maxIndex_range all_props flat_map]. apply IH.
Qed.

Lemma Forall_le_trans (m m' : Z) (zs : list Z) :
  m <= m' -> Forall (fun i => i <= m) zs -> Forall (fun i => i <= m') zs.
Proof.
  intros Hle H. induction H; constructor; [lia | assumption].
Qed.

Lemma max_step_cases (m : Z) (oi : option Z) :
  let m' := match oi with
            | Some i => if m <? i then i else m
            | None => m
            end in
  m <= m' /\ Forall (fun i => i <= m') (present oi)
  /\ (m' = m \/ In m' (present oi)).
Proof.
  destruct oi as [i |]; cbn [present].
  - cbv zeta. destruct (Z.ltb_spec m i).
    + split; [lia |]. split; [constructor; [lia | constructor] |].
      right. left. reflexivity.
    + split; [lia |]. split; [constructor; [lia | constructor] |].
      left. reflexivity.
  - cbv zeta. split; [lia |]. split; [constructor |]. left. reflexivity.
Qed.

Lemma Edge_maxIndex_bounds (e : Edge) :
  0 <= Edge_maxIndex e
  /\ Forall (fun i => i <= Edge_maxIndex e) (edge_indices e)
  /\ (Edge_maxIndex e = 0 \/ In (Edge_maxIndex e) (edge_indices e)).
Proof.
  unfold Edge_maxIndex, edge_indices, vid_index, rank_index.
  set (m1 := match Edge_SrcVID e with
             | Some v => match VID_Index v with
                         | Some i => if 0 <? i then i else 0
                         | None => 0
                         end
             | None => 0
             end).
  set (m2 := match Edge_DstVID e with
             | Some v => match VID_Index v with
                         | Some i => if m1 <? i then i else m1
                         | None => m1
                         end
             | None => m1
             end).
  set (m3 := match Edge_Rank e with
             | Some r => match Rank_Index r with
                         | Some i => if m2 <? i then i else m2
                         | None => m2
                         end
             | None => m2
             end).
  cbv zeta. fold m1. fold m2. fold m3.
  pose proof (maxIndex_range_ge m3 (Edge_Props e)) as H3.
  pose proof (maxIndex_range_bounds m3 (Edge_Props e)) as Hb.
  pose proof (maxIndex_range_attained m3 (Edge_Props e)) as Ha.
  assert (H1 : 0 <= m1 /\ Forall (fun i => i <= m1)
                             (present (match Edge_SrcVID e with
                                       | Some v => VID_Index v
                                       | None => None
                                       end))
               /\ (m1 = 0 \/ In m1 (present (match Edge_SrcVID e with
                                             | Some v => VID_Index v
                                             | None => None
                                             end)))).
  { subst m1. destruct (Edge_SrcVID e) as [v |];
      [apply (max_step_cases 0 (VID_Index v)) | apply (max_step_cases 0 None)]. }
  destruct H1 as (H1 & H1b & H1a).
  assert (H2 : m1 <= m2 /\ Forall (fun i => i <= m2)
                              (present (match Edge_DstVID e with
                                        | Some v => VID_Index v
                                        | None => None
                                        end))
               /\ (m2 = m1 \/ In m2 (present (match Edge_DstVID e with
                                              | Some v => VID_Index v
                                              | None => None
                                              end)))).
  { subst m2. destruct (Edge_DstVID e) as [v |];
      [apply (max_step_cases m1 (VID_Index v)) | apply (max_step_cases m1 None)]. }
  destruct H2 as (H2 & H2b & H2a).
  assert (H3' : m2 <= m3 /\ Forall (fun i => i <= m3)
                               (present (match Edge_Rank e with
                                         | Some r => Rank_Index r
                                         | None => None
                                         end))
                /\ (m3 = m2 \/ In m3 (present (match Edge_Rank e with
                                               | Some r => Rank_Index r
                                               | None => None
                                               end)))).
  { subst m3. destruct (Edge_Rank e) as [r |];
      [apply (max_step_cases m2 (Rank_Index r)) | apply (max_step_cases m2 None)]. }
  destruct H3' as (H3' & H3b & H3a).
  split; [lia |]. split.
  + repeat (apply Forall_app; split).
    * eapply Forall_le_trans; [| exact H1b]. lia.
    * eapply Forall_le_trans; [| exact H2b]. lia.
    * eapply Forall_le_trans; [| exact H3b]. lia.
    * exact Hb.
  + destruct Ha as [Ha | Ha].
    * rewrite Ha. destruct H3a as [H3a | H3a].
      -- rewrite H3a. destruct H2a as [H2a | H2a].
         ++ rewrite H2a. destruct H1a as [H1a | H1a]; [left; exact H1a |].
            right. apply in_or_app. left. exact H1a.
         ++ right. apply in_or_app. right. apply in_or_app. left. exact H2a.
      -- right. apply in_or_app. right. apply in_or_app. right.
         apply in_or_app. left. exact H3a.
    * right. apply in_or_app. right. apply in_or_app. right.
      apply in_or_app. right. exact Ha.
Qed.

Lemma Vertex_maxIndex_bounds (v : Vertex) :
  0 <= Vertex_maxIndex v
  /\ Forall (fun i => i <= Vertex_maxIndex v) (vertex_indices v)
  /\ (Vertex_maxIndex v = 0 \/ In (Vertex_maxIndex v) (vertex_indices v)).
Proof.
  unfold Vertex_maxIndex, vertex_indices, vid_index.
  set (m1 := match Vertex_VID v with
             | Some vid => match VID_Index vid with
                           | Some i => if 0 <? i then i else 0
                           | None => 0
                           end
             | None => 0
             end).
  cbv zeta. fold m1. rewrite Vertex_maxIndex_range_flat.
  pose proof (maxIndex_range_ge m1 (all_props (Vertex_Tags v))) as H3.
  pose proof (maxIndex_range_bounds m1 (all_props (Vertex_Tags v))) as Hb.
  pose proof (maxIndex_range_attained m1 (all_props (Vertex_Tags v))) as Ha.
  assert (H1 : 0 <= m1 /\ Forall (fun i => i <= m1)
                             (present (match Vertex_VID v with
                                       | Some v => VID_Index v
                                       | None => None
                                       end))
               /\ (m1 = 0 \/ In m1 (present (match Vertex_VID v with
                                             | Some v => VID_Index v
                                             | None => None
                                             end)))).
  { subst m1. destruct (Vertex_VID v) as [vid |];
      [apply (max_step_cases 0 (VID_Index vid)) | apply (max_step_cases 0 None)]. }
  destruct H1 as (H1 & H1b & H1a).
  split; [lia |]. split.
  + apply Forall_app; split; [| exact Hb].
    eapply Forall_le_trans; [| exact H1b]. lia.
  + destruct Ha as [Ha | Ha].
    * rewrite Ha. destruct H1a as [H1a | H1a]; [left; exact H1a |].
      right. apply in_or_app. left. exact H1a.
    * right. apply in_or_app. right. exact Ha.
Qed.

(** X15.  [Edge.maxIndex] and [Vertex.maxIndex] return an upper bound of
    every column index the edge or the vertex holds, nil entries skipped;
    the bound is never negative, and it is 0 or one of those indices. *)
Theorem maxIndex_is_the_largest_index :
  (forall e,
     0 <= Edge_maxIndex e
     /\ Forall (fun i => i <= Edge_maxIndex e) (edge_indices e)
     /\ (Edge_maxIndex e = 0 \/ In (Edge_maxIndex e) (edge_indices e)))
  /\ (forall v,
     0 <= Vertex_maxIndex v
     /\ Forall (fun i => i <= Vertex_maxIndex v) (vertex_indices v)
     /\ (Vertex_maxIndex v = 0 \/ In (Vertex_maxIndex v) (vertex_indices v))).
Proof.
  split; [exact Edge_maxIndex_bounds | exact Vertex_maxIndex_bounds].
Qed.

(** ** The header line *)

Lemma bind_run_Val {A B} (c : M A) (k : A -> M B) (l l' : Log) (a : A) :
  c l = (Val a, l') -> bind c k l = k a l'.
Proof. intros E. unfold bind. rewrite E. reflexivity. Qed.

Lemma bind_run_Panic {A B} (c : M A) (k : A -> M B) (l l' : Log) (q : panic) :
  c l = (Panic q, l') -> bind c k l = (Panic q, l').
Proof. intros E. unfold bind. rewrite E. reflexivity. Qed.

Lemma int_add_exact (a b : Z) :
  - 2 ^ 63 <= a + b < 2 ^ 63 -> int_add a b = a + b.
Proof.
  intros H. unfold int_add.
  rewrite Z.mod_small by lia. lia.
Qed.

Lemma len_repeat {A} (a : A) (n : Z) : 0 <= n -> len (repeat a (Z.to_nat n)) = n.
Proof. intros H. unfold len. rewrite repeat_length. lia. Qed.

Lemma set_index_length {A} (s : list A) (i : nat) (v : A) :
  List.length (set_index s i v) = List.length s.
Proof.
  revert i. induction s as [| a s IH]; intros i; [reflexivity |].
  destruct i; cbn; [reflexivity | now rewrite IH].
Qed.

Lemma at_index_in_range {A} (s : list A) (i : Z) (l : Log) :
  0 <= i < len s -> exists a, at_index s i l = (Val a, l).
Proof.
  intros H. unfold at_index.
  destruct (Z.ltb_spec i 0); [lia |]. destruct (Z.leb_spec (len s) i); [lia |].
  cbn [orb]. destruct (nth_error s (Z.to_nat i)) as [a |] eqn:E.
  - exists a. reflexivity.
  - apply nth_error_None in E. unfold len in H. lia.
Qed.

Lemma store_index_in_range {A} (s : list A) (i : Z) (v : A) (l : Log) :
  0 <= i < len s ->
  store_index s i v l = (Val (set_index s (Z.to_nat i) v), l)
  /\ len (set_index s (Z.to_nat i) v) = len s.
Proof.
  intros H. unfold store_index.
  destruct (Z.ltb_spec i 0); [lia |]. destruct (Z.leb_spec (len s) i); [lia |].
  split; [reflexivity |]. unfold len. now rewrite set_index_length.
Qed.

(** Writing a label that needs no dereference into a cell in range. *)
Lemma head_cell_step (cells : list string) (i : Z) (v : string) (l : Log) :
  0 <= i < len cells ->
  exists cells',
    (c <- at_index cells i ;; store_index cells i (combine c v)) l = (Val cells', l)
    /\ len cells' = len cells.
Proof.
  intros H. destruct (at_index_in_range cells i l H) as (c & E).
  unfold bind. rewrite E.
  destruct (store_index_in_range cells i (combine c v) l H) as (E' & L).
  eexists. split; [exact E' | exact L].
Qed.

(** Writing the label of a prop into a cell in range. *)
Lemma prop_cell_step (owner : option string) (p : PropT) (cells : list string)
    (i : Z) (l : Log) :
  0 <= i < len cells -> Prop_Index p = Some i ->
  (labelled_prop owner p
   /\ exists cells',
        (c <- at_index cells i ;;
         name <- deref owner ;;
         label <- Prop_String p name ;;
         store_index cells i (combine c label)) l = (Val cells', l)
        /\ len cells' = len cells)
  \/ (~ labelled_prop owner p
      /\ (c <- at_index cells i ;;
          name <- deref owner ;;
          label <- Prop_String p name ;;
          store_index cells i (combine c label)) l = (Panic NilDereference, l)).
Proof.
  intros H Hi. destruct (at_index_in_range cells i l H) as (c & E).
  assert (Hrun :
    (c <- at_index cells i ;;
     name <- deref owner ;;
     label <- Prop_String p name ;;
     store_index cells i (combine c label)) l
    = match owner, Prop_Name p, Prop_Type p with
      | Some name, Some pn, Some pt =>
          store_index cells i
            (combine c (Sprintf "%s.%s:%s" [AStr name; AStr pn; AStr pt])) l
      | _, _, _ => (Panic NilDereference, l)
      end).
  { unfold bind, Prop_String. rewrite E.
    destruct owner, (Prop_Name p), (Prop_Type p); reflexivity. }
  rewrite Hrun. clear Hrun. unfold labelled_prop. rewrite Hi.
  destruct owner as [name |].
  2:{ right. split; [| reflexivity]. intros K.
      destruct K as (K & _); [discriminate | contradiction]. }
  destruct (Prop_Name p) as [pn |].
  2:{ right. split; [| reflexivity]. intros K.
      destruct K as (_ & K & _); [discriminate | contradiction]. }
  destruct (Prop_Type p) as [pt |].
  2:{ right. split; [| reflexivity]. intros K.
      destruct K as (_ & _ & K); [discriminate | contradiction]. }
  left. split; [intros _; repeat split; discriminate |].
  destruct (store_index_in_range cells i
              (combine c (Sprintf "%s.%s:%s" [AStr name; AStr pn; AStr pt])) l H)
    as (E' & L).
  eexists. split; [exact E' | exact L].
Qed.

Lemma Edge_String_range_cons (e : Edge) (p : PropT) (props : list (option PropT))
    (cells : list string) (l : Log) :
  Edge_String_range e (Some p :: props) cells l
  = match match Prop_Index p with
          | Some i =>
              c <- at_index cells i ;;
              name <- deref (Edge_Name e) ;;
              label <- Prop_String p name ;;
              store_index cells i (combine c label)
          | None => ret cells
          end l with
    | (Val cells', l') => Edge_String_range e props cells' l'
    | (Err x, l') => (Err x, l')
    | (Exit, l') => (Exit, l')
    | (Panic q, l') => (Panic q, l')
    end.
Proof. reflexivity. Qed.

Lemma Edge_String_range_outcomes (e : Edge) (props : list (option PropT))
    (cells : list string) (l : Log) :
  Forall (fun i => 0 <= i < len cells) (prop_indices props) ->
  (Forall (fun op => exists p, op = Some p /\ labelled_prop (Edge_Name e) p) props
   /\ exists cells', Edge_String_range e props cells l = (Val cells', l)
                     /\ len cells' = len cells)
  \/ (~ Forall (fun op => exists p, op = Some p /\ labelled_prop (Edge_Name e) p) props
      /\ Edge_String_range e props cells l = (Panic NilDereference, l)).
Proof.
  revert cells. induction props as [| op props IH]; intros cells Hr.
  - left. split; [constructor |]. exists cells. split; reflexivity.
  - destruct op as [p |].
    2:{ right. split; [| reflexivity]. intros K. inversion K as [| ? ? (q & Hq & _) _].
        discriminate. }
    rewrite Edge_String_range_cons.
    cbn [prop_indices flat_map] in Hr. fold (prop_indices props) in Hr.
    destruct (Prop_Index p) as [i |] eqn:Hi.
    + cbn [present app] in Hr. inversion Hr as [| ? ? Hin Hrest]; subst.
      destruct (prop_cell_step (Edge_Name e) p cells i l Hin Hi)
        as [(Hl & cells' & E & L) | (Hl & E)]; rewrite E.
      * rewrite <- L in Hrest.
        destruct (IH cells' Hrest) as [(HF & cells2 & E2 & L2) | (HF & E2)].
        -- left. split; [constructor; [exists p; split; [reflexivity | exact Hl] | exact HF] |].
           exists cells2. split; [exact E2 | congruence].
        -- right. split; [| exact E2]. intros K. inversion K; subst. contradiction.
      * right. split; [| reflexivity].
        intros K. inversion K as [| ? ? (q & Hq & Hlq) _]; subst.
        injection Hq as <-. contradiction.
    + cbn [present app] in Hr. cbn [ret].
      destruct (IH cells Hr) as [(HF & cells2 & E2 & L2) | (HF & E2)].
      * left. split.
        -- constructor; [| exact HF]. exists p. split; [reflexivity |].
           intros K. rewrite Hi in K. contradiction.
        -- exists cells2. split; assumption.
      * right. split; [| exact E2]. intros K. inversion K; subst. contradiction.
Qed.

Lemma Forall_range (n : Z) (zs : list Z) :
  Forall (fun i => 0 <= i) zs -> Forall (fun i => i <= n) zs ->
  Forall (fun i => 0 <= i < n + 1) zs.
Proof.
  intros H0 H1. induction zs as [| z zs IH]; constructor.
  - inversion H0; inversion H1; subst. lia.
  - inversion H0; inversion H1; subst. auto.
Qed.

Lemma Forall_range_len (n m : Z) (zs : list Z) :
  n = m -> Forall (fun i => 0 <= i < n) zs -> Forall (fun i => 0 <= i < m) zs.
Proof. intros ->. exact (fun H => H). Qed.

(** X16.  [Edge.String] on an edge whose column indices are not negative,
    below the largest [int] and below the number of strings [make]
    allocates: the header is returned exactly when every prop entry is
    present and every prop with an index has a name and a type, the edge
    being named; otherwise the call panics on a nil pointer.  No cell is
    ever read or written out of range, and the log is left as it is. *)
Theorem Edge_String_outcomes (e : Edge) (l : Log) :
  Forall (fun i => 0 <= i) (edge_indices e) ->
  Edge_maxIndex e < max_index_bound ->
  Edge_maxIndex e < make_limit ->
  (printable_edge e /\ exists s, Edge_String e l = (Val s, l))
  \/ (~ printable_edge e /\ Edge_String e l = (Panic NilDereference, l)).
Proof.
  intros Hpos Hmax Hlim.
  destruct (Edge_maxIndex_bounds e) as (H0 & Hle & _).
  pose proof (Forall_range _ _ Hpos Hle) as Hr.
  unfold max_index_bound in Hmax.
  unfold Edge_String. rewrite int_add_exact by lia.
  pose proof (len_repeat EmptyString (Edge_maxIndex e + 1) ltac:(lia)) as L0.
  set (n := Edge_maxIndex e + 1) in *.
  assert (E0 : make_strings n l = (Val (repeat EmptyString (Z.to_nat n)), l)).
  { unfold make_strings. destruct (Z.ltb_spec n 0); [lia |].
    destruct (Z.ltb_spec make_limit n); [lia | reflexivity]. }
  rewrite (bind_run_Val _ _ _ _ _ E0). clear E0.
  generalize dependent (repeat EmptyString (Z.to_nat n)). intros cells0 L0.
  unfold edge_indices, vid_index, rank_index in Hr.
  apply Forall_app in Hr as (Hsrc & Hr). apply Forall_app in Hr as (Hdst & Hr).
  apply Forall_app in Hr as (Hrank & Hprops).
  assert (E1 : exists cells1,
    match Edge_SrcVID e with
    | Some v =>
        match VID_Index v with
        | Some i =>
            c <- at_index cells0 i ;;
            store_index cells0 i (combine c (VID_String v LABEL_SRC_VID))
        | None => ret cells0
        end
    | None => ret cells0
    end l = (Val cells1, l) /\ len cells1 = n).
  { destruct (Edge_SrcVID e) as [v |]; [| exists cells0; split; [reflexivity | exact L0]].
    destruct (VID_Index v) as [i |]; [| exists cells0; split; [reflexivity | exact L0]].
    cbn [present] in Hsrc. inversion Hsrc; subst.
    destruct (head_cell_step cells0 i (VID_String v LABEL_SRC_VID) l) as (c1 & E & L);
      [lia |]. exists c1. split; [exact E | congruence]. }
  destruct E1 as (cells1 & E1 & L1). rewrite (bind_run_Val _ _ _ _ _ E1). clear E1.
  assert (E2 : exists cells2,
    match Edge_DstVID e with
    | Some v =>
        match VID_Index v with
        | Some i =>
            c <- at_index cells1 i ;;
            store_index cells1 i (combine c (VID_String v LABEL_DST_VID))
        | None => ret cells1
        end
    | None => ret cells1
    end l = (Val cells2, l) /\ len cells2 = n).
  { destruct (Edge_DstVID e) as [v |]; [| exists cells1; split; [reflexivity | exact L1]].
    destruct (VID_Index v) as [i |]; [| exists cells1; split; [reflexivity | exact L1]].
    cbn [present] in Hdst. inversion Hdst; subst.
    destruct (head_cell_step cells1 i (VID_String v LABEL_DST_VID) l) as (c1 & E & L);
      [lia |]. exists c1. split; [exact E | congruence]. }
  destruct E2 as (cells2 & E2 & L2). rewrite (bind_run_Val _ _ _ _ _ E2). clear E2.
  assert (E3 : exists cells3,
    match Edge_Rank e with
    | Some r =>
        match Rank_Index r with
        | Some i =>
            c <- at_index cells2 i ;;
            store_index cells2 i (combine c LABEL_RANK)
        | None => ret cells2
        end
    | None => ret cells2
    end l = (Val cells3, l) /\ len cells3 = n).
  { destruct (Edge_Rank e) as [r |]; [| exists cells2; split; [reflexivity | exact L2]].
    destruct (Rank_Index r) as [i |]; [| exists cells2; split; [reflexivity | exact L2]].
    cbn [present] in Hrank. inversion Hrank; subst.
    destruct (head_cell_step cells2 i LABEL_RANK l) as (c1 & E & L);
      [lia |]. exists c1. split; [exact E | congruence]. }
  destruct E3 as (cells3 & E3 & L3). rewrite (bind_run_Val _ _ _ _ _ E3). clear E3.
  destruct (Edge_String_range_outcomes e (Edge_Props e) cells3 l
              (Forall_range_len _ _ _ (eq_sym L3) Hprops))
    as [(HF & cells4 & E4 & L4) | (HF & E4)].
  - left. split; [exact HF |]. unfold bind. rewrite E4. eexists. reflexivity.
  - right. split; [exact HF |]. unfold bind. rewrite E4. reflexivity.
Qed.

Lemma Vertex_String_props_cons (t : Tag) (op : option PropT)
    (props : list (option PropT)) (cells : list string) (l : Log) :
  Vertex_String_props t (op :: props) cells l
  = match match op with
          | Some p =>
              match Prop_Index p with
              | Some i =>
                  c <- at_index cells i ;;
                  name <- deref (Tag_Name t) ;;
                  label <- Prop_String p name ;;
                  store_index cells i (combine c label)
              | None => ret cells
              end
          | None => ret cells
          end l with
    | (Val cells', l') => Vertex_String_props t props cells' l'
    | (Err x, l') => (Err x, l')
    | (Exit, l') => (Exit, l')
    | (Panic q, l') => (Panic q, l')
    end.
Proof. reflexivity. Qed.

Lemma Vertex_String_props_outcomes (t : Tag) (props : list (option PropT))
    (cells : list string) (l : Log) :
  Forall (fun i => 0 <= i < len cells) (prop_indices props) ->
  (Forall (fun op => forall p, op = Some p -> labelled_prop (Tag_Name t) p) props
   /\ exists cells', Vertex_String_props t props cells l = (Val cells', l)
                     /\ len cells' = len cells)
  \/ (~ Forall (fun op => forall p, op = Some p -> labelled_prop (Tag_Name t) p) props
      /\ Vertex_String_props t props cells l = (Panic NilDereference, l)).
Proof.
  revert cells. induction props as [| op props IH]; intros cells Hr.
  - left. split; [constructor |]. exists cells. split; reflexivity.
  - rewrite Vertex_String_props_cons.
    cbn [prop_indices flat_map] in Hr. fold (prop_indices props) in Hr.
    destruct op as [p |].
    + destruct (Prop_Index p) as [i |] eqn:Hi.
      * cbn [present app] in Hr. inversion Hr as [| ? ? Hin Hrest]; subst.
        destruct (prop_cell_step (Tag_Name t) p cells i l Hin Hi)
          as [(Hl & cells' & E & L) | (Hl & E)]; rewrite E.
        -- rewrite <- L in Hrest.
           destruct (IH cells' Hrest) as [(HF & cells2 & E2 & L2) | (HF & E2)].
           ++ left. split.
              ** constructor; [| exact HF]. intros q Hq. injection Hq as <-. exact Hl.
              ** exists cells2. split; [exact E2 | congruence].
           ++ right. split; [| exact E2]. intros K. inversion K; subst. contradiction.
        -- right. split; [| reflexivity].
           intros K. inversion K as [| ? ? Hq _]; subst.
           apply Hl. exact (Hq p eq_refl).
      * cbn [present app] in Hr. cbn [ret].
        destruct (IH cells Hr) as [(HF & cells2 & E2 & L2) | (HF & E2)].
        -- left. split.
           ++ constructor; [| exact HF]. intros q Hq. injection Hq as <-.
              intros K. rewrite Hi in K. contradiction.
           ++ exists cells2. split; assumption.
        -- right. split; [| exact E2]. intros K. inversion K; subst. contradiction.
    + cbn [app] in Hr. cbn [ret].
      destruct (IH cells Hr) as [(HF & cells2 & E2 & L2) | (HF & E2)].
      * left. split.
        -- constructor; [| exact HF]. intros q Hq. discriminate.
        -- exists cells2. split; assumption.
      * right. split; [| exact E2]. intros K. inversion K; subst. contradiction.
Qed.

Lemma Vertex_String_range_cons (t : Tag) (tags : list (option Tag))
    (cells : list string) (l : Log) :
  Vertex_String_range (Some t :: tags) cells l
  = match Vertex_String_props t (Tag_Props t) cells l with
    | (Val cells', l') => Vertex_String_range tags cells' l'
    | (Err x, l') => (Err x, l')
    | (Exit, l') => (Exit, l')
    | (Panic q, l') => (Panic q, l')
    end.
Proof. reflexivity. Qed.

Lemma Vertex_String_range_outcomes (tags : list (option Tag))
    (cells : list string) (l : Log) :
  Forall (fun i => 0 <= i < len cells) (prop_indices (all_props tags)) ->
  (Forall (fun ot => exists t, ot = Some t /\ printable_tag t) tags
   /\ exists cells', Vertex_String_range tags cells l = (Val cells', l)
                     /\ len cells' = len cells)
  \/ (~ Forall (fun ot => exists t, ot = Some t /\ printable_tag t) tags
      /\ Vertex_String_range tags cells l = (Panic NilDereference, l)).
Proof.
  revert cells. induction tags as [| ot tags IH]; intros cells Hr.
  - left. split; [constructor |]. exists cells. split; reflexivity.
  - destruct ot as [t |].
    2:{ right. split; [| reflexivity]. intros K. inversion K as [| ? ? (q & Hq & _) _].
        discriminate. }
    rewrite Vertex_String_range_cons.
    cbn [all_props flat_map] in Hr. fold (all_props tags) in Hr.
    rewrite prop_indices_app in Hr. apply Forall_app in Hr as (Ht & Hrest).
    destruct (Vertex_String_props_outcomes t (Tag_Props t) cells l Ht)
      as [(Hl & cells' & E & L) | (Hl & E)]; rewrite E.
    + rewrite <- L in Hrest.
      destruct (IH cells' Hrest) as [(HF & cells2 & E2 & L2) | (HF & E2)].
      * left. split; [constructor; [exists t; split; [reflexivity | exact Hl] | exact HF] |].
        exists cells2. split; [exact E2 | congruence].
      * right. split; [| exact E2]. intros K. inversion K; subst. contradiction.
    + right. split; [| reflexivity].
      intros K. inversion K as [| ? ? (q & Hq & Hlq) _]; subst.
      injection Hq as <-. contradiction.
Qed.

(** X17.  [Vertex.String] on a vertex whose column indices are not
    negative, below the largest [int] and below the number of strings
    [make] allocates: the header is returned exactly when every tag entry
    is present and, in each tag, every prop that is present and has an
    index has a name and a type, the tag being named; otherwise the call
    panics on a nil pointer.  A nil prop is skipped; no cell is read or
    written out of range, and the log is left as it is. *)
Theorem Vertex_String_outcomes (v : Vertex) (l : Log) :
  Forall (fun i => 0 <= i) (vertex_indices v) ->
  Vertex_maxIndex v < max_index_bound ->
  Vertex_maxIndex v < make_limit ->
  (printable_vertex v /\ exists s, Vertex_String v l = (Val s, l))
  \/ (~ printable_vertex v /\ Vertex_String v l = (Panic NilDereference, l)).
Proof.
  intros Hpos Hmax Hlim.
  destruct (Vertex_maxIndex_bounds v) as (H0 & Hle & _).
  pose proof (Forall_range _ _ Hpos Hle) as Hr.
  unfold max_index_bound in Hmax.
  unfold Vertex_String. rewrite int_add_exact by lia.
  pose proof (len_repeat EmptyString (Vertex_maxIndex v + 1) ltac:(lia)) as L0.
  set (n := Vertex_maxIndex v + 1) in *.
  assert (E0 : make_strings n l = (Val (repeat EmptyString (Z.to_nat n)), l)).
  { unfold make_strings. destruct (Z.ltb_spec n 0); [lia |].
    destruct (Z.ltb_spec make_limit n); [lia | reflexivity]. }
  rewrite (bind_run_Val _ _ _ _ _ E0). clear E0.
  generalize dependent (repeat EmptyString (Z.to_nat n)). intros cells0 L0.
  unfold vertex_indices, vid_index in Hr.
  apply Forall_app in Hr as (Hvid & Hprops).
  assert (E1 : exists cells1,
    match Vertex_VID v with
    | Some vid =>
        match VID_Index vid with
        | Some i => store_index cells0 i (VID_String vid LABEL_VID)
        | None => ret cells0
        end
    | None => ret cells0
    end l = (Val cells1, l) /\ len cells1 = n).
  { destruct (Vertex_VID v) as [vid |]; [| exists cells0; split; [reflexivity | exact L0]].
    destruct (VID_Index vid) as [i |]; [| exists cells0; split; [reflexivity | exact L0]].
    cbn [present] in Hvid. inversion Hvid; subst.
    destruct (store_index_in_range cells0 i (VID_String vid LABEL_VID) l) as (E & L);
      [lia |]. eexists. split; [exact E | congruence]. }
  destruct E1 as (cells1 & E1 & L1). rewrite (bind_run_Val _ _ _ _ _ E1). clear E1.
  destruct (Vertex_String_range_outcomes (Vertex_Tags v) cells1 l
              (Forall_range_len _ _ _ (eq_sym L1) Hprops))
    as [(HF & cells4 & E4 & L4) | (HF & E4)].
  - left. split; [exact HF |]. unfold bind. rewrite E4. eexists. reflexivity.
  - right. split; [exact HF |]. unfold bind. rewrite E4. reflexivity.
Qed.

(** X18.  A schema without a body passes resolution and then cannot be
    printed: with the type an edge (a vertex) and no edge (vertex) entry,
    [Schema.validateAndReset] returns the schema as it is, and
    [Schema.String] panics on the nil pointer. *)
Theorem bodiless_schema_String_panics (prefix : string) (s : Schema) (t : string)
    (l l0 : Log) :
  Schema_Type s = Some t ->
  (ToLower t = "edge" -> ToUpper t <> "VERTEX" -> Schema_Edge s = None ->
   (exists l', Schema_validateAndReset prefix s l = (Val s, l'))
   /\ Schema_String s l0 = (Panic NilDereference, l0))
  /\ (ToLower t = "vertex" -> ToUpper t = "VERTEX" -> Schema_Vertex s = None ->
      (exists l', Schema_validateAndReset prefix s l = (Val s, l'))
      /\ Schema_String s l0 = (Panic NilDereference, l0)).
Proof.
  intros Ht. split.
  - intros Hlow Hup He. split.
    + unfold Schema_validateAndReset. rewrite Ht. cbn [deref].
      unfold bind at 1. cbn [ret]. rewrite Hlow. cbn. rewrite He.
      destruct s; cbn in *; subst. eexists. reflexivity.
    + unfold Schema_String, Schema_IsVertex. rewrite Ht. cbn [deref].
      unfold bind. cbn [ret]. apply String.eqb_neq in Hup. rewrite Hup.
      rewrite He. reflexivity.
  - intros Hlow Hup He. split.
    + unfold Schema_validateAndReset. rewrite Ht. cbn [deref].
      unfold bind at 1. cbn [ret]. rewrite Hlow. cbn. rewrite He.
      destruct s; cbn in *; subst. eexists. reflexivity.
    + unfold Schema_String, Schema_IsVertex. rewrite Ht. cbn [deref].
      unfold bind. cbn [ret]. rewrite Hup. cbn. rewrite He. reflexivity.
Qed.

(** ** The header of the default layout *)

Lemma combine_empty (val : string) : combine EmptyString val = val.
Proof. reflexivity. Qed.

Lemma String_ignore_range_filled (cells : list string) :
  Forall (fun c => c <> EmptyString) cells -> String_ignore_range cells = cells.
Proof.
  induction 1 as [| c cells Hc _ IH]; [reflexivity |].
  cbn [String_ignore_range]. rewrite IH.
  apply String.eqb_neq in Hc. rewrite Hc. reflexivity.
Qed.

Lemma at_index_middle {A} (pre tl : list A) (a : A) (l : Log) :
  at_index (pre ++ a :: tl) (len pre) l = (Val a, l).
Proof.
  apply at_index_cell. unfold cell, len.
  destruct (Z.ltb_spec (Z.of_nat (List.length pre)) 0); [lia |].
  rewrite Nat2Z.id. rewrite nth_error_app2 by lia.
  rewrite Nat.sub_diag. reflexivity.
Qed.

Lemma set_index_middle {A} (pre tl : list A) (a v : A) :
  set_index (pre ++ a :: tl) (List.length pre) v = (pre ++ v :: tl)%list.
Proof.
  induction pre as [| b pre IH]; [reflexivity |].
  cbn [app List.length set_index]. now rewrite IH.
Qed.

Lemma store_index_middle {A} (pre tl : list A) (a v : A) (l : Log) :
  store_index (pre ++ a :: tl) (len pre) v l = (Val (pre ++ v :: tl)%list, l).
Proof.
  destruct (store_index_in_range (pre ++ a :: tl) (len pre) v l) as (E & _).
  { unfold len. rewrite length_app. cbn [List.length]. lia. }
  rewrite E. unfold len. rewrite Nat2Z.id. rewrite set_index_middle. reflexivity.
Qed.

Lemma prop_label_filled (owner : string) (p : PropT) :
  prop_label owner (Some p) <> EmptyString.
Proof.
  unfold prop_label. destruct owner; cbn; discriminate.
Qed.

(** Writing the label of a resolved prop of the default layout into the
    first cell that is still empty. *)
Lemma default_cell_step (owner : string) (op : option PropT) (pre tl : list string)
    (l : Log) :
  default_prop op -> (forall p, op = Some p -> valid_prop p) ->
  exists p',
    option_map (resolved_prop (len pre)) op = Some p'
    /\ Prop_Index p' = Some (len pre)
    /\ (c <- at_index (pre ++ EmptyString :: tl) (len pre) ;;
        name <- deref (Some owner) ;;
        label <- Prop_String p' name ;;
        store_index (pre ++ EmptyString :: tl) (len pre) (combine c label)) l
       = (Val (pre ++ prop_label owner op :: tl)%list, l).
Proof.
  intros (p & -> & Hn & Hi) Hv. destruct (Hv p eq_refl) as ((t & Ht & _) & _).
  destruct (Prop_Name p) as [pn |] eqn:Hpn; [| contradiction].
  exists (resolved_prop (len pre) p). split; [reflexivity |].
  unfold resolved_prop. rewrite Hi, Ht, Hpn. cbn [option_map or_default Prop_Index].
  split; [reflexivity |].
  rewrite (bind_run_Val _ _ _ _ _ (at_index_middle pre tl EmptyString l)).
  cbn [deref]. unfold bind at 1. cbn [ret]. unfold Prop_String.
  cbn [Prop_Name Prop_Type deref]. cbv [bind ret].
  rewrite combine_empty. rewrite store_index_middle.
  unfold prop_label. rewrite Hpn, Ht. cbn [or_default].
  cbn. rewrite ?append_empty. reflexivity.
Qed.

Lemma head_default_step (pre tl : list string) (v : string) (i : Z) (l : Log) :
  i = len pre ->
  (c <- at_index (pre ++ EmptyString :: tl) i ;;
   store_index (pre ++ EmptyString :: tl) i (combine c v)) l
  = (Val (pre ++ v :: tl)%list, l).
Proof.
  intros ->. rewrite (bind_run_Val _ _ _ _ _ (at_index_middle pre tl EmptyString l)).
  rewrite combine_empty. apply store_index_middle.
Qed.

Lemma head_step_0 (tl : list string) (v : string) (l : Log) :
  (c <- at_index (EmptyString :: tl) 0 ;;
   store_index (EmptyString :: tl) 0 (combine c v)) l
  = (Val (v :: tl), l).
Proof. exact (head_default_step [] tl v 0 l eq_refl). Qed.

Lemma head_step_1 (a : string) (tl : list string) (v : string) (l : Log) :
  (c <- at_index (a :: EmptyString :: tl) 1 ;;
   store_index (a :: EmptyString :: tl) 1 (combine c v)) l
  = (Val (a :: v :: tl), l).
Proof. exact (head_default_step [a] tl v 1 l eq_refl). Qed.

Lemma head_step_2 (a b : string) (tl : list string) (v : string) (l : Log) :
  (c <- at_index (a :: b :: EmptyString :: tl) 2 ;;
   store_index (a :: b :: EmptyString :: tl) 2 (combine c v)) l
  = (Val (a :: b :: v :: tl), l).
Proof. exact (head_default_step [a; b] tl v 2 l eq_refl). Qed.

Lemma len_snoc {A} (pre : list A) (a : A) : len (pre ++ [a]) = len pre + 1.
Proof. unfold len. rewrite length_app. cbn [List.length]. lia. Qed.

Lemma len_app {A} (a b : list A) : len (a ++ b) = len a + len b.
Proof. unfold len. rewrite length_app. lia. Qed.

Lemma Edge_String_range_default (e : Edge) (owner : string)
    (props : list (option PropT)) (pre tl : list string) (l : Log) :
  Edge_Name e = Some owner ->
  Forall default_prop props -> valid_props props ->
  Edge_String_range e (resolved_props (len pre) props)
    (pre ++ repeat EmptyString (List.length props) ++ tl) l
  = (Val (pre ++ map (prop_label owner) props ++ tl)%list, l).
Proof.
  intros Hname Hd Hv. revert pre.
  induction props as [| op props IH]; intros pre; [reflexivity |].
  inversion Hd as [| ? ? Hop Hd']; subst. inversion Hv as [| ? ? Hvp Hv']; subst.
  cbn [resolved_props List.length repeat app map].
  destruct (default_cell_step owner op pre
              (repeat EmptyString (List.length props) ++ tl)%list l Hop Hvp)
    as (p' & Ep & Hi & E).
  rewrite Ep, Edge_String_range_cons, Hi, Hname, E.
  rewrite <- len_snoc with (a := prop_label owner op).
  change (pre ++ prop_label owner op
            :: repeat EmptyString (List.length props) ++ tl)%list
    with (pre ++ [prop_label owner op]
            ++ repeat EmptyString (List.length props) ++ tl)%list.
  rewrite app_assoc. rewrite (IH Hd' Hv'). rewrite <- app_assoc. reflexivity.
Qed.

Lemma Vertex_String_props_default (t : Tag) (owner : string)
    (props : list (option PropT)) (pre tl : list string) (l : Log) :
  Tag_Name t = Some owner ->
  Forall default_prop props -> valid_props props ->
  Vertex_String_props t (resolved_props (len pre) props)
    (pre ++ repeat EmptyString (List.length props) ++ tl) l
  = (Val (pre ++ map (prop_label owner) props ++ tl)%list, l).
Proof.
  intros Hname Hd Hv. revert pre.
  induction props as [| op props IH]; intros pre; [reflexivity |].
  inversion Hd as [| ? ? Hop Hd']; subst. inversion Hv as [| ? ? Hvp Hv']; subst.
  cbn [resolved_props List.length repeat app map].
  destruct (default_cell_step owner op pre
              (repeat EmptyString (List.length props) ++ tl)%list l Hop Hvp)
    as (p' & Ep & Hi & E).
  rewrite Ep, Vertex_String_props_cons, Hi, Hname, E.
  rewrite <- len_snoc with (a := prop_label owner op).
  change (pre ++ prop_label owner op
            :: repeat EmptyString (List.length props) ++ tl)%list
    with (pre ++ [prop_label owner op]
            ++ repeat EmptyString (List.length props) ++ tl)%list.
  rewrite app_assoc. rewrite (IH Hd' Hv'). rewrite <- app_assoc. reflexivity.
Qed.

Lemma maxIndex_range_default (props : list (option PropT)) (d m : Z) :
  m = d - 1 -> Forall default_prop props ->
  maxIndex_range m (resolved_props d props) = m + len props.
Proof.
  intros Hm Hd. revert d m Hm.
  induction Hd as [| op props (p & -> & _ & Hi) _ IH]; intros d m Hm.
  - cbn. unfold len. cbn. lia.
  - cbn [resolved_props option_map maxIndex_range resolved_prop Prop_Index].
    rewrite Hi. cbn [or_default].
    destruct (Z.ltb_spec m d); [| lia].
    rewrite (IH (d + 1) d) by lia. unfold len. cbn [List.length]. lia.
Qed.

Lemma VID_String_filled (v : VID) (label : string) :
  label <> EmptyString -> VID_String v label <> EmptyString.
Proof.
  intros H. unfold VID_String. destruct (VID_Function v) as [f |]; [| exact H].
  destruct (String.eqb f EmptyString); [exact H |].
  destruct label; [contradiction |]. cbn. discriminate.
Qed.

Lemma prop_labels_filled (owner : string) (props : list (option PropT)) :
  Forall default_prop props ->
  Forall (fun c => c <> EmptyString) (map (prop_label owner) props).
Proof.
  induction 1 as [| op props (p & -> & _) _ IH]; cbn [map]; constructor.
  - apply prop_label_filled.
  - exact IH.
Qed.

(** The header of an edge already in the default layout. *)
Lemma Edge_String_laid_out (owner : string) (wr : option bool)
    (props : list (option PropT)) (fs fd : option string) (rr : bool) (l : Log) :
  Forall default_prop props -> valid_props props ->
  len props + 3 < max_index_bound ->
  len props + 3 <= make_limit ->
  Edge_String
    (mkEdge (Some owner) wr (resolved_props (if rr then 3 else 2) props)
       (Some (mkVID (Some 0) fs)) (Some (mkVID (Some 1) fd))
       (if rr then Some (mkRank (Some 2)) else None)) l
  = (Val (Join (String_ignore_range
                  ([VID_String (mkVID (Some 0) fs) LABEL_SRC_VID;
                    VID_String (mkVID (Some 1) fd) LABEL_DST_VID]
                   ++ (if rr then [LABEL_RANK] else [])
                   ++ map (prop_label owner) props)%list) ","), l).
Proof.
  intros Hd Hv Hb Hlim. unfold max_index_bound in Hb.
  assert (Hlen : 0 <= len props) by (unfold len; lia).
  unfold Edge_String.
  assert (Hmax : Edge_maxIndex
                   (mkEdge (Some owner) wr (resolved_props (if rr then 3 else 2) props)
                      (Some (mkVID (Some 0) fs)) (Some (mkVID (Some 1) fd))
                      (if rr then Some (mkRank (Some 2)) else None))
                 = (if rr then 2 else 1) + len props).
  { unfold Edge_maxIndex.
    cbn [Edge_SrcVID Edge_DstVID Edge_Rank Edge_Props VID_Index].
    destruct rr; cbn [Rank_Index]; cbn -[maxIndex_range resolved_props];
      apply maxIndex_range_default; (reflexivity || assumption). }
  rewrite Hmax. clear Hmax.
  rewrite int_add_exact by (destruct rr; lia).
  assert (E0 : Z.to_nat ((if rr then 2 else 1) + len props + 1)
               = ((if rr then 3 else 2) + List.length props)%nat).
  { unfold len. destruct rr; lia. }
  unfold make_strings.
  destruct (Z.ltb_spec ((if rr then 2 else 1) + len props + 1) 0);
    [destruct rr; lia |].
  destruct (Z.ltb_spec make_limit ((if rr then 2 else 1) + len props + 1));
    [destruct rr; lia |]. cbn [orb].
  rewrite E0. clear E0.
  unfold bind at 1. cbn [ret Edge_SrcVID Edge_DstVID Edge_Rank Edge_Props VID_Index].
  destruct rr; cbn [Nat.add repeat Rank_Index].
  - rewrite (bind_run_Val _ _ _ _ _ (head_step_0 _ _ l)).
    rewrite (bind_run_Val _ _ _ _ _ (head_step_1 _ _ _ l)).
    rewrite (bind_run_Val _ _ _ _ _ (head_step_2 _ _ _ _ l)).
    pose proof (Edge_String_range_default
                  (mkEdge (Some owner) wr (resolved_props 3 props)
                     (Some (mkVID (Some 0) fs)) (Some (mkVID (Some 1) fd))
                     (Some (mkRank (Some 2))))
                  owner props
                  [VID_String (mkVID (Some 0) fs) LABEL_SRC_VID;
                   VID_String (mkVID (Some 1) fd) LABEL_DST_VID; LABEL_RANK]
                  [] l eq_refl Hd Hv) as E.
    rewrite !app_nil_r in E. cbn [app] in E.
    change (len [VID_String (mkVID (Some 0) fs) LABEL_SRC_VID;
                 VID_String (mkVID (Some 1) fd) LABEL_DST_VID; LABEL_RANK])
      with 3 in E.
    rewrite (bind_run_Val _ _ _ _ _ E). reflexivity.
  - rewrite (bind_run_Val _ _ _ _ _ (head_step_0 _ _ l)).
    rewrite (bind_run_Val _ _ _ _ _ (head_step_1 _ _ _ l)).
    unfold bind at 1. cbn [ret].
    pose proof (Edge_String_range_default
                  (mkEdge (Some owner) wr (resolved_props 2 props)
                     (Some (mkVID (Some 0) fs)) (Some (mkVID (Some 1) fd)) None)
                  owner props
                  [VID_String (mkVID (Some 0) fs) LABEL_SRC_VID;
                   VID_String (mkVID (Some 1) fd) LABEL_DST_VID]
                  [] l eq_refl Hd Hv) as E.
    rewrite !app_nil_r in E. cbn [app] in E.
    change (len [VID_String (mkVID (Some 0) fs) LABEL_SRC_VID;
                 VID_String (mkVID (Some 1) fd) LABEL_DST_VID])
      with 2 in E.
    rewrite (bind_run_Val _ _ _ _ _ E). reflexivity.
Qed.

(** X19.  Resolution followed by [Edge.String], on an edge that leaves
    every column to the default and has no more props than [make] can
    allocate cells for: the edge is accepted and its header reads
    source, destination, the rank label when ranking is requested, then
    one cell [edge.prop:type] per prop in the order of the props, the type
    in lower case, joined by commas.  No cell is left to the ignore
    label. *)
Theorem Edge_String_default_header (prefix : string) (e : Edge) (l : Log) :
  LABEL_SRC_VID <> EmptyString -> LABEL_DST_VID <> EmptyString ->
  LABEL_RANK <> EmptyString ->
  valid_edge e ->
  vid_index (Edge_SrcVID e) = None -> vid_index (Edge_DstVID e) = None ->
  rank_index (Edge_Rank e) = None ->
  Forall default_prop (Edge_Props e) ->
  len (Edge_Props e) + 3 < max_index_bound ->
  len (Edge_Props e) + 3 <= make_limit ->
  exists e' l',
    Edge_validateAndReset prefix e l = (Val e', l')
    /\ forall l0, Edge_String e' l0 = (Val (edge_header e), l0).
Proof.
  intros Ls Ld Lr Hv Hsrc Hdst Hrank Hd Hb Hlim.
  destruct (Edge_validateAndReset_valid prefix e l Hv) as (l' & E).
  eexists _, l'. split; [exact E |]. intros l0.
  destruct Hv as (Hname & _ & _ & _ & Hvp).
  destruct (Edge_Name e) as [owner |] eqn:Hn; [| contradiction].
  assert (Es : match Edge_SrcVID e with
               | Some v => mkVID (Some (or_default (VID_Index v) 0)) (VID_Function v)
               | None => mkVID (Some 0) None
               end
               = mkVID (Some 0) (match Edge_SrcVID e with
                                 | Some v => VID_Function v
                                 | None => None
                                 end)).
  { destruct (Edge_SrcVID e) as [v |]; [| reflexivity].
    cbn in Hsrc. rewrite Hsrc. reflexivity. }
  assert (Ed : match Edge_DstVID e with
               | Some v => mkVID (Some (or_default (VID_Index v) 1)) (VID_Function v)
               | None => mkVID (Some 1) None
               end
               = mkVID (Some 1) (match Edge_DstVID e with
                                 | Some v => VID_Function v
                                 | None => None
                                 end)).
  { destruct (Edge_DstVID e) as [v |]; [| reflexivity].
    cbn in Hdst. rewrite Hdst. reflexivity. }
  rewrite Es, Ed, Hrank. cbn [or_default].
  rewrite (Edge_String_laid_out owner _ _ _ _ _ l0 Hd Hvp Hb Hlim).
  unfold edge_header. rewrite Hn. cbn [or_default].
  assert (Vs : VID_String (mkVID (Some 0) (match Edge_SrcVID e with
                                           | Some v => VID_Function v
                                           | None => None
                                           end)) LABEL_SRC_VID
               = vid_label (Edge_SrcVID e) LABEL_SRC_VID).
  { destruct (Edge_SrcVID e); reflexivity. }
  assert (Vd : VID_String (mkVID (Some 1) (match Edge_DstVID e with
                                           | Some v => VID_Function v
                                           | None => None
                                           end)) LABEL_DST_VID
               = vid_label (Edge_DstVID e) LABEL_DST_VID).
  { destruct (Edge_DstVID e); reflexivity. }
  rewrite String_ignore_range_filled.
  - rewrite Vs, Vd. reflexivity.
  - cbn [app]. constructor; [apply VID_String_filled; exact Ls |].
    constructor; [apply VID_String_filled; exact Ld |].
    apply Forall_app. split.
    + destruct (ranking_requested e); [constructor; [exact Lr | constructor] | constructor].
    + apply prop_labels_filled. exact Hd.
Qed.

Lemma store_head (tl : list string) (v : string) (l : Log) :
  store_index (EmptyString :: tl) 0 v l = (Val (v :: tl), l).
Proof. exact (store_index_middle [] tl EmptyString v l). Qed.

Lemma all_props_default (tags : list (option Tag)) :
  Forall default_tag tags -> Forall default_prop (all_props tags).
Proof.
  induction 1 as [| ot tags (t & -> & Ht) _ IH]; [constructor |].
  cbn [all_props flat_map]. apply Forall_app. split; assumption.
Qed.

Lemma all_props_valid (tags : list (option Tag)) :
  Forall (fun ot => forall t, ot = Some t -> valid_tag t) tags ->
  valid_props (all_props tags).
Proof.
  induction 1 as [| ot tags Ht _ IH]; [constructor |].
  cbn [all_props flat_map]. apply Forall_app. split; [| exact IH].
  destruct ot as [t |]; [| constructor]. exact (proj2 (Ht t eq_refl)).
Qed.

Lemma Vertex_String_range_default (tags : list (option Tag)) (pre : list string)
    (l : Log) :
  Forall default_tag tags ->
  Forall (fun ot => forall t, ot = Some t -> valid_tag t) tags ->
  Vertex_String_range (resolved_tags (len pre) tags)
    (pre ++ repeat EmptyString (List.length (all_props tags))) l
  = (Val (pre ++ flat_map tag_labels tags)%list, l).
Proof.
  intros Hd Hv. revert pre.
  induction tags as [| ot tags IH]; intros pre.
  - cbn. rewrite !app_nil_r. reflexivity.
  - inversion Hd as [| ? ? (t & -> & Hdt) Hd']; subst.
    inversion Hv as [| ? ? Hvt Hv']; subst.
    destruct (Hvt t eq_refl) as (Hname & Hvp).
    destruct (Tag_Name t) as [owner |] eqn:Hn; [| contradiction].
    cbn [resolved_tags all_props flat_map tag_labels]. fold (all_props tags).
    rewrite Hn. cbn [or_default].
    rewrite Vertex_String_range_cons. cbn [Tag_Props].
    rewrite length_app, repeat_app.
    rewrite (Vertex_String_props_default
               (mkTag (Some owner) (resolved_props (len pre) (Tag_Props t)))
               owner (Tag_Props t) pre _ l eq_refl Hdt Hvp).
    assert (Hlen : len pre + len (Tag_Props t)
                   = len (pre ++ map (prop_label owner) (Tag_Props t))).
    { rewrite len_app. unfold len. rewrite length_map. reflexivity. }
    rewrite Hlen, app_assoc, (IH Hd' Hv'), <- app_assoc. reflexivity.
Qed.

Lemma tag_labels_filled (tags : list (option Tag)) :
  Forall default_tag tags ->
  Forall (fun c => c <> EmptyString) (flat_map tag_labels tags).
Proof.
  induction 1 as [| ot tags (t & -> & Ht) _ IH]; [constructor |].
  cbn [flat_map tag_labels]. apply Forall_app. split; [| exact IH].
  apply prop_labels_filled. exact Ht.
Qed.

(** X20.  Resolution followed by [Vertex.String], on a vertex that leaves
    every column to the default and has no more props than [make] can
    allocate cells for: the vertex is accepted and its header reads the
    VID, then one cell [tag.prop:type] per prop, tag after tag
    in the order of the schema, the type in lower case, joined by commas.
    No cell is left to the ignore label. *)
Theorem Vertex_String_default_header (prefix : string) (v : Vertex) (l : Log) :
  LABEL_VID <> EmptyString ->
  valid_vertex v ->
  vid_index (Vertex_VID v) = None ->
  Forall default_tag (Vertex_Tags v) ->
  len (all_props (Vertex_Tags v)) + 1 < max_index_bound ->
  len (all_props (Vertex_Tags v)) + 1 <= make_limit ->
  exists v' l',
    Vertex_validateAndReset prefix v l = (Val v', l')
    /\ forall l0, Vertex_String v' l0 = (Val (vertex_header v), l0).
Proof.
  intros Lv Hv Hvid Hd Hb Hlim. unfold max_index_bound in Hb.
  destruct (Vertex_validateAndReset_valid prefix v l Hv) as (l' & E).
  eexists _, l'. split; [exact E |]. intros l0.
  destruct Hv as (_ & Hvt).
  assert (Ev : match Vertex_VID v with
               | Some vid => mkVID (Some (or_default (VID_Index vid) 0)) (VID_Function vid)
               | None => mkVID (Some 0) None
               end
               = mkVID (Some 0) (match Vertex_VID v with
                                 | Some vid => VID_Function vid
                                 | None => None
                                 end)).
  { destruct (Vertex_VID v) as [vid |]; [| reflexivity].
    cbn in Hvid. rewrite Hvid. reflexivity. }
  rewrite Ev. clear Ev.
  assert (Vs : VID_String (mkVID (Some 0) (match Vertex_VID v with
                                           | Some vid => VID_Function vid
                                           | None => None
                                           end)) LABEL_VID
               = vid_label (Vertex_VID v) LABEL_VID).
  { destruct (Vertex_VID v); reflexivity. }
  assert (Hlen : 0 <= len (all_props (Vertex_Tags v))) by (unfold len; lia).
  unfold Vertex_String.
  assert (Hmax : Vertex_maxIndex
                   (mkVertex (Some (mkVID (Some 0) (match Vertex_VID v with
                                                    | Some vid => VID_Function vid
                                                    | None => None
                                                    end)))
                      (resolved_tags 1 (Vertex_Tags v)))
                 = 0 + len (all_props (Vertex_Tags v))).
  { unfold Vertex_maxIndex. cbn [Vertex_VID Vertex_Tags VID_Index].
    cbn -[Vertex_maxIndex_range resolved_tags all_props].
    rewrite Vertex_maxIndex_range_flat, all_props_resolved.
    apply maxIndex_range_default; [reflexivity |].
    apply all_props_default. exact Hd. }
  rewrite Hmax. clear Hmax.
  rewrite int_add_exact by lia.
  assert (E0 : Z.to_nat (0 + len (all_props (Vertex_Tags v)) + 1)
               = S (List.length (all_props (Vertex_Tags v)))).
  { unfold len. lia. }
  unfold make_strings.
  destruct (Z.ltb_spec (0 + len (all_props (Vertex_Tags v)) + 1) 0); [lia |].
  destruct (Z.ltb_spec make_limit (0 + len (all_props (Vertex_Tags v)) + 1));
    [lia |]. cbn [orb].
  rewrite E0. clear E0.
  unfold bind at 1. cbn [ret Vertex_VID Vertex_Tags VID_Index repeat].
  rewrite (bind_run_Val _ _ _ _ _ (store_head _ _ l0)).
  pose proof (Vertex_String_range_default (Vertex_Tags v)
                [VID_String (mkVID (Some 0) (match Vertex_VID v with
                                             | Some vid => VID_Function vid
                                             | None => None
                                             end)) LABEL_VID]
                l0 Hd Hvt) as E1.
  cbn [app] in E1.
  change (len [VID_String (mkVID (Some 0) (match Vertex_VID v with
                                           | Some vid => VID_Function vid
                                           | None => None
                                           end)) LABEL_VID])
    with 1 in E1.
  rewrite (bind_run_Val _ _ _ _ _ E1). cbn [ret].
  unfold vertex_header. rewrite String_ignore_range_filled.
  - rewrite Vs. reflexivity.
  - constructor; [apply VID_String_filled; exact Lv |].
    apply tag_labels_filled. exact Hd.
Qed.

End HeaderProperties.

(** * Further evaluations on concrete inputs *)

(** X1, witness: the settings of [student_config], validated twice. *)
Lemma NebulaClientSettings_validateAndReset_twice_witness :
  exists n' l',
    NebulaClientSettings_validateAndReset (rt:=rt0) "clientSettings"
      student_settings [] = (Val n', l')
    /\ NebulaClientSettings_validateAndReset (rt:=rt0) "clientSettings" n' l'
       = (Val n', l').
Proof.
  destruct (NebulaClientSettings_validateAndReset (rt:=rt0) "clientSettings"
              student_settings [])
    as [[n' | e | | p] l'] eqn:E; try (vm_compute in E; discriminate E).
  exists n', l'. split; [reflexivity |].
  exact (@NebulaClientSettings_validateAndReset_twice rt0 "clientSettings"
           "clientSettings" student_settings n' [] l' l' E).
Defined.

(** X2, witness: an empty delimiter, and no delimiter. *)
Lemma CSVConfig_validateAndReset_delimiter_witness :
  (exists l', CSVConfig_validateAndReset (rt:=rt0) "files[0].csv"
                (mkCSVConfig None None (Some EmptyString)) []
              = (Err "files[0].csv.delimiter is empty string", l'))
  /\ (exists l', CSVConfig_validateAndReset (rt:=rt0) "files[0].csv"
                   (mkCSVConfig (Some true) None None) []
                 = (Val (mkCSVConfig (Some true) (Some false) None), l')).
Proof.
  split.
  - exact (proj1 (@CSVConfig_validateAndReset_delimiter rt0 "files[0].csv"
                    (mkCSVConfig None None (Some EmptyString)) []) eq_refl).
  - apply (proj2 (@CSVConfig_validateAndReset_delimiter rt0 "files[0].csv"
                    (mkCSVConfig (Some true) None None) [])).
    discriminate.
Defined.

(** X3, witness: a json file entry, and a path that exists nowhere. *)
Lemma File_validateAndReset_rejects_witness :
  returns_error (File_validateAndReset (rt:=rt_student) "/conf" "files[0]" json_file) []
  /\ File_validateAndReset (rt:=rt0) "/conf" "files[0]" student_file []
     = (Err "File(student.csv) doesn't exist", []).
Proof.
  split.
  - apply (proj1 (@File_validateAndReset_rejects rt_student "/conf" "files[0]"
                    json_file []) "json" eq_refl).
    intros H. vm_compute in H. discriminate H.
  - exact (proj2 (@File_validateAndReset_rejects rt0 "/conf" "files[0]"
                    student_file []) "student.csv" eq_refl eq_refl eq_refl).
Defined.

(** X4, witness: [student_file] under the directory /conf. *)
Lemma File_validateAndReset_result_witness :
  exists f' l',
    File_validateAndReset (rt:=rt_student) "/conf" "files[0]" student_file []
    = (Val f', l')
    /\ File_Path f' = Some "/conf/student.csv"
    /\ File_Paths f' = ["/conf/student.csv"]
    /\ File_FailDataPath f' = Some "/conf/err/student.csv".
Proof.
  destruct (File_validateAndReset (rt:=rt_student) "/conf" "files[0]" student_file [])
    as [[f' | e | | p] l'] eqn:E; try (vm_compute in E; discriminate E).
  destruct (@File_validateAndReset_result rt_student "/conf" "files[0]"
              student_file f' [] l' E)
    as (given & path & ty & s & s' & Hg & Hp & _ & Hpath & Hpaths & _ & Hfail & _).
  cbn in Hg. injection Hg as <-. vm_compute in Hp. subst path.
  exists f', l'. split; [reflexivity |]. split; [exact Hpath |].
  split; [rewrite Hpaths; reflexivity |].
  destruct (Hfail eq_refl) as (d & Hd & Hf).
  vm_compute in Hd. injection Hd as <-. rewrite Hf. reflexivity.
Defined.

(** X5, witness: [student_config], validated and parsed. *)
Lemma validated_config_is_populated_witness :
  (exists config' l',
     YAMLConfig_ValidateAndReset (rt:=rt_student) "/conf" student_config []
     = (Val config', l')
     /\ populated_config config')
  /\ (exists config' l',
        Parse (rt:=rt_student) "/conf/importer.yaml" [] = (Val config', l')
        /\ populated_config config').
Proof.
  split.
  - destruct (YAMLConfig_ValidateAndReset (rt:=rt_student) "/conf" student_config [])
      as [[config' | e | | p] l'] eqn:E; try (vm_compute in E; discriminate E).
    exists config', l'. split; [reflexivity |].
    exact (proj1 (@validated_config_is_populated rt_student "/conf"
                    "/conf/importer.yaml" student_config config' [] l') E).
  - destruct (Parse (rt:=rt_student) "/conf/importer.yaml" [])
      as [[config' | e | | p] l'] eqn:E; try (vm_compute in E; discriminate E).
    exists config', l'. split; [reflexivity |].
    exact (proj2 (@validated_config_is_populated rt_student "/conf"
                    "/conf/importer.yaml" student_config config' [] l') E).
Defined.

(** X6, witness: a nil entry alone, and a nil entry after
    [student_file]. *)
Lemma nil_file_entry_panics_witness :
  (exists l',
     YAMLConfig_ValidateAndReset (rt:=rt0) "/conf"
       (mkYAMLConfig None None (Some student_settings) None [None]) []
     = (Panic NilDereference, l'))
  /\ (exists l',
        YAMLConfig_ValidateAndReset (rt:=rt_student) "/conf"
          (mkYAMLConfig (Some "v0") None (Some student_settings) None
             [Some student_file; None]) []
        = (Panic NilDereference, l')).
Proof.
  split.
  - apply (proj1 (@nil_file_entry_panics rt0 "/conf" None None
                    (Some student_settings) None [] [] [])
             student_settings (mkConnection None None None));
      [reflexivity | discriminate | reflexivity].
  - destruct (YAMLConfig_ValidateAndReset (rt:=rt_student) "/conf" student_config [])
      as [[config' | e | | p] l'] eqn:E; try (vm_compute in E; discriminate E).
    exact (proj2 (@nil_file_entry_panics rt_student "/conf" (Some "v0") None
                    (Some student_settings) None [Some student_file] [] [])
             config' l' E).
Defined.

(** X7, witness: a prop at index -1, and a date prop without a format. *)
Lemma Prop_FormatValue_panics_witness :
  Prop_FormatValue (rt:=rt0) negative_prop ["19"] []
  = (Panic (IndexOutOfRange (-1) 1), [])
  /\ Prop_FormatValue (rt:=rt0) formatless_prop ["2020"] []
     = (Panic (IndexOutOfRange 1 1), []).
Proof.
  split.
  - refine (proj1 (@Prop_FormatValue_panics rt0 negative_prop ["19"])
              (-1) eq_refl _ []). lia.
  - refine (proj2 (@Prop_FormatValue_panics rt0 formatless_prop ["2020"])
              0 "2020" "date-timestamp" eq_refl eq_refl eq_refl eq_refl _ []).
    cbn. repeat split; discriminate.
Defined.

(** X8, witness: the second row of the prop cell has no timestamp. *)
Lemma Edge_FormatValues_short_row_witness :
  Edge_FormatValues (rt:=rt0) scenario_edge short_row_record []
  = (Panic (IndexOutOfRange 1 1), []).
Proof.
  refine (@Edge_FormatValues_short_row rt0 scenario_edge short_row_record
            (mkVID (Some 0) (Some "hash")) 0 "a" "@7"
            (mkProp (Some "likeness") (Some "double") (Some 3)) [] 3 "x#1&y"
            ["x#1"] [] "y" eq_refl eq_refl eq_refl eq_refl eq_refl eq_refl eq_refl
            eq_refl _ _ []).
  - constructor; [vm_compute; lia | constructor].
  - cbn. repeat split; discriminate.
Defined.

(** X9, witness: [propless_edge]. *)
Lemma propless_edge_never_compiles_witness :
  exists e' l',
    Edge_validateAndReset (rt:=rt0) "s.edge" propless_edge [] = (Val e', l')
    /\ forall record l0, panics (Edge_FormatValues (rt:=rt0) e' record) l0.
Proof.
  apply (@propless_edge_never_compiles rt0 "s.edge" propless_edge []);
    [| reflexivity].
  split; [discriminate |]. split; [intros v E; discriminate E |].
  split; [intros v E; discriminate E |].
  split; [intros r i E; discriminate E |]. constructor.
Defined.

(** X10, witness: the format YYYY reaches the conversion as yyyy. *)
Lemma resolution_lowercases_date_format_witness :
  exists p',
    Prop_validateAndReset (rt:=rt0) "props[0]" 0 upper_format_prop [] = (Val p', [])
    /\ Prop_Type p' = Some "date-timestamp:yyyy"
    /\ Prop_FormatValue (rt:=rt0) p' ["2020"] [] = (Val "timestamp(2020,yyyy)", []).
Proof.
  destruct (@resolution_lowercases_date_format rt0 "props[0]" 0 upper_format_prop
              "date-timestamp:YYYY" ["2020"] [])
    as (p' & E & Ht & Hf).
  - split; [eexists; split; reflexivity | intros i Hi; discriminate Hi].
  - reflexivity.
  - exists p'. split; [exact E |]. split; [exact Ht |].
    refine (Hf "date-timestamp" "yyyy" "2020" eq_refl _ _ eq_refl eq_refl []);
      cbn; repeat split; discriminate.
Defined.

(** X11, witness: the second tag of [unnamed_tag_vertex]. *)
Lemma unnamed_tag_is_rejected_witness :
  exists l',
    Vertex_validateAndReset (rt:=rt0) "s.vertex" unnamed_tag_vertex []
    = (Err "Please configure the vertex tag name in: s.vertex.tags[1].name", l').
Proof.
  refine (@unnamed_tag_is_rejected rt0 "s.vertex" unnamed_tag_vertex
            [Some (mkTag (Some "student") [])] [] (mkTag None []) [] _ eq_refl _ eq_refl).
  - intros vid E. discriminate E.
  - constructor; [| constructor]. intros t E. inversion E; subst.
    split; [discriminate | constructor].
Defined.

Lemma lower_byte_idempotent (c : ascii) : lower_byte (lower_byte c) = lower_byte c.
Proof. destruct c as [[] [] [] [] [] [] [] []]; reflexivity. Qed.

Lemma ascii_ToLower_idempotent (s : string) :
  ascii_ToLower (ascii_ToLower s) = ascii_ToLower s.
Proof.
  induction s as [| c s IH]; [reflexivity |].
  cbn [ascii_ToLower]. now rewrite lower_byte_idempotent, IH.
Qed.

(** X12, witness: [raw_vertex] and [raw_edge], with the lower-casing of
    the reference runtime. *)
Lemma resolution_is_idempotent_witness :
  (exists v' l',
     Vertex_validateAndReset (rt:=rt0) "s.vertex" raw_vertex [] = (Val v', l')
     /\ forall l0, exists l1,
          Vertex_validateAndReset (rt:=rt0) "s.vertex" v' l0 = (Val v', l1))
  /\ (exists e' l',
        Edge_validateAndReset (rt:=rt0) "s.edge" raw_edge [] = (Val e', l')
        /\ forall l0, exists l1,
             Edge_validateAndReset (rt:=rt0) "s.edge" e' l0 = (Val e', l1)).
Proof.
  split.
  - exact (proj1 (@resolution_is_idempotent rt0 ascii_ToLower_idempotent
                    "s.vertex" "s.vertex" []) raw_vertex raw_vertex_valid).
  - exact (proj2 (@resolution_is_idempotent rt0 ascii_ToLower_idempotent
                    "s.edge" "s.edge" []) raw_edge raw_edge_valid).
Defined.

(** X14, witness: the source label with the generator hash, and without
    a generator. *)
Lemma VID_String_ParseFunction_witness :
  (VID_String (rt:=rt0) (mkVID (Some 0) (Some "HASH")) ":SRC_VID" = ":SRC_VID(HASH)"
   /\ VID_ParseFunction (rt:=rt0) ":SRC_VID(HASH)" (mkVID (Some 0) None) []
      = (Val (mkVID (Some 0) (Some "hash")), []))
  /\ (VID_String (rt:=rt0) (mkVID (Some 0) None) ":SRC_VID" = ":SRC_VID"
      /\ VID_ParseFunction (rt:=rt0) ":SRC_VID" (mkVID (Some 0) (Some "uuid")) []
         = (Val (mkVID (Some 0) None), [])).
Proof.
  split.
  - refine (proj1 (@VID_String_ParseFunction rt0 (mkVID (Some 0) (Some "HASH"))
                     (mkVID (Some 0) None) ":SRC_VID" [] _ _ _)
              "HASH" eq_refl _ _);
      first [discriminate | cbn; repeat split; discriminate].
  - refine (proj2 (@VID_String_ParseFunction rt0 (mkVID (Some 0) None)
                     (mkVID (Some 0) (Some "uuid")) ":SRC_VID" [] _ _ _)
              (or_introl eq_refl));
      first [discriminate | cbn; repeat split; discriminate].
Defined.

(** X16, witness: the header of [scenario_edge] is returned. *)
Lemma Edge_String_outcomes_witness :
  exists s, Edge_String (rt:=rt0) (hd:=hd0) scenario_edge [] = (Val s, []).
Proof.
  destruct (@Edge_String_outcomes rt0 hd0 scenario_edge []) as [(_ & H) | (_ & H)].
  - repeat constructor; discriminate.
  - vm_compute. reflexivity.
  - vm_compute. reflexivity.
  - exact H.
  - vm_compute in H. discriminate H.
Defined.

(** X17, witness: the header of [scenario_vertex] is returned. *)
Lemma Vertex_String_outcomes_witness :
  exists s, Vertex_String (rt:=rt0) (hd:=hd0) scenario_vertex [] = (Val s, []).
Proof.
  destruct (@Vertex_String_outcomes rt0 hd0 scenario_vertex []) as [(_ & H) | (_ & H)].
  - repeat constructor; discriminate.
  - vm_compute. reflexivity.
  - vm_compute. reflexivity.
  - exact H.
  - vm_compute in H. discriminate H.
Defined.

(** X18, witness: [bodiless_schema], and a vertex schema without a
    vertex. *)
Lemma bodiless_schema_String_panics_witness :
  ((exists l', Schema_validateAndReset (rt:=rt0) "files[0].schema" bodiless_schema []
               = (Val bodiless_schema, l'))
   /\ Schema_String (rt:=rt0) (hd:=hd0) bodiless_schema [] = (Panic NilDereference, []))
  /\ ((exists l', Schema_validateAndReset (rt:=rt0) "files[0].schema"
                    (mkSchema (Some "Vertex") None None) []
                  = (Val (mkSchema (Some "Vertex") None None), l'))
      /\ Schema_String (rt:=rt0) (hd:=hd0) (mkSchema (Some "Vertex") None None) []
         = (Panic NilDereference, [])).
Proof.
  split.
  - apply (proj1 (@bodiless_schema_String_panics rt0 hd0 "files[0].schema"
                    bodiless_schema "edge" [] [] eq_refl));
      [reflexivity | intros H; vm_compute in H; discriminate H | reflexivity].
  - apply (proj2 (@bodiless_schema_String_panics rt0 hd0 "files[0].schema"
                    (mkSchema (Some "Vertex") None None) "Vertex" [] [] eq_refl));
      reflexivity.
Defined.

(** X19, witness: the header of [raw_edge], for which ranking is
    requested. *)
Lemma Edge_String_default_header_witness :
  exists e' l',
    Edge_validateAndReset (rt:=rt0) "s.edge" raw_edge [] = (Val e', l')
    /\ forall l0,
         Edge_String (rt:=rt0) (hd:=hd0) e' l0
         = (Val ":SRC_VID,:DST_VID,:RANK,follow.likeness:double,follow.since:int", l0).
Proof.
  refine (@Edge_String_default_header rt0 hd0 "s.edge" raw_edge [] _ _ _
            raw_edge_valid eq_refl eq_refl eq_refl _ _ _);
    try discriminate.
  - repeat (apply Forall_cons;
            [eexists; split; [reflexivity | split; [discriminate | reflexivity]] |]).
    apply Forall_nil.
  - vm_compute. reflexivity.
Defined.

Lemma default_vertex_valid : valid_vertex (rt:=rt0) default_vertex.
Proof.
  split.
  - intros vid E. discriminate E.
  - cbn. repeat (apply Forall_cons; [accept_tag |]). apply Forall_nil.
Defined.

(** X20, witness: the header of [default_vertex]. *)
Lemma Vertex_String_default_header_witness :
  exists v' l',
    Vertex_validateAndReset (rt:=rt0) "s.vertex" default_vertex [] = (Val v', l')
    /\ forall l0,
         Vertex_String (rt:=rt0) (hd:=hd0) v' l0
         = (Val ":VID,student.name:string,student.age:int,course.credits:int", l0).
Proof.
  refine (@Vertex_String_default_header rt0 hd0 "s.vertex" default_vertex [] _
            default_vertex_valid eq_refl _ _ _);
    try discriminate.
  - repeat (apply Forall_cons;
            [eexists; split; [reflexivity |];
             repeat (apply Forall_cons;
                     [eexists; split; [reflexivity | split; [discriminate | reflexivity]] |]);
             apply Forall_nil |]).
    apply Forall_nil.
  - vm_compute. reflexivity.
Defined.
